(** * pamazons3: the S3 upload worker and the svn-sync command

    A shallow embedding of [management/commands/__init__.py] (the queue,
    [S3File], [S3UploadWorker]) and of [management/commands/s3-svnsync.py]
    ([Command.handle], [get_s3_svn_revision], [set_s3_revision]), with the
    properties of the synchronisation core stated and proved over it.

    Conventions of the embedding:
    - Python [str] values are [string]; indices into them are [Z], with
      [-1] for the "not found" answer of [rfind].
    - A boto bucket is a [gmap string s3object]; S3 as a whole maps bucket
      names to buckets.
    - Code that mutates [self], the queue, the store or prints is written in
      a state-and-exception monad [M]; an exception keeps the state reached
      when it was raised, as in Python.
    - Every call made on a boto object is recorded, in order, in the
      [calls] field of the world. *)

From Stdlib Require Import ZArith Ascii String List Lia Bool Sorted.
From stdpp Require Import base option gmap strings list fin_maps.

Local Open Scope Z_scope.

(** ** Strings as sequences of characters *)

Module PyStr.

Definition chars (s : string) : list ascii := list_ascii_of_string s.
Definition str (l : list ascii) : string := string_of_list_ascii l.

Definition dot : ascii := "."%char.
Definition slash : ascii := "/"%char.

(** [p.rfind(c)] seen from offset [i]: the index of the last occurrence of
    [c], or [-1]. *)
Fixpoint rfind_from (c : ascii) (p : list ascii) (i : Z) : Z :=
  match p with
  | [] => -1
  | x :: q =>
      let r := rfind_from c q (i + 1) in
      if 0 <=? r then r else if Ascii.eqb x c then i else -1
  end.

Definition rfind (c : ascii) (p : list ascii) : Z := rfind_from c p 0.

(** [p[i]] for an index known to be in range. *)
Definition char_at (p : list ascii) (i : Z) : ascii :=
  nth (Z.to_nat i) p "000"%char.

(** The [while filenameIndex < dotIndex] loop of [genericpath._splitext]:
    [true] when some character of the file name before the last dot is not
    a dot.  [n] is [dotIndex - filenameIndex], the number of iterations
    left. *)
Fixpoint has_name_before_dot (p : list ascii) (n : nat) (filenameIndex : Z)
  : bool :=
  match n with
  | O => false
  | S n' =>
      if negb (Ascii.eqb (char_at p filenameIndex) dot) then true
      else has_name_before_dot p n' (filenameIndex + 1)
  end.

(** [posixpath.splitext] of Python 2.6, on character lists. *)
Definition splitext_chars (p : list ascii) : list ascii * list ascii :=
  let sepIndex := rfind slash p in
  let dotIndex := rfind dot p in
  if (sepIndex <? dotIndex)
     && has_name_before_dot p (Z.to_nat (dotIndex - (sepIndex + 1)))
                            (sepIndex + 1)
  then (take (Z.to_nat dotIndex) p, drop (Z.to_nat dotIndex) p)
  else (p, []).

Definition splitext (p : string) : string * string :=
  let '(root, ext) := splitext_chars (chars p) in (str root, str ext).

(** [s.endswith(suffix)] and [s.startswith(prefix)]. *)
Fixpoint startswith_chars (s pre : list ascii) : bool :=
  match pre, s with
  | [], _ => true
  | _ :: _, [] => false
  | c :: pre', x :: s' => Ascii.eqb x c && startswith_chars s' pre'
  end.

Definition startswith (s pre : string) : bool :=
  startswith_chars (chars s) (chars pre).

Definition endswith (s suf : string) : bool :=
  startswith_chars (rev (chars s)) (rev (chars suf)).

(** [posixpath.join(a, b)]. *)
Definition path_join (a b : string) : string :=
  if startswith b "/" then b
  else if String.eqb a "" || endswith a "/" then a +:+ b
  else a +:+ "/" +:+ b.

(** Truth value of a Python string. *)
Definition truthy (s : string) : bool := negb (String.eqb s "").

End PyStr.

(** ** The gzip-variant key

    [gz_filename, gz_ext = os.path.splitext(file_key)] followed by
    [''.join([gz_filename, '.gz', gz_ext])]: the same two lines occur in
    [delete_s3] and in [upload_s3]. *)

Definition gz_key (file_key : string) : string :=
  let '(gz_filename, gz_ext) := PyStr.splitext file_key in
  gz_filename +:+ ".gz" +:+ gz_ext.

(** ** Exceptions

    The Python exceptions that can travel through the embedded code.
    [SystemExit] is what [sys.exit(code)] raises. *)

Inductive exn :=
| S3CreateError
| S3ResponseError
| IOError
| OSError
| IndexError
| TypeError
| CommandError (message : string)
| SystemExit (code : Z).

(** [except boto.s3.connection.S3CreateError] matches this exception only;
    every other one is an [Exception] that is not an [S3CreateError]. *)
Definition is_S3CreateError (e : exn) : bool :=
  match e with S3CreateError => true | _ => false end.

Inductive res (A : Type) :=
| Ok (a : A)
| Raise (e : exn).
Arguments Ok {A} a.
Arguments Raise {A} e.

(** ** State and exceptions *)

Definition M (S A : Type) : Type := S -> res A * S.

#[global] Instance M_ret {S} : MRet (M S) := fun A a s => (Ok a, s).

#[global] Instance M_bind {S} : MBind (M S) :=
  fun A B f m s =>
    match m s with
    | (Ok a, s') => f a s'
    | (Raise e, s') => (Raise e, s')
    end.

Definition raise {S A} (e : exn) : M S A := fun s => (Raise e, s).

Definition gets {S A} (f : S -> A) : M S A := fun s => (Ok (f s), s).

Definition modify {S} (f : S -> S) : M S unit := fun s => (Ok tt, f s).

(** [try: m] with the outcome handed to the [except]/[else] clauses. *)
Definition attempt {S A} (m : M S A) : M S (res A) :=
  fun s => let '(r, s') := m s in (Ok r, s').

Definition when {S} (b : bool) (m : M S unit) : M S unit :=
  if b then m else mret tt.

(** ** The data of the two modules *)

(** [S3File]: the file information, the S3 key and the action. *)
Record S3File := {
  bucket_name : string;
  file_key : string;
  filename : string;
  delete_flag : bool;
}.

Definition do_delete (f : S3File) : bool := delete_flag f.
Definition do_upload (f : S3File) : bool := negb (delete_flag f).

(** The dictionary kept in [svn_revision.yaml]; [initial_revision] is the one
    key that [handle] adds to the four of [get_s3_svn_revision]. *)
Record s3_revision := {
  url : string;
  revision : Z;
  last_update : option string;
  uuid : option string;
  initial_revision : option Z;
}.

Definition INITIAL_REVISION : Z := -1.
Definition SVN_REVISION_CONF : string := "svn_revision.yaml".

(** What an S3 object holds: a file's bytes, or a YAML document, which is
    represented by the dictionary it encodes. *)
Inductive body :=
| FileBody (data : string)
| YamlBody (doc : s3_revision).

Record s3object := {
  obj_body : body;
  obj_headers : gmap string string;
  obj_public : bool;
  last_modified : Z;
}.

Abbreviation bucket := (gmap string s3object).
Abbreviation s3_store := (gmap string (gmap string s3object)).

(** The calls made on boto objects, in the order they were made. *)
Inductive store_call :=
| GetBucket (name : string)
| CreateBucket (name : string)
| GetKey (bkt key : string)
| ReadKey (bkt key : string)
| SetContents (bkt key : string) (content : body) (headers : gmap string string)
| MakePublic (bkt key : string)
| DeleteKey (bkt key : string).

(** The statuses of [pysvn.wc_status_kind]. *)
Inductive wc_status_kind :=
| st_none | st_unversioned | st_normal | st_added | st_missing | st_deleted
| st_replaced | st_modified | st_merged | st_conflicted | st_ignored
| st_obstructed | st_external | st_incomplete.

Inductive node_kind := nk_none | nk_file | nk_dir | nk_unknown.

Inductive diff_summarize_kind := ds_normal | ds_added | ds_modified | ds_delete.

Record diff_summary := {
  path : string;
  summarize_kind : diff_summarize_kind;
  change_node_kind : node_kind;
}.

(** One constructor per [print] statement of the two modules. *)
Inductive msg :=
| MsgWorkerInit (num : Z)
| MsgConnected (num : Z)
| MsgDeleting (key : string) (num : Z)
| MsgDeletingGzip (key : string) (num : Z)
| MsgNotChanged (key : string)
| MsgUploading (key : string) (num : Z)
| MsgExpires (value : string)
| MsgCacheControl (value : string)
| MsgGzipped (kb gz_kb : Z)
| MsgSkippingGzip (key : string)
| MsgFailed (e : exn)
| MsgException (e : exn)
| MsgFinishedProcessing (num : Z)
| MsgUploaded (n : Z)
| MsgSkipped (n : Z)
| MsgDeleted (n : Z)
| MsgPullingLogs
| MsgUsingRevision (r : Z)
| MsgLocalRevision (r : Z)
| MsgS3Revision (r : Z)
| MsgRunningDiff
| MsgFoundChanges (n : Z)
| MsgOutOfSync
| MsgOutOfSyncFile (name : string) (status : wc_status_kind)
| MsgUpdatingRevision (r : Z)
| MsgFinished (code : Z)
| MsgConnecting
| MsgCreatingConfig (key bkt : string)
| MsgStoredRevision (r : Z).

(** A local file: its bytes and its modification time. *)
Record localfile := {
  filedata : string;
  st_mtime : Z;
}.

(** What the code reads from outside and never changes.  Instants
    ([now], [st_mtime], [last_modified]) are integers on one scale,
    microseconds since the epoch; the store dates what it receives to the
    second, see [http_date].  [write_fault] says which exception, if
    any, the store answers to a write made under a key inside the [try]
    block of [upload_s3]; all other calls are answered. *)
Record env := {
  guess_type : string -> option string;
  compress_string : string -> string;
  formatdate : Z -> string;
  ctime : Z -> string;
  now : Z;
  fs : gmap string localfile;
  write_fault : string -> option exn;
}.

(** [S3UploadWorker]: the attributes set by [__init__].  The [prefix]
    argument is accepted by [__init__] and not stored. *)
Record S3UploadWorker := {
  num : Z;
  aws_bucket : string;
  aws_access_key_id : string;
  aws_secret_key : string;
  verbosity : Z;
  do_gzip : bool;
  do_expires : bool;
  do_force : bool;
  dry_run : bool;
  upload_count : Z;
  skip_count : Z;
  delete_count : Z;
}.

(** A [multiprocessing.Process]: the worker it runs, and its exit code once
    it has terminated. *)
Record process := {
  target : S3UploadWorker;
  exitcode : option Z;
}.

(** Everything the code can change: S3, the global queue, the record of
    calls, standard output, and the processes started by [handle]. *)
Record world := {
  s3 : s3_store;
  queue : list S3File;
  calls : list store_call;
  stdout : list msg;
  processes : list process;
}.

(** A worker process at work: [self] and the world it shares. *)
Record proc := {
  self : S3UploadWorker;
  wld : world;
}.

(** ** Updating the records *)

Definition set_s3 (f : s3_store -> s3_store) (w : world) : world :=
  {| s3 := f (s3 w); queue := queue w; calls := calls w;
     stdout := stdout w; processes := processes w |}.

Definition set_queue (q : list S3File) (w : world) : world :=
  {| s3 := s3 w; queue := q; calls := calls w;
     stdout := stdout w; processes := processes w |}.

Definition add_call (c : store_call) (w : world) : world :=
  {| s3 := s3 w; queue := queue w; calls := calls w ++ [c];
     stdout := stdout w; processes := processes w |}.

Definition add_msg (m : msg) (w : world) : world :=
  {| s3 := s3 w; queue := queue w; calls := calls w;
     stdout := stdout w ++ [m]; processes := processes w |}.

Definition set_processes (ps : list process) (w : world) : world :=
  {| s3 := s3 w; queue := queue w; calls := calls w;
     stdout := stdout w; processes := ps |}.

Definition set_counts (u s d : Z) (k : S3UploadWorker) : S3UploadWorker :=
  {| num := num k; aws_bucket := aws_bucket k;
     aws_access_key_id := aws_access_key_id k;
     aws_secret_key := aws_secret_key k; verbosity := verbosity k;
     do_gzip := do_gzip k; do_expires := do_expires k;
     do_force := do_force k; dry_run := dry_run k;
     upload_count := u; skip_count := s; delete_count := d |}.

Definition incr_upload_count (k : S3UploadWorker) : S3UploadWorker :=
  set_counts (upload_count k + 1) (skip_count k) (delete_count k) k.

Definition incr_skip_count (k : S3UploadWorker) : S3UploadWorker :=
  set_counts (upload_count k) (skip_count k + 1) (delete_count k) k.

Definition incr_delete_count (k : S3UploadWorker) : S3UploadWorker :=
  set_counts (upload_count k) (skip_count k) (delete_count k + 1) k.

Definition on_self (f : S3UploadWorker -> S3UploadWorker) (p : proc) : proc :=
  {| self := f (self p); wld := wld p |}.

Definition on_wld (f : world -> world) (p : proc) : proc :=
  {| self := self p; wld := f (wld p) |}.

(** A computation on the world, run by a worker. *)
Definition in_world {A} (m : M world A) : M proc A :=
  fun p => let '(r, w) := m (wld p) in (r, {| self := self p; wld := w |}).

(** ** boto, as far as the two modules use it *)

Definition print (m : msg) : M world unit := modify (add_msg m).

Definition bucket_of (b : string) (s : s3_store) : bucket :=
  default ∅ (s !! b).
Arguments bucket_of : simpl never.

(** [conn.get_bucket(name)], and [conn.create_bucket(name)] when that raises
    [S3ResponseError] because there is no such bucket. *)
Definition get_or_create_bucket (name : string) : M world unit :=
  modify (add_call (GetBucket name));;
  s ← gets s3;
  match s !! name with
  | Some _ => mret tt
  | None =>
      modify (add_call (CreateBucket name));;
      modify (set_s3 (insert name (∅ : bucket)))
  end.

(** [bucket.get_key(key)]: the key's object, or [None]. *)
Definition get_key (b key : string) : M world (option s3object) :=
  modify (add_call (GetKey b key));;
  s ← gets s3;
  mret (bucket_of b s !! key).

(** [bucket.delete_key(key)]; deleting an absent key is not an error. *)
Definition delete_key (b key : string) : M world unit :=
  modify (add_call (DeleteKey b key));;
  modify (set_s3 (fun s => <[b := delete key (bucket_of b s)]> s)).

(** The date that the store gives to what it receives at the instant [t]:
    [key.last_modified] is an HTTP date, which [upload_s3] reads with the
    format ["%a, %d %b %Y %H:%M:%S %Z"], and has no fraction of a second. *)
Definition http_date (t : Z) : Z := t / 1000000 * 1000000.
Arguments http_date : simpl never.

(** [key.name = name; key.set_contents_from_string(content, headers)]: the
    object is replaced, private again, and dated by the store, to the
    second. *)
Definition set_contents_from_string (E : env) (b name : string)
    (content : body) (headers : gmap string string) : M world unit :=
  modify (add_call (SetContents b name content headers));;
  modify (set_s3 (fun s =>
    <[b := <[name := {| obj_body := content; obj_headers := headers;
                        obj_public := false;
                        last_modified := http_date (now E) |}]>
             (bucket_of b s)]> s)).

Definition publish (o : s3object) : s3object :=
  {| obj_body := obj_body o; obj_headers := obj_headers o;
     obj_public := true; last_modified := last_modified o |}.

(** [key.make_public()] *)
Definition make_public (b name : string) : M world unit :=
  modify (add_call (MakePublic b name));;
  modify (set_s3 (fun s => <[b := alter publish name (bucket_of b s)]> s)).

(** A write made inside the [try] block of [upload_s3]: the call is made,
    and the store answers with the exception the environment holds for this
    key, if any, before anything is stored. *)
Definition guarded_write (E : env) (b name : string)
    (content : body) (headers : gmap string string) : M world unit :=
  match write_fault E name with
  | Some e => modify (add_call (SetContents b name content headers));; raise e
  | None => set_contents_from_string E b name content headers
  end.

(** ** The local file system *)

(** [os.stat(filename).st_mtime] *)
Definition os_stat_mtime {S} (E : env) (name : string) : M S Z :=
  match fs E !! name with
  | Some f => mret (st_mtime f)
  | None => raise OSError
  end.

(** [open(filename, 'rb')] and [file_obj.read()] *)
Definition open_read {S} (E : env) (name : string) : M S string :=
  match fs E !! name with
  | Some f => mret (filedata f)
  | None => raise IOError
  end.

(** ** [S3UploadWorker] *)

Definition GZIP_CONTENT_TYPES : list string :=
  ["text/css"; "application/javascript"; "application/x-javascript"].

(** [content_type in self.GZIP_CONTENT_TYPES] *)
Definition in_gzip_content_types (content_type : option string) : bool :=
  match content_type with
  | Some ct => existsb (String.eqb ct) GZIP_CONTENT_TYPES
  | None => false
  end.

(** Two years, [datetime.timedelta(days=365*2)], in microseconds. *)
Definition two_years : Z := 365 * 2 * 86400 * 1000000.

(** [S3UploadWorker.__init__]: the S3 connection is opened and the bucket
    fetched, or created, whatever [dry_run] says. *)
Definition worker_init (n : Z) (bkt key_id secret : string) (verb : Z)
    (gzip expires force dry : bool) : M world S3UploadWorker :=
  when (1 <? verb) (print (MsgWorkerInit n));;
  get_or_create_bucket bkt;;
  when (0 <? verb) (print (MsgConnected n));;
  mret {| num := n; aws_bucket := bkt; aws_access_key_id := key_id;
          aws_secret_key := secret; verbosity := verb; do_gzip := gzip;
          do_expires := expires; do_force := force; dry_run := dry;
          upload_count := 0; skip_count := 0; delete_count := 0 |}.

(** [S3UploadWorker.delete_s3] *)
Definition delete_s3 (s3_file : S3File) : M proc unit :=
  k ← gets self;
  when (0 <? verbosity k)
    (in_world (print (MsgDeleting (file_key s3_file) (num k))));;
  (if negb (dry_run k) then
     in_world (delete_key (aws_bucket k) (file_key s3_file));;
     let gz_file_key := gz_key (file_key s3_file) in
     gz ← in_world (get_key (aws_bucket k) gz_file_key);
     match gz with
     | Some _ =>
         when (0 <? verbosity k)
           (in_world (print (MsgDeletingGzip gz_file_key (num k))));;
         in_world (delete_key (aws_bucket k) gz_file_key)
     | None => mret tt
     end
   else mret tt);;
  modify (on_self incr_delete_count).

(** The check made when [do_force] is off: [true] when the file is to be
    skipped, which is where [upload_s3] returns early. *)
Definition check_unchanged (E : env) (s3_file : S3File) : M proc bool :=
  k ← gets self;
  if negb (do_force k) then
    s3_key ← in_world (get_key (aws_bucket k) (file_key s3_file));
    match s3_key with
    | Some o =>
        let s3_datetime := last_modified o in
        local_datetime ← os_stat_mtime E (filename s3_file);
        if local_datetime <? s3_datetime then
          modify (on_self incr_skip_count);;
          when (1 <? verbosity k)
            (in_world (print (MsgNotChanged (file_key s3_file))));;
          mret true
        else mret false
    | None => mret false
    end
  else mret false.

(** Line 226: [headers['Content-Encoding'] = 'gzip']. *)
Definition gzip_headers (headers : gmap string string) : gmap string string :=
  <["Content-Encoding" := "gzip"]> headers.
Arguments gzip_headers : simpl never.

(** The body of the [try] block of [upload_s3]. *)
Definition write_step (E : env) (k : S3UploadWorker) (key : string)
    (data : string) (file_size : Z) (content_type : option string)
    (headers : gmap string string) : M proc unit :=
  (if negb (dry_run k) then
     in_world (guarded_write E (aws_bucket k) key (FileBody data) headers);;
     in_world (make_public (aws_bucket k) key)
   else mret tt);;
  if do_gzip k && negb (dry_run k) then
    if (1024 <? file_size) && in_gzip_content_types content_type then
      let headers' := gzip_headers headers in
      let gzip_filedata := compress_string E data in
      let gz_file_key := gz_key key in
      in_world (guarded_write E (aws_bucket k) gz_file_key
                  (FileBody gzip_filedata) headers');;
      in_world (make_public (aws_bucket k) gz_file_key);;
      when (1 <? verbosity k)
        (in_world (print (MsgGzipped (file_size / 1024)
           (Z.of_nat (String.length gzip_filedata) / 1024))))
    else if (0 <? verbosity k) && (file_size <? 1024)
            && in_gzip_content_types content_type
    then in_world (print (MsgSkippingGzip key))
    else mret tt
  else mret tt.

(** Lines 177-181 of [upload_s3]: the headers, with the content type when
    [mimetypes] guesses one. *)
Definition content_headers (content_type : option string)
  : gmap string string :=
  match content_type with
  | Some ct => if PyStr.truthy ct then {["Content-Type" := ct]} else ∅
  | None => ∅
  end.

Arguments content_headers : simpl never.

(** Lines 204-211: the two headers that [do_expires] adds. *)
Definition expires_value (E : env) : string :=
  formatdate E (now E + two_years) +:+ " GMT".

Definition cache_control_value : string := "max-age 63072000".

Definition expires_headers (E : env) (headers : gmap string string)
  : gmap string string :=
  <["Cache-Control" := cache_control_value]>
    (<["Expires" := expires_value E]> headers).

Arguments expires_headers : simpl never.

(** Lines 197-248 of [upload_s3]: what happens to a file that is not
    skipped. *)
Definition send_file (E : env) (s3_file : S3File) : M proc unit :=
  let key := file_key s3_file in
  let content_type := guess_type E (filename s3_file) in
  let headers := content_headers content_type in
  k ← gets self;
  when (0 <? verbosity k) (in_world (print (MsgUploading key (num k))));;
  data ← open_read E (filename s3_file);
  let file_size := Z.of_nat (String.length data) in
  headers ← (if do_expires k then
               when (1 <? verbosity k)
                 (in_world (print (MsgExpires (expires_value E)));;
                  in_world (print (MsgCacheControl cache_control_value)));;
               mret (expires_headers E headers)
             else mret headers);
  r ← attempt (write_step E k key data file_size content_type headers);
  match r with
  | Ok _ => modify (on_self incr_upload_count)
  | Raise e =>
      if is_S3CreateError e then in_world (print (MsgFailed e))
      else in_world (print (MsgException e));; raise e
  end.

(** [S3UploadWorker.upload_s3] *)
Definition upload_s3 (E : env) (s3_file : S3File) : M proc unit :=
  unchanged ← check_unchanged E s3_file;
  if (unchanged : bool) then mret tt else send_file E s3_file.

(** One turn of the [while True] loop of [run]: [false] is [break]. *)
Definition run_iteration (E : env) : M proc bool :=
  q ← gets (fun p => queue (wld p));
  match q with
  | [] => mret false
  | s3_file :: rest =>
      modify (on_wld (set_queue rest));;
      (if do_delete s3_file then delete_s3 s3_file
       else upload_s3 E s3_file);;
      mret true
  end.

(** The loop, for at most [n] turns. *)
Fixpoint run_loop (E : env) (n : nat) : M proc unit :=
  match n with
  | O => mret tt
  | S n' =>
      continue ← run_iteration E;
      if (continue : bool) then run_loop E n' else mret tt
  end.

(** What [run] prints after the loop. *)
Definition run_report : M proc unit :=
  k ← gets self;
  when (0 <? verbosity k) (in_world (print (MsgFinishedProcessing (num k))));;
  when (1 <? verbosity k)
    (when (negb (upload_count k =? 0))
       (in_world (print (MsgUploaded (upload_count k))));;
     when (negb (skip_count k =? 0))
       (in_world (print (MsgSkipped (skip_count k))));;
     when (negb (delete_count k =? 0))
       (in_world (print (MsgDeleted (delete_count k))))).

(** [S3UploadWorker.run], for a worker that has the queue to itself: every
    turn takes one file off the queue, so one turn more than the queue is
    long reaches the [break]. *)
Definition run (E : env) : M proc unit :=
  q ← gets (fun p => queue (wld p));
  run_loop E (S (length q));;
  run_report.

(** ** The worker processes

    [handle] starts one process per worker; they take files off the one
    queue in an order that the operating system decides.  A schedule lists
    which process makes the next turn of its loop, or is killed by a signal;
    the processes still alive when the schedule ends run to completion one
    after the other.  A process whose [run] returns exits with code 0, one
    whose [run] raises exits with code 1, and one killed by signal [s] has
    exit code [-s]. *)

Inductive sched_event :=
| Step (i : nat)
| Kill (i : nat) (signal : positive).

Definition exited (k : S3UploadWorker) (code : Z) : process :=
  {| target := k; exitcode := Some code |}.

Definition step_process (E : env) (p : process) (w : world)
  : process * world :=
  match exitcode p with
  | Some _ => (p, w)
  | None =>
      match run_iteration E {| self := target p; wld := w |} with
      | (Ok true, st) => ({| target := self st; exitcode := None |}, wld st)
      | (Ok false, st) =>
          let '(_, st') := run_report st in (exited (self st') 0, wld st')
      | (Raise _, st) => (exited (self st) 1, wld st)
      end
  end.

Definition kill_process (signal : positive) (p : process) : process :=
  match exitcode p with
  | Some _ => p
  | None => exited (target p) (Z.neg signal)
  end.

Definition finish_process (E : env) (p : process) (w : world)
  : process * world :=
  match exitcode p with
  | Some _ => (p, w)
  | None =>
      match run E {| self := target p; wld := w |} with
      | (Ok _, st) => (exited (self st) 0, wld st)
      | (Raise _, st) => (exited (self st) 1, wld st)
      end
  end.

Definition pool_event (E : env) (ev : sched_event)
    (st : list process * world) : list process * world :=
  let '(ps, w) := st in
  match ev with
  | Step i =>
      match ps !! i with
      | Some p => let '(p', w') := step_process E p w in (<[i := p']> ps, w')
      | None => (ps, w)
      end
  | Kill i signal =>
      match ps !! i with
      | Some p => (<[i := kill_process signal p]> ps, w)
      | None => (ps, w)
      end
  end.

Fixpoint join_all (E : env) (ps : list process) (w : world)
  : list process * world :=
  match ps with
  | [] => ([], w)
  | p :: ps' =>
      let '(p', w') := finish_process E p w in
      let '(ps'', w'') := join_all E ps' w' in
      (p' :: ps'', w'')
  end.

Definition run_pool (E : env) (schedule : list sched_event)
    (ps : list process) (w : world) : list process * world :=
  let '(ps', w') := fold_left (fun st ev => pool_event E ev st) schedule (ps, w) in
  join_all E ps' w'.

(** ** The svn-sync command *)

(** [django.conf.settings]: [None] is a setting that [hasattr] does not
    find. *)
Record settings := {
  AWS_ACCESS_KEY_ID : option string;
  AWS_SECRET_ACCESS_KEY : option string;
  AWS_BUCKET_NAME : option string;
  MEDIA_ROOT : option string;
}.

(** The command-line options that [handle] reads. *)
Record options := {
  opt_processes : Z;
  opt_dryrun : bool;
  opt_verbose : bool;
  opt_debug : bool;
  opt_ignore_url : bool;
  opt_gzip : bool;
  opt_expires : bool;
}.

(** [pysvn.Client] on [MEDIA_ROOT]: the revision numbers of [client.log], in
    the order the call returns them; the fields of [client.info];
    [client.diff_summarize] between two revision numbers; and the
    [text_status] of every entry that [client.status] returns for a path. *)
Record svn_client := {
  svn_log : list Z;
  info_url : string;
  info_uuid : string;
  info_revision : Z;
  diff_summarize : Z -> Z -> list diff_summary;
  svn_status : string -> list wc_status_kind;
}.

(** The attributes that [handle] sets on the command. *)
Record Command := {
  dryrun : bool;
  cmd_verbosity : Z;
  ignore_svn_url : bool;
}.

Definition set_revision (n : Z) (r : s3_revision) : s3_revision :=
  {| url := url r; revision := n; last_update := last_update r;
     uuid := uuid r; initial_revision := initial_revision r |}.

Definition set_initial_revision (n : Z) (r : s3_revision) : s3_revision :=
  {| url := url r; revision := revision r; last_update := last_update r;
     uuid := uuid r; initial_revision := Some n |}.

Definition set_url (u : string) (r : s3_revision) : s3_revision :=
  {| url := u; revision := revision r; last_update := last_update r;
     uuid := uuid r; initial_revision := initial_revision r |}.

Definition set_uuid (u : string) (r : s3_revision) : s3_revision :=
  {| url := url r; revision := revision r; last_update := last_update r;
     uuid := Some u; initial_revision := initial_revision r |}.

Definition set_last_update (t : string) (r : s3_revision) : s3_revision :=
  {| url := url r; revision := revision r; last_update := Some t;
     uuid := uuid r; initial_revision := initial_revision r |}.

(** ['.'.join([settings.AWS_BUCKET_NAME, 'svn'])] *)
Definition svn_bucket_name (name : string) : string := name +:+ "." +:+ "svn".

(** [Command.get_s3_svn_bucket] *)
Definition get_s3_svn_bucket (cmd : Command) (name : string) : M world string :=
  when (1 <? cmd_verbosity cmd) (print MsgConnecting);;
  get_or_create_bucket (svn_bucket_name name);;
  mret (svn_bucket_name name).

(** [Command.set_s3_revision] *)
Definition set_s3_revision (E : env) (cmd : Command) (name : string)
    (s3_rev : s3_revision) (bucket_instance : option string) : M world unit :=
  svn_bucket ← match bucket_instance with
               | Some b => mret b
               | None => get_s3_svn_bucket cmd name
               end;
  svn_key ← get_key svn_bucket SVN_REVISION_CONF;
  match svn_key with
  | None =>
      when (0 <? cmd_verbosity cmd)
        (print (MsgCreatingConfig SVN_REVISION_CONF svn_bucket))
  | Some _ => mret tt
  end;;
  (if negb (dryrun cmd) then
     set_contents_from_string E svn_bucket SVN_REVISION_CONF
       (YamlBody s3_rev) ∅
   else mret tt);;
  when (1 <? cmd_verbosity cmd) (print (MsgStoredRevision (revision s3_rev))).

Definition default_s3_revision : s3_revision :=
  {| url := ""; revision := INITIAL_REVISION; last_update := None;
     uuid := None; initial_revision := None |}.

(** [Command.get_s3_svn_revision].  A stored document carries every key, so
    [s3_revision.update] of the defaults with it gives the document. *)
Definition get_s3_svn_revision (E : env) (cmd : Command) (name : string)
  : M world s3_revision :=
  svn_bucket ← get_s3_svn_bucket cmd name;
  svn_key ← get_key svn_bucket SVN_REVISION_CONF;
  match svn_key with
  | None =>
      set_s3_revision E cmd name default_s3_revision (Some svn_bucket);;
      mret default_s3_revision
  | Some o =>
      modify (add_call (ReadKey svn_bucket SVN_REVISION_CONF));;
      match obj_body o with
      | YamlBody doc => mret doc
      | FileBody _ => raise TypeError
      end
  end.

(** Lines 153-163 of [handle]: the first upload starts from the revision of
    the last entry of the log. *)
Definition first_upload_revision (C : svn_client) (cmd : Command)
    (s3_svn_revision : s3_revision) : M world s3_revision :=
  if revision s3_svn_revision =? INITIAL_REVISION then
    when (0 <? cmd_verbosity cmd) (print MsgPullingLogs);;
    let history := svn_log C in
    match last history with
    | None => raise IndexError
    | Some first_entry =>
        let r := set_initial_revision first_entry
                   (set_revision first_entry s3_svn_revision) in
        when (0 <? cmd_verbosity cmd) (print (MsgUsingRevision (revision r)));;
        mret r
    end
  else mret s3_svn_revision.

(** Lines 166-177 of [handle]: the stored url against the local one. *)
Definition check_repository (C : svn_client) (cmd : Command)
    (s3_svn_revision : s3_revision) : M world s3_revision :=
  (if PyStr.truthy (url s3_svn_revision)
      && negb (String.eqb (url s3_svn_revision) (info_url C))
      && negb (ignore_svn_url cmd)
   then raise (CommandError "The S3 repo does not match the local repo")
   else mret tt);;
  let r := if negb (ignore_svn_url cmd)
           then set_url (info_url C) s3_svn_revision
           else s3_svn_revision in
  mret (set_uuid (info_uuid C) r).

Definition is_file_or_dir (k : node_kind) : bool :=
  match k with nk_file | nk_dir => true | _ => false end.

Definition is_dir (k : node_kind) : bool :=
  match k with nk_dir => true | _ => false end.

Definition is_normal_change (k : diff_summarize_kind) : bool :=
  match k with ds_normal => true | _ => false end.

Definition is_delete_change (k : diff_summarize_kind) : bool :=
  match k with ds_delete => true | _ => false end.

(** The body of the loop over [changes]: the [S3File] appended for one
    change, if any. *)
Definition changed_file (bkt root : string) (change : diff_summary)
  : option S3File :=
  if is_file_or_dir (change_node_kind change)
     && negb (is_normal_change (summarize_kind change))
  then
    if is_dir (change_node_kind change)
       && negb (is_delete_change (summarize_kind change))
    then None
    else Some {| bucket_name := bkt; file_key := path change;
                 filename := PyStr.path_join root (path change);
                 delete_flag := is_delete_change (summarize_kind change) |}
  else None.

Definition changed_files_of (bkt root : string) (changes : list diff_summary)
  : list S3File :=
  omap (changed_file bkt root) changes.

Definition is_normal_status (s : wc_status_kind) : bool :=
  match s with st_normal => true | _ => false end.

(** The body of the loop over [changed_files]: the pair appended to
    [outofsync_files], if any. *)
Definition outofsync_file (C : svn_client) (file : S3File)
  : option (S3File * wc_status_kind) :=
  match svn_status C (filename file) with
  | file_status :: _ =>
      if is_normal_status file_status then None else Some (file, file_status)
  | [] => None
  end.

Definition outofsync_files_of (C : svn_client) (changed_files : list S3File)
  : list (S3File * wc_status_kind) :=
  omap (outofsync_file C) changed_files.

Fixpoint print_outofsync (l : list (S3File * wc_status_kind)) : M world unit :=
  match l with
  | [] => mret tt
  | (file, file_status) :: l' =>
      print (MsgOutOfSyncFile (filename file) file_status);;
      print_outofsync l'
  end.

(** [S3UploadWorker(num, *process_args)] for every [num]: the eighth of the
    positional arguments, [do_force], is the constant [True]. *)
Fixpoint make_workers (nums : list Z) (bkt key_id secret : string) (verb : Z)
    (gzip expires dry : bool) : M world (list S3UploadWorker) :=
  match nums with
  | [] => mret []
  | n :: nums' =>
      k ← worker_init n bkt key_id secret verb gzip expires true dry;
      ks ← make_workers nums' bkt key_id secret verb gzip expires dry;
      mret (k :: ks)
  end.

Definition started (k : S3UploadWorker) : process :=
  {| target := k; exitcode := None |}.

(** [sum([abs(worker.exitcode) for worker in processes])] *)
Definition process_result_of (codes : list Z) : Z :=
  foldr (fun c acc => Z.abs c + acc) 0 codes.

(** Lines 259-281 of [handle]: what follows once no worker is alive. *)
Definition finish (E : env) (C : svn_client) (cmd : Command) (bkt : string)
    (s3_svn_revision : s3_revision) : M world unit :=
  ps ← gets processes;
  match mapM exitcode ps with
  | None => raise TypeError
  | Some codes =>
      let process_result := process_result_of codes in
      if process_result =? 0 then
        when (0 <? cmd_verbosity cmd)
          (print (MsgUpdatingRevision (info_revision C)));;
        let r := set_last_update (ctime E (now E))
                   (set_revision (info_revision C) s3_svn_revision) in
        set_s3_revision E cmd bkt r None;;
        when (0 <? cmd_verbosity cmd) (print (MsgFinished process_result))
      else raise (SystemExit process_result)
  end.

(** Lines 129-142 of [handle]: the attributes set from the options. *)
Definition command_of (O : options) : Command :=
  {| dryrun := opt_dryrun O;
     cmd_verbosity := if opt_debug O then 2
                      else if opt_verbose O then 1 else 0;
     ignore_svn_url := opt_ignore_url O |}.

(** Lines 151-210 of [handle]: the checkpoint, the revision to start from,
    and the files changed since. *)
Definition resolve (E : env) (C : svn_client) (cmd : Command)
    (bkt root : string) : M world (s3_revision * list S3File) :=
  s3_svn_revision ← get_s3_svn_revision E cmd bkt;
  s3_svn_revision ← first_upload_revision C cmd s3_svn_revision;
  s3_svn_revision ← check_repository C cmd s3_svn_revision;
  when (0 <? cmd_verbosity cmd)
    (print (MsgLocalRevision (info_revision C));;
     print (MsgS3Revision (revision s3_svn_revision));;
     print MsgRunningDiff);;
  let changes :=
    diff_summarize C (revision s3_svn_revision) (info_revision C) in
  let changed_files := changed_files_of bkt root changes in
  when (0 <? cmd_verbosity cmd)
    (print (MsgFoundChanges (Z.of_nat (length changed_files))));;
  mret (s3_svn_revision, changed_files).

(** Lines 215-233 of [handle]: the two exits before anything is queued. *)
Definition check_in_sync (C : svn_client) (changed_files : list S3File)
  : M world unit :=
  match outofsync_files_of C changed_files with
  | (_ :: _) as outofsync_files =>
      print MsgOutOfSync;;
      print_outofsync outofsync_files;;
      raise (SystemExit 1)
  | [] =>
      match changed_files with
      | [] => raise (SystemExit 0)
      | _ :: _ => mret tt
      end
  end.

(** Lines 236-263 of [handle]: the queue is loaded, the workers are built
    and started, and [handle] waits until none is alive. *)
Definition dispatch (E : env) (O : options) (cmd : Command)
    (schedule : list sched_event) (bkt key_id secret : string)
    (changed_files : list S3File) : M world unit :=
  let processes_count := if opt_processes O <? 1 then 1 else opt_processes O in
  modify (fun w => set_queue (queue w ++ changed_files) w);;
  workers ← make_workers (seqZ 0 processes_count) bkt key_id secret
              (cmd_verbosity cmd) (opt_gzip O) (opt_expires O) (dryrun cmd);
  modify (fun w =>
    let '(ps, w') := run_pool E schedule (started <$> workers) w in
    set_processes ps w').

(** Lines 129-281 of [handle], after the settings were found. *)
Definition sync (E : env) (O : options) (C : svn_client)
    (schedule : list sched_event) (bkt key_id secret root : string)
  : M world unit :=
  let cmd := command_of O in
  '(s3_svn_revision, changed_files) ← resolve E C cmd bkt root;
  check_in_sync C changed_files;;
  dispatch E O cmd schedule bkt key_id secret changed_files;;
  finish E C cmd bkt s3_svn_revision.

(** [Command.handle] *)
Definition handle (E : env) (S : settings) (O : options) (C : svn_client)
    (schedule : list sched_event) : M world unit :=
  match AWS_ACCESS_KEY_ID S, AWS_SECRET_ACCESS_KEY S with
  | Some key_id, Some secret =>
      match AWS_BUCKET_NAME S with
      | Some bkt =>
          if PyStr.truthy bkt then
            match MEDIA_ROOT S with
            | Some root =>
                if PyStr.truthy root
                then sync E O C schedule bkt key_id secret root
                else raise (CommandError "MEDIA_ROOT must be set in your settings.")
            | None =>
                raise (CommandError "MEDIA_ROOT must be set in your settings.")
            end
          else raise (CommandError "AWS_BUCKET_NAME must be set in your settings.")
      | None =>
          raise (CommandError "AWS_BUCKET_NAME must be set in your settings.")
      end
  | _, _ => raise (CommandError "Missing AWS keys from settings file.")
  end.

(** ** [S3File.__str__] *)

(** ['<S3File%s %s => %s>' % (delete_str, self.file_key, self.filename)],
    where [delete_str] is [self.delete and 'Delete' or '']. *)
Definition S3File_str (f : S3File) : string :=
  let delete_str := if delete_flag f then "Delete" else "" in
  "<S3File" +:+ delete_str +:+ " " +:+ file_key f +:+ " => "
    +:+ filename f +:+ ">".

(** ** The local directory tree

    What [os.walk] reads of a directory: the names that [os.listdir]
    returns, those that are not directories and those that are, each list in
    the order of [listdir].  A directory that [listdir] cannot read is not
    [readable]; an entry among the directories may be a symbolic link to
    one. *)

Inductive dir :=
| Dir (readable : bool) (nondirs : list string) (subdirs : list subdir)
with subdir :=
| Subdir (name : string) (islink : bool) (content : dir).

Definition subdir_name (e : subdir) : string :=
  match e with Subdir name _ _ => name end.

(** [os.walk(top)] of Python 2.6 with its default arguments: top-down, no
    [onerror], links not followed.  A directory that cannot be listed yields
    nothing; a link is named among the directories and not walked. *)
Fixpoint walk (top : string) (d : dir)
  : list (string * list string * list string) :=
  match d with
  | Dir readable nondirs subdirs =>
      if readable then
        (top, subdir_name <$> subdirs, nondirs) ::
        flat_map (fun e =>
                    match e with
                    | Subdir name islink sub =>
                        if islink then []
                        else walk (PyStr.path_join top name) sub
                    end) subdirs
      else []
  end.

(** [pat] occurs in [s]: what [re.search] answers for a pattern without
    operators. *)
Fixpoint contains_chars (s pat : list ascii) : bool :=
  PyStr.startswith_chars s pat
  || match s with
     | [] => false
     | _ :: s' => contains_chars s' pat
     end.

(** [len(s)] and [s[n:]] *)
Definition len (s : string) : nat := length (PyStr.chars s).

Definition slice_from (s : string) (n : nat) : string :=
  PyStr.str (drop n (PyStr.chars s)).

(** ** The push command: [management/commands/s3-push.py] *)

Module Push.

Definition FILTER_LIST : list string :=
  [".DS_Store"; ".svn"; ".project"; ".pydevproject"].

(** The command-line options that [handle] reads. *)
Record options := {
  opt_prefix : string;
  opt_processes : Z;
  opt_dryrun : bool;
  opt_verbose : bool;
  opt_debug : bool;
  opt_gzip : bool;
  opt_expires : bool;
  opt_force : bool;
}.

(** [svn_re.search(root)] for [svn_re = re.compile(r'/\.svn/?')]: the
    optional slash matches the empty string, so the search succeeds exactly
    when [/.svn] occurs in [root]. *)
Definition svn_re_search (root : string) : bool :=
  contains_chars (PyStr.chars root) (PyStr.chars "/.svn").

(** [file_filter = lambda f: not f in self.FILTER_LIST] *)
Definition file_filter (f : string) : bool :=
  negb (existsb (String.eqb f) FILTER_LIST).

(** Lines 161-168: the [S3File] queued for [file] found in [root]. *)
Definition s3_file_of (bkt prefix media_root root file : string) : S3File :=
  let file_key := PyStr.path_join (slice_from root (len media_root)) file in
  let file_key := if PyStr.truthy prefix then prefix +:+ file_key
                  else file_key in
  {| bucket_name := bkt; file_key := file_key;
     filename := PyStr.path_join root file; delete_flag := false |}.

(** The body of the loop over [os.walk(media_root)], lines 154-169: the
    files queued for one directory. *)
Definition queued_of (bkt prefix media_root : string)
    (entry : string * list string * list string) : list S3File :=
  let '(root, _, files) := entry in
  match List.filter file_filter files with
  | [] => []
  | (_ :: _) as files =>
      if svn_re_search root then []
      else s3_file_of bkt prefix media_root root <$> files
  end.

(** Lines 149-151: [MEDIA_ROOT] with a slash at its end. *)
Definition with_slash (media_root : string) : string :=
  if PyStr.endswith media_root "/" then media_root else media_root +:+ "/".

(** Lines 171-173: [S3UploadWorker(num, *process_args)] for every [num]. *)
Fixpoint make_workers (nums : list Z) (bkt key_id secret : string) (verb : Z)
    (gzip expires force dry : bool) : M world (list S3UploadWorker) :=
  match nums with
  | [] => mret []
  | n :: nums' =>
      k ← worker_init n bkt key_id secret verb gzip expires force dry;
      ks ← make_workers nums' bkt key_id secret verb gzip expires force dry;
      mret (k :: ks)
  end.

(** Lines 122-177 of [handle], after the settings were found: the queue is
    loaded with the files under [MEDIA_ROOT], whose tree is [media], the
    workers are built and their processes started. *)
Definition push (O : options) (media : dir) (bkt key_id secret root : string)
  : M world unit :=
  let processes_count := if opt_processes O <? 1 then 1 else opt_processes O in
  let verb := if opt_debug O then 2 else if opt_verbose O then 1 else 0 in
  let media_root := with_slash root in
  modify (fun w =>
    set_queue (queue w ++
               flat_map (queued_of bkt (opt_prefix O) media_root)
                 (walk media_root media)) w);;
  process_workers ← make_workers (seqZ 0 processes_count) bkt key_id secret
                      verb (opt_gzip O) (opt_expires O) (opt_force O)
                      (opt_dryrun O);
  modify (set_processes (started <$> process_workers)).

(** [Command.handle] *)
Definition handle (S : settings) (O : options) (media : dir) : M world unit :=
  match AWS_ACCESS_KEY_ID S, AWS_SECRET_ACCESS_KEY S with
  | Some key_id, Some secret =>
      match AWS_BUCKET_NAME S with
      | Some bkt =>
          if PyStr.truthy bkt then
            match MEDIA_ROOT S with
            | Some root =>
                if PyStr.truthy root
                then push O media bkt key_id secret root
                else raise (CommandError "settings.MEDIA_ROOT must have a value")
            | None =>
                raise (CommandError "MEDIA_ROOT must be set in your settings.")
            end
          else raise (CommandError "AWS_BUCKET_NAME cannot be empty.")
      | None =>
          raise (CommandError
                   ("Missing bucket name from settings file. Please "
                    +:+ " add the AWS_BUCKET_NAME to your settings file."))
      end
  | _, _ =>
      raise (CommandError
               ("Missing AWS keys from settings file.  Please "
                +:+ "supply both AWS_ACCESS_KEY_ID and AWS_SECRET_ACCESS_KEY."))
  end.

(** [handle] does not wait for the processes it has started: they work
    through the queue while and after it returns, and the command is over
    when the last of them has terminated. *)
Definition run_command (E : env) (S : settings) (O : options) (media : dir)
    (schedule : list sched_event) : M world unit :=
  handle S O media;;
  modify (fun w =>
    let '(ps, w') := run_pool E schedule (processes w) w in
    set_processes ps w').

End Push.

(** ** A small installation, for the examples

    A media root with three files, a bucket, and a working copy at
    revision 40. *)

Module Demo.

Definition guess_type_by_ext (name : string) : option string :=
  let ext := snd (PyStr.splitext name) in
  if String.eqb ext ".css" then Some "text/css"
  else if String.eqb ext ".js" then Some "application/javascript"
  else if String.eqb ext ".png" then Some "image/png"
  else None.

Fixpoint bytes (n : nat) : string :=
  match n with
  | O => ""
  | S n' => String "x" (bytes n')
  end.

Definition files : gmap string localfile :=
  list_to_map
    [("/media/a.css", {| filedata := bytes 1025; st_mtime := 500 |});
     ("/media/b.js", {| filedata := bytes 1024; st_mtime := 500 |});
     ("/media/img/c.png", {| filedata := bytes 3000; st_mtime := 500 |})].

Definition no_fault : string -> option exn := fun _ => None.

Definition fault_at (key : string) (e : exn) : string -> option exn :=
  fun k => if String.eqb k key then Some e else None.

Definition E (faults : string -> option exn) : env :=
  {| guess_type := guess_type_by_ext;
     compress_string := fun _ => "gzipped";
     formatdate := fun _ => "Sat, 01 Jan 2028 00:00:00";
     ctime := fun _ => "Thu Jan  1 00:00:00 2026";
     now := 1000;
     fs := files;
     write_fault := faults |}.

Definition worker (force dry gzip : bool) : S3UploadWorker :=
  {| num := 0; aws_bucket := "media"; aws_access_key_id := "id";
     aws_secret_key := "secret"; verbosity := 2; do_gzip := gzip;
     do_expires := false; do_force := force; dry_run := dry;
     upload_count := 0; skip_count := 0; delete_count := 0 |}.

Definition upload (key : string) : S3File :=
  {| bucket_name := "media"; file_key := key;
     filename := PyStr.path_join "/media" key; delete_flag := false |}.

Definition remove (key : string) : S3File :=
  {| bucket_name := "media"; file_key := key;
     filename := PyStr.path_join "/media" key; delete_flag := true |}.

Definition stored (data : string) (t : Z) : s3object :=
  {| obj_body := FileBody data; obj_headers := ∅; obj_public := true;
     last_modified := t |}.

Definition world_with (objects : list (string * s3object))
    (q : list S3File) : world :=
  {| s3 := {[ "media" := list_to_map objects ]}; queue := q; calls := [];
     stdout := []; processes := [] |}.

Definition at_work (k : S3UploadWorker) (w : world) : proc :=
  {| self := k; wld := w |}.

Definition conf : settings :=
  {| AWS_ACCESS_KEY_ID := Some "id"; AWS_SECRET_ACCESS_KEY := Some "secret";
     AWS_BUCKET_NAME := Some "media"; MEDIA_ROOT := Some "/media" |}.

Definition opts (dry : bool) (n : Z) : options :=
  {| opt_processes := n; opt_dryrun := dry; opt_verbose := true;
     opt_debug := false; opt_ignore_url := false; opt_gzip := true;
     opt_expires := false |}.

Definition added (p : string) : diff_summary :=
  {| path := p; summarize_kind := ds_added; change_node_kind := nk_file |}.

Definition modified (p : string) : diff_summary :=
  {| path := p; summarize_kind := ds_modified; change_node_kind := nk_file |}.

Definition deleted (p : string) : diff_summary :=
  {| path := p; summarize_kind := ds_delete; change_node_kind := nk_file |}.

(** The working copy: revisions 3 to 40 in the log, and the changes since
    revision 37 or since the first one. *)
Definition svn (status : string -> list wc_status_kind) : svn_client :=
  {| svn_log := [40; 37; 12; 3];
     info_url := "file:///svn/media"; info_uuid := "uuid-1";
     info_revision := 40;
     diff_summarize := fun r1 r2 =>
       if r1 =? 37 then [added "a.css"; modified "b.js"; deleted "old/c.png"]
       else if r1 =? 3 then [added "a.css"; added "b.js"; added "img/c.png"]
       else [];
     svn_status := status |}.

Definition clean : string -> list wc_status_kind := fun _ => [st_normal].

Definition edited (name : string) : string -> list wc_status_kind :=
  fun f => if String.eqb f name then [st_modified] else [st_normal].

Definition checkpoint (r : Z) : s3object :=
  {| obj_body := YamlBody {| url := "file:///svn/media"; revision := r;
                             last_update := None; uuid := Some "uuid-1";
                             initial_revision := None |};
     obj_headers := ∅; obj_public := false; last_modified := 10 |}.

(** S3 with the media bucket and a checkpoint at revision [r]. *)
Definition synced_at (r : Z) : world :=
  {| s3 := {[ "media" := ∅;
              "media.svn" := {[ SVN_REVISION_CONF := checkpoint r ]} ]};
     queue := []; calls := []; stdout := []; processes := [] |}.

(** S3 before the first run: no bucket at all. *)
Definition fresh : world :=
  {| s3 := ∅; queue := []; calls := []; stdout := []; processes := [] |}.

End Demo.

(** ** A media root, for the examples of the push command *)

Module DemoPush.

(** [/media]: three files to push, a file of an editor, the directory of
    Subversion, and a link to a directory elsewhere. *)
Definition media : dir :=
  Dir true ["a.css"; ".DS_Store"; "b.js"]
    [Subdir ".svn" false (Dir true ["entries"] []);
     Subdir "img" false
       (Dir true ["c.png"]
          [Subdir ".svn" false (Dir true ["entries"] [])]);
     Subdir "shared" true (Dir true ["d.css"] [])].

Definition opts (force dry : bool) (n : Z) : Push.options :=
  {| Push.opt_prefix := "static/"; Push.opt_processes := n;
     Push.opt_dryrun := dry; Push.opt_verbose := true;
     Push.opt_debug := false; Push.opt_gzip := true;
     Push.opt_expires := false; Push.opt_force := force |}.

Definition pushed (key name : string) : S3File :=
  {| bucket_name := "media"; file_key := key; filename := name;
     delete_flag := false |}.

Definition empty_store : world :=
  {| s3 := ∅; queue := []; calls := []; stdout := []; processes := [] |}.

End DemoPush.

(** * The vocabulary of the properties *)

(** [m] keeps [I]: from a state where [I] holds it ends, normally or by an
    exception, in a state where [I] holds. *)
Definition keeps {S A} (I : S -> Prop) (m : M S A) : Prop :=
  forall s r s', I s -> m s = (r, s') -> I s'.

(** [m] yields [P]: the value it returns, if it returns, satisfies [P]. *)
Definition yields {S A} (P : A -> Prop) (m : M S A) : Prop :=
  forall s a s', m s = (Ok a, s') -> P a.

(** The characters inserted before the extension. *)
Definition gz_chars : list ascii := PyStr.chars ".gz".

(** The bucket a call is made on. *)
Definition call_bucket (c : store_call) : string :=
  match c with
  | GetBucket b | CreateBucket b | GetKey b _ | ReadKey b _
  | SetContents b _ _ _ | MakePublic b _ | DeleteKey b _ => b
  end.

(** [bucket.get_key], the metadata call. *)
Definition is_GetKey (c : store_call) : bool :=
  match c with GetKey _ _ => true | _ => false end.

(** The attributes of a worker other than its three counters. *)
Definition config (k : S3UploadWorker) : S3UploadWorker := set_counts 0 0 0 k.

(** [frame p0 p]: what holds of [p] when a worker that started in [p0] has
    executed files from the queue.  Its attributes are the same; the buckets
    other than its own are as they were; it made calls on its own bucket
    only; in a dry run S3 is as it was and the calls were [get_key] calls,
    none at all when [do_force] is set; with [do_force] the skip counter is
    as it was. *)
Record frame (p0 p : proc) : Prop := {
  frame_config : config (self p) = config (self p0);
  frame_buckets :
    forall b, b <> aws_bucket (self p0) -> s3 (wld p) !! b = s3 (wld p0) !! b;
  frame_dry : dry_run (self p0) = true -> s3 (wld p) = s3 (wld p0);
  frame_calls :
    exists d, calls (wld p) = calls (wld p0) ++ d /\
      Forall (fun c => call_bucket c = aws_bucket (self p0)) d /\
      (dry_run (self p0) = true -> Forall (fun c => is_GetKey c = true) d) /\
      (dry_run (self p0) = true -> do_force (self p0) = true -> d = []);
  frame_skip :
    do_force (self p0) = true -> skip_count (self p) = skip_count (self p0);
  frame_processes : processes (wld p) = processes (wld p0);
}.

(** The workers that [handle] builds: on bucket [b], forced, and with a skip
    counter that is still zero. *)
Definition forced (b : string) (d : bool) (k : S3UploadWorker) : Prop :=
  aws_bucket k = b /\ dry_run k = d /\ do_force k = true /\ skip_count k = 0.

(** The processes of a pool of forced workers. *)
Definition pool_ok (b : string) (d : bool) (ps : list process) : Prop :=
  Forall (fun p => forced b d (target p)) ps.

(** [pool_frame b d w0 w]: what holds of the world [w] when forced workers on
    bucket [b] have worked from the world [w0]. *)
Record pool_frame (b : string) (d : bool) (w0 w : world) : Prop := {
  pf_buckets : forall b', b' <> b -> s3 w !! b' = s3 w0 !! b';
  pf_dry : d = true -> s3 w = s3 w0 /\ calls w = calls w0;
  pf_calls :
    exists dl, calls w = calls w0 ++ dl /\
               Forall (fun c => call_bucket c = b) dl;
  pf_processes : processes w = processes w0;
}.

(** The object under [svn_revision.yaml] in the bucket [<name>.svn]. *)
Definition checkpoint_object (bkt : string) (s : s3_store) : option s3object :=
  bucket_of (svn_bucket_name bkt) s !! SVN_REVISION_CONF.

(** The revision that [get_s3_svn_revision] finds in S3: the stored one, or
    [INITIAL_REVISION] when nothing is stored. *)
Definition checkpoint_revision (bkt : string) (s : s3_store) : Z :=
  match checkpoint_object bkt s with
  | Some o =>
      match obj_body o with
      | YamlBody doc => revision doc
      | FileBody _ => INITIAL_REVISION
      end
  | None => INITIAL_REVISION
  end.

(** The object that [set_contents_from_string(yaml_data)] stores. *)
Definition yaml_object (E : env) (doc : s3_revision) : s3object :=
  {| obj_body := YamlBody doc; obj_headers := ∅; obj_public := false;
     last_modified := http_date (now E) |}.

(** A write under [svn_revision.yaml] in the bucket [<bkt>.svn]. *)
Definition is_checkpoint_write (bkt : string) (c : store_call) : bool :=
  match c with
  | SetContents b k _ _ =>
      String.eqb b (svn_bucket_name bkt) && String.eqb k SVN_REVISION_CONF
  | _ => false
  end.

(** The writes of the checkpoint among the calls made. *)
Definition checkpoint_writes (bkt : string) (cs : list store_call)
  : list store_call :=
  List.filter (is_checkpoint_write bkt) cs.

(** A call that [handle] makes for the checkpoint: on the bucket
    [<bkt>.svn], and not a delete, a change of the access rights or the
    upload of a file. *)
Definition checkpoint_call (bkt : string) (c : store_call) : Prop :=
  call_bucket c = svn_bucket_name bkt /\
  match c with
  | DeleteKey _ _ | MakePublic _ _ | SetContents _ _ (FileBody _) _ => False
  | _ => True
  end.

(** [quiet dry bkt w0 w]: what holds of the world while [handle] has
    dispatched nothing.  The queue and the processes are as they were, the
    buckets other than [<bkt>.svn] are as they were, the calls made were for
    the checkpoint, and in a dry run that bucket holds what it held. *)
Record quiet (dry : bool) (bkt : string) (w0 w : world) : Prop := {
  quiet_queue : queue w = queue w0;
  quiet_processes : processes w = processes w0;
  quiet_buckets :
    forall b, b <> svn_bucket_name bkt -> s3 w !! b = s3 w0 !! b;
  quiet_calls :
    exists d, calls w = calls w0 ++ d /\ Forall (checkpoint_call bkt) d;
  quiet_dry :
    dry = true ->
    bucket_of (svn_bucket_name bkt) (s3 w) =
    bucket_of (svn_bucket_name bkt) (s3 w0);
  quiet_writes :
    dry = true ->
    checkpoint_writes bkt (calls w) = checkpoint_writes bkt (calls w0);
}.

(** The four settings that [handle] asks for are there, with these values. *)
Definition settings_ok (S : settings) (bkt key_id secret root : string)
  : Prop :=
  AWS_ACCESS_KEY_ID S = Some key_id /\ AWS_SECRET_ACCESS_KEY S = Some secret /\
  AWS_BUCKET_NAME S = Some bkt /\ MEDIA_ROOT S = Some root /\
  PyStr.truthy bkt = true /\ PyStr.truthy root = true.

(** The line printed for a file that is out of sync. *)
Definition outofsync_msg (x : S3File * wc_status_kind) : msg :=
  MsgOutOfSyncFile (filename (fst x)) (snd x).

(** The worker has asked the store for [key], and nothing else. *)
Definition asked (key : string) (p : proc) : proc :=
  on_wld (add_call (GetKey (aws_bucket (self p)) key)) p.

(** The headers that [upload_s3] sends with the file. *)
Definition send_headers (E : env) (k : S3UploadWorker) (f : S3File)
  : gmap string string :=
  if do_expires k
  then expires_headers E (content_headers (guess_type E (filename f)))
  else content_headers (guess_type E (filename f)).

(** The condition under which [upload_s3] writes the gzip variant of a file
    it has written: lines 222 and 225. *)
Definition gzip_eligible (E : env) (k : S3UploadWorker) (f : S3File)
    (data : string) : bool :=
  do_gzip k && (1024 <? Z.of_nat (String.length data))
  && in_gzip_content_types (guess_type E (filename f)).

(** The object in the store after [set_contents_from_string] and
    [make_public]. *)
Definition uploaded (E : env) (data : string) (hs : gmap string string)
  : s3object :=
  {| obj_body := FileBody data; obj_headers := hs; obj_public := true;
     last_modified := http_date (now E) |}.

(** A write under [key], in whatever bucket. *)
Definition writes_key (key : string) (c : store_call) : Prop :=
  exists b content hs, c = SetContents b key content hs.

(** [worked bkt dry w w']: what holds of the world [w'] once [handle] has
    built its workers and they have run, from the world [w]. *)
Record worked (bkt : string) (dry : bool) (w w' : world) : Prop := {
  worked_buckets : forall b, b <> bkt -> s3 w' !! b = s3 w !! b;
  worked_dry : dry = true -> forall b, bucket_of b (s3 w') = bucket_of b (s3 w);
  worked_calls :
    exists d, calls w' = calls w ++ d /\
              Forall (fun c => call_bucket c = bkt) d;
}.

(** [same_store w0 w]: S3 and the calls made are those of [w0]. *)
Definition same_store (w0 w : world) : Prop :=
  s3 w = s3 w0 /\ calls w = calls w0.

(** The write that [get_s3_svn_revision] makes when it finds no checkpoint. *)
Definition first_write (dry : bool) (bkt : string) (s : s3_store)
  : list store_call :=
  match checkpoint_object bkt s with
  | None =>
      if dry then []
      else [SetContents (svn_bucket_name bkt) SVN_REVISION_CONF
              (YamlBody default_s3_revision) ∅]
  | Some _ => []
  end.

(** The smallest revision number of a log. *)
Definition earliest_revision (history : list Z) : option Z :=
  foldr (fun n acc => Some (match acc with
                            | Some m => Z.min n m
                            | None => n
                            end)) None history.

(** [client.log] lists the revisions from the newest to the oldest. *)
Definition newest_first (history : list Z) : Prop :=
  StronglySorted (fun a b => b < a) history.

(** ** The vocabulary of the push command *)

(** A name that [os.listdir] can return: not empty, and without a slash. *)
Definition name_ok (n : string) : bool :=
  negb (String.eqb n "")
  && negb (existsb (Ascii.eqb PyStr.slash) (PyStr.chars n)).

(** Every name in the tree is one. *)
Fixpoint names_ok (d : dir) : bool :=
  match d with
  | Dir _ nondirs subdirs =>
      forallb name_ok nondirs
      && forallb (fun e =>
                    match e with
                    | Subdir name _ sub => name_ok name && names_ok sub
                    end) subdirs
  end.

(** [listed d path file]: [file] is a name that is not a directory, in the
    directory reached from [d] through the directories [path], every
    directory on the way being readable and no link. *)
Inductive listed : dir -> list string -> string -> Prop :=
| listed_here nondirs subdirs file :
    file ∈ nondirs -> listed (Dir true nondirs subdirs) [] file
| listed_below nondirs subdirs name sub path file :
    Subdir name false sub ∈ subdirs -> listed sub path file ->
    listed (Dir true nondirs subdirs) (name :: path) file.

(** The names of a path, with a slash between them. *)
Fixpoint rel_of (path : list string) : string :=
  match path with
  | [] => ""
  | [n] => n
  | n :: path' => n +:+ "/" +:+ rel_of path'
  end.

(** The directory that [os.walk] names for [path] below [top]. *)
Definition root_of (top : string) (path : list string) : string :=
  foldl PyStr.path_join top path.

(** [bucket.delete_key] *)
Definition is_DeleteKey (c : store_call) : bool :=
  match c with DeleteKey _ _ => true | _ => false end.

(** [grows w0 w]: what holds of the world when uploads only were executed
    since [w0].  The files still in the queue are uploads, no [delete_key]
    call was made, and every key that was in a bucket is still there. *)
Record grows (w0 w : world) : Prop := {
  grows_queue : Forall (fun f => delete_flag f = false) (queue w);
  grows_calls :
    exists d, calls w = calls w0 ++ d /\
              Forall (fun c => is_DeleteKey c = false) d;
  grows_keys :
    forall b k, is_Some (bucket_of b (s3 w0) !! k) ->
                is_Some (bucket_of b (s3 w) !! k);
}.

(** The files that a worker has counted, in its three counters. *)
Definition jobs_done (k : S3UploadWorker) : Z :=
  upload_count k + skip_count k + delete_count k.

(** The revision that [first_upload_revision] gives for the loaded one. *)
Definition start_revision (C : svn_client) (r0 : s3_revision) : s3_revision :=
  if revision r0 =? INITIAL_REVISION then
    match last (svn_log C) with
    | Some n => set_initial_revision n (set_revision n r0)
    | None => r0
    end
  else r0.

(** ** The jobs of a run *)

(** The calls [d] hold the call that executes the job [f] on the bucket
    [b]: the delete of its key, or the write of the bytes of its file under
    its key. *)
Definition job_executed (E : env) (b : string) (f : S3File)
    (d : list store_call) : Prop :=
  if delete_flag f then DeleteKey b (file_key f) ∈ d
  else exists file hs,
         fs E !! filename f = Some file /\
         SetContents b (file_key f) (FileBody (filedata file)) hs ∈ d.

(** A worker that executes what it takes off the queue: on the bucket [b],
    forced, and not in a dry run. *)
Definition on_duty (b : string) (k : S3UploadWorker) : Prop :=
  aws_bucket k = b /\ dry_run k = false /\ do_force k = true.

(** Since the world [w0], every file of [files] has stayed on the queue or
    its job was executed. *)
Definition jobs_inv (E : env) (b : string) (files : list S3File)
    (w0 w : world) : Prop :=
  exists d,
    calls w = calls w0 ++ d /\
    forall f, f ∈ files -> f ∈ queue w \/ job_executed E b f d.

(** A process that has terminated with an exit code other than 0. *)
Definition bad (p : process) : Prop :=
  exists c, exitcode p = Some c /\ c <> 0.

Definition failed (ps : list process) : Prop :=
  exists p, p ∈ ps /\ bad p.

(** The job that [handle] queues for a change, when it queues one. *)
Definition job_of (bkt root : string) (c : diff_summary) : S3File :=
  {| bucket_name := bkt; file_key := path c;
     filename := PyStr.path_join root (path c);
     delete_flag := is_delete_change (summarize_kind c) |}.

(** A change that [handle] queues a job for: of a file, or the deletion of
    a directory, and not [normal]. *)
Definition queued_change (c : diff_summary) : Prop :=
  summarize_kind c <> ds_normal /\
  (change_node_kind c = nk_file \/
   change_node_kind c = nk_dir /\ summarize_kind c = ds_delete).


(** * Properties *)

(** ** The gzip-variant key *)

Example gz_key_app_js : gz_key "app.js" = "app.gz.js".
Proof. reflexivity. Qed.

Example gz_key_no_extension : gz_key "css/README" = "css/README.gz".
Proof. reflexivity. Qed.

Example gz_key_dotfile : gz_key "a.b/.htaccess" = "a.b/.htaccess.gz".
Proof. reflexivity. Qed.

Example gz_key_two_dots : gz_key "lib/jquery.min.js" = "lib/jquery.min.gz.js".
Proof. reflexivity. Qed.

Section SplitExt.
Import PyStr.

Lemma str_chars (s : string) : str (chars s) = s.
Proof. apply string_of_list_ascii_of_string. Qed.

Lemma chars_str (l : list ascii) : chars (str l) = l.
Proof. apply list_ascii_of_string_of_list_ascii. Qed.

Lemma str_app (a b : list ascii) : str (a ++ b) = str a +:+ str b.
Proof.
  induction a as [|x a IH]; simpl; [reflexivity|].
  unfold str in *. simpl. rewrite IH. reflexivity.
Qed.

Lemma chars_inj (s t : string) : chars s = chars t -> s = t.
Proof.
  intros H. rewrite <- (str_chars s), <- (str_chars t). now rewrite H.
Qed.

Lemma chars_app (s t : string) : chars (s +:+ t) = chars s ++ chars t.
Proof.
  rewrite <- (str_chars s) at 1. rewrite <- (str_chars t) at 1.
  rewrite <- str_app. apply chars_str.
Qed.

(** [rfind] finds the last occurrence: the string splits there, and the
    character does not occur after it. *)
Lemma rfind_from_spec (c : ascii) (p : list ascii) (i : Z) :
  0 <= i ->
  (rfind_from c p i = -1 /\ (c ∉ p)) \/
  (exists l t, p = l ++ c :: t /\ (c ∉ t) /\
               rfind_from c p i = i + Z.of_nat (length l)).
Proof.
  revert i. induction p as [|x q IH]; intros i Hi; simpl.
  - left. split; [reflexivity|]. apply not_elem_of_nil.
  - destruct (IH (i + 1)) as [[Hr Hn] | (l & t & -> & Hn & Hr)]; [lia| |].
    + rewrite Hr. simpl.
      destruct (Ascii.eqb_spec x c) as [->|Hne].
      * right. exists [], q. simpl. repeat split; [assumption|lia].
      * left. split; [reflexivity|].
        intros [?|?]%elem_of_cons; congruence.
    + rewrite Hr.
      destruct (Z.leb_spec 0 (i + 1 + Z.of_nat (length l))) as [Hle|Hgt];
        [|lia].
      right. exists (x :: l), t. simpl. repeat split; [assumption|lia].
Qed.

(** The two halves that [splitext] returns make up the path, and the
    extension is empty or a dot followed by characters other than a dot. *)
Lemma splitext_chars_spec (p root ext : list ascii) :
  splitext_chars p = (root, ext) ->
  p = root ++ ext /\ (ext = [] \/ exists t, ext = dot :: t /\ (dot ∉ t)).
Proof.
  unfold splitext_chars.
  destruct (_ && _) eqn:Hc; intros [= <- <-].
  - split; [symmetry; apply take_drop|].
    apply andb_prop in Hc as [Hlt _]. apply Z.ltb_lt in Hlt.
    unfold rfind in *.
    destruct (rfind_from_spec dot p 0) as [[Hr _] | (l & t & -> & Hn & Hr)];
      [lia| |].
    + rewrite Hr in *.
      destruct (rfind_from_spec slash p 0)
        as [[Hs _] | (l' & t' & _ & _ & Hs)]; [lia|..];
        rewrite Hs in Hlt; lia.
    + right. exists t. split; [|assumption].
      rewrite Hr. replace (Z.to_nat (0 + Z.of_nat (length l))) with (length l) by lia.
      now rewrite drop_app_length.
  - split; [symmetry; apply app_nil_r | left; reflexivity].
Qed.

(** A list splits in one way only at the last occurrence of a character. *)
Lemma last_occurrence_unique (c : ascii) (l1 l2 t1 t2 : list ascii) :
  l1 ++ c :: t1 = l2 ++ c :: t2 -> c ∉ t1 -> c ∉ t2 ->
  l1 = l2 /\ t1 = t2.
Proof.
  revert l2. induction l1 as [|x l1 IH]; intros [|y l2] H H1 H2; simpl in *.
  - now inversion H.
  - inversion H; subst. exfalso. apply H1.
    apply elem_of_app. right. apply elem_of_cons. now left.
  - inversion H; subst. exfalso. apply H2.
    apply elem_of_app. right. apply elem_of_cons. now left.
  - inversion H; subst.
    destruct (IH l2) as [-> ->]; auto.
Qed.

Lemma gz_key_chars (k : string) :
  exists root ext,
    splitext_chars (chars k) = (root, ext) /\
    chars (gz_key k) = root ++ gz_chars ++ ext.
Proof.
  unfold gz_key, splitext.
  destruct (splitext_chars (chars k)) as [root ext].
  exists root, ext. split; [reflexivity|].
  rewrite !chars_app, !chars_str. reflexivity.
Qed.

End SplitExt.

Section GzKey.
Import PyStr.

Lemma gz_chars_split : gz_chars = dot :: chars "gz" /\ (dot ∉ chars "gz").
Proof.
  split; [reflexivity|].
  intros H. repeat (apply elem_of_cons in H as [H|H]; [discriminate H|]).
  now apply elem_of_nil in H.
Qed.

Lemma app_cons_app_assoc (r g t : list ascii) (c : ascii) :
  r ++ c :: g ++ t = (r ++ c :: g) ++ t.
Proof. now rewrite <- app_assoc. Qed.

Lemma gz_insert_cancel (r1 r2 g e1 e2 : list ascii) :
  (dot ∉ g) ->
  (e1 = [] \/ exists t, e1 = dot :: t /\ (dot ∉ t)) ->
  (e2 = [] \/ exists t, e2 = dot :: t /\ (dot ∉ t)) ->
  r1 ++ dot :: g ++ e1 = r2 ++ dot :: g ++ e2 ->
  r1 ++ e1 = r2 ++ e2.
Proof.
  intros Hg [-> | (t1 & -> & N1)] [-> | (t2 & -> & N2)] H.
  - rewrite !app_nil_r in *.
    apply last_occurrence_unique in H as [-> _]; auto.
  - rewrite !app_nil_r in *.
    rewrite (app_cons_app_assoc r2) in H.
    apply last_occurrence_unique in H as [-> <-]; auto.
  - rewrite !app_nil_r in *.
    rewrite (app_cons_app_assoc r1) in H.
    apply last_occurrence_unique in H as [<- ->]; auto.
  - rewrite (app_cons_app_assoc r1), (app_cons_app_assoc r2) in H.
    apply last_occurrence_unique in H as [H ->]; auto.
    apply app_inv_tail in H. now subst.
Qed.

Lemma gz_key_injective (k1 k2 : string) : gz_key k1 = gz_key k2 -> k1 = k2.
Proof.
  intros H. apply chars_inj.
  destruct (gz_key_chars k1) as (r1 & e1 & S1 & G1).
  destruct (gz_key_chars k2) as (r2 & e2 & S2 & G2).
  apply splitext_chars_spec in S1 as [P1 X1].
  apply splitext_chars_spec in S2 as [P2 X2].
  rewrite P1, P2. rewrite H, G2 in G1.
  destruct gz_chars_split as [Hgz Hnd]. rewrite Hgz in G1.
  symmetry. now apply (gz_insert_cancel r2 r1 (chars "gz") e2 e1).
Qed.

Lemma gz_key_length (k : string) :
  length (chars (gz_key k)) = (length (chars k) + 3)%nat.
Proof.
  destruct (gz_key_chars k) as (r & e & S & G).
  apply splitext_chars_spec in S as [P _].
  rewrite G, P, !length_app. simpl. lia.
Qed.

Lemma gz_key_neq (k : string) : gz_key k <> k.
Proof.
  intros H. pose proof (gz_key_length k) as L. rewrite H in L. lia.
Qed.

End GzKey.

(** ** Reasoning about computations in [M] *)

Lemma bind_ok {S A B} (m : M S A) (f : A -> M S B) s a s' :
  m s = (Ok a, s') -> (m ≫= f) s = f a s'.
Proof. intros H. unfold mbind, M_bind. now rewrite H. Qed.

Lemma bind_raise {S A B} (m : M S A) (f : A -> M S B) s e s' :
  m s = (Raise e, s') -> (m ≫= f) s = (Raise e, s').
Proof. intros H. unfold mbind, M_bind. now rewrite H. Qed.

Lemma bind_inv {S A B} (m : M S A) (f : A -> M S B) s r s2 :
  (m ≫= f) s = (r, s2) ->
  (exists a s1, m s = (Ok a, s1) /\ f a s1 = (r, s2)) \/
  (exists e, m s = (Raise e, s2) /\ r = Raise e).
Proof.
  unfold mbind, M_bind. destruct (m s) as [[a|e] s1]; intros H.
  - left. eauto.
  - right. inversion H; subst. eauto.
Qed.

Section Keeps.
Context {S : Type} (I : S -> Prop).

Lemma keeps_ret {A} (a : A) : keeps I (mret a).
Proof. intros s r s' H [= _ <-]. exact H. Qed.

Lemma keeps_raise {A} (e : exn) : keeps I (raise e : M S A).
Proof. intros s r s' H [= _ <-]. exact H. Qed.

Lemma keeps_bind {A B} (m : M S A) (f : A -> M S B) :
  keeps I m -> (forall a, keeps I (f a)) -> keeps I (m ≫= f).
Proof.
  intros Hm Hf s r s' H E.
  apply bind_inv in E as [(a & s1 & E1 & E2) | (e & E1 & _)].
  - eapply Hf; [|exact E2]. eapply Hm; eauto.
  - eapply Hm; eauto.
Qed.

(** After [x ← gets g], the value read is known to come from a state where
    [I] holds. *)
Lemma keeps_gets {A B} (g : S -> A) (f : A -> M S B) :
  (forall s, I s -> keeps I (f (g s))) -> keeps I (gets g ≫= f).
Proof.
  intros Hf s r s' H E. unfold mbind, M_bind, gets in E.
  eapply Hf; eauto.
Qed.

Lemma keeps_modify (f : S -> S) :
  (forall s, I s -> I (f s)) -> keeps I (modify f).
Proof. intros Hf s r s' H [= _ <-]. auto. Qed.

Lemma keeps_when (b : bool) (m : M S unit) : keeps I m -> keeps I (when b m).
Proof. destruct b; simpl; auto using keeps_ret. Qed.

Lemma keeps_attempt {A} (m : M S A) : keeps I m -> keeps I (attempt m).
Proof.
  intros Hm s r s' H E. unfold attempt in E.
  destruct (m s) as [r1 s1] eqn:E1. inversion E; subst. eauto.
Qed.

Lemma keeps_if {A} (b : bool) (m1 m2 : M S A) :
  keeps I m1 -> keeps I m2 -> keeps I (if b then m1 else m2).
Proof. destruct b; auto. Qed.

Lemma keeps_bind_yields {A B} (P : A -> Prop) (m : M S A)
    (f : A -> M S B) :
  keeps I m -> yields P m -> (forall a, P a -> keeps I (f a)) ->
  keeps I (m ≫= f).
Proof.
  intros Hm Hy Hf s r s' H E.
  apply bind_inv in E as [(a & s1 & E1 & E2) | (e & E1 & _)].
  - eapply (Hf a); [eauto | |exact E2]. eapply Hm; eauto.
  - eapply Hm; eauto.
Qed.

End Keeps.

(** ** What a worker leaves alone *)

Lemma config_fields (k k' : S3UploadWorker) :
  config k = config k' ->
  num k = num k' /\ aws_bucket k = aws_bucket k' /\
  verbosity k = verbosity k' /\ do_gzip k = do_gzip k' /\
  do_expires k = do_expires k' /\ do_force k = do_force k' /\
  dry_run k = dry_run k'.
Proof. intros H. inversion H. repeat split; assumption. Qed.

Lemma frame_refl (p : proc) : frame p p.
Proof.
  split; auto. exists []. rewrite app_nil_r. repeat split; auto.
Qed.

Section Frame.
Variable p0 : proc.

Local Abbreviation b0 := (aws_bucket (self p0)).

Lemma frame_print (m : msg) : keeps (frame p0) (in_world (print m)).
Proof.
  intros s r s' [] [= _ <-]. split; auto.
Qed.

Lemma frame_incr_upload : keeps (frame p0) (modify (on_self incr_upload_count)).
Proof. apply keeps_modify. intros s []. split; auto. Qed.

Lemma frame_incr_delete : keeps (frame p0) (modify (on_self incr_delete_count)).
Proof. apply keeps_modify. intros s []. split; auto. Qed.

Lemma frame_incr_skip :
  do_force (self p0) = false ->
  keeps (frame p0) (modify (on_self incr_skip_count)).
Proof.
  intros F. apply keeps_modify. intros s []. split; auto.
  rewrite F. discriminate.
Qed.

Lemma frame_set_queue (q : list S3File) :
  keeps (frame p0) (modify (on_wld (set_queue q))).
Proof. apply keeps_modify. intros s []. split; auto. Qed.

Lemma frame_get_key (key : string) :
  (dry_run (self p0) = true -> do_force (self p0) = false) ->
  keeps (frame p0) (in_world (get_key b0 key)).
Proof.
  intros Hc s r s' [] [= _ <-]. split; auto. simpl.
  destruct frame_calls0 as (d & -> & Hb & Hg & Hn).
  exists (d ++ [GetKey b0 key]). rewrite app_assoc.
  repeat split.
  - apply Forall_app. split; [assumption|]. now constructor.
  - intros D. apply Forall_app. split; [auto|]. now constructor.
  - intros D F. rewrite (Hc D) in F. discriminate.
Qed.

(** A call that changes the worker's own bucket, outside a dry run. *)
Lemma frame_change (c : store_call) (f : bucket -> bucket) :
  dry_run (self p0) = false -> call_bucket c = b0 ->
  keeps (frame p0)
    (in_world (modify (add_call c);;
               modify (set_s3 (fun s => <[b0 := f (bucket_of b0 s)]> s)))).
Proof.
  intros D Hc s r s' [] [= _ <-]. split; auto; simpl.
  - intros b Hb. rewrite lookup_insert_ne by congruence. auto.
  - rewrite D. discriminate.
  - destruct frame_calls0 as (d & -> & Hb & Hg & Hn).
    exists (d ++ [c]). rewrite app_assoc. repeat split.
    + apply Forall_app. split; [assumption|]. now constructor.
    + rewrite D. discriminate.
    + rewrite D. discriminate.
Qed.

Lemma frame_delete_key (key : string) :
  dry_run (self p0) = false ->
  keeps (frame p0) (in_world (delete_key b0 key)).
Proof. intros D. now apply (frame_change (DeleteKey b0 key) (delete key)). Qed.

Lemma frame_make_public (key : string) :
  dry_run (self p0) = false ->
  keeps (frame p0) (in_world (make_public b0 key)).
Proof.
  intros D. now apply (frame_change (MakePublic b0 key) (alter publish key)).
Qed.

Lemma frame_guarded_write (E : env) (key : string) (content : body)
    (headers : gmap string string) :
  dry_run (self p0) = false ->
  keeps (frame p0) (in_world (guarded_write E b0 key content headers)).
Proof.
  intros D. unfold guarded_write. destruct (write_fault E key) as [e|].
  - intros s r s' [] Hrun.
    unfold in_world, mbind, M_bind, modify, raise in Hrun. simpl in Hrun.
    inversion Hrun; subst; clear Hrun.
    split; auto; simpl.
    destruct frame_calls0 as (d & -> & Hb & Hg & Hn).
    exists (d ++ [SetContents b0 key content headers]).
    rewrite app_assoc. repeat split.
    + apply Forall_app. split; [assumption|]. now constructor.
    + rewrite D. discriminate.
    + rewrite D. discriminate.
  - now apply (frame_change (SetContents b0 key content headers)
                 (insert key _)).
Qed.

End Frame.

Ltac keeps_steps :=
  repeat first
    [ apply keeps_ret | apply keeps_raise | apply frame_print
    | apply frame_incr_upload | apply frame_incr_delete
    | apply frame_set_queue
    | apply frame_delete_key; congruence
    | apply frame_get_key; congruence
    | apply frame_make_public; congruence
    | apply frame_guarded_write; congruence
    | apply frame_incr_skip; congruence
    | apply keeps_when | apply keeps_attempt
    | apply keeps_bind; [|intros ?]
    | match goal with
      | |- keeps _ (match ?x with _ => _ end) => destruct x eqn:?; simpl
      end ].

Section FrameWorker.
Variable p0 : proc.
Variable E : env.

Lemma frame_delete_s3 (f : S3File) : keeps (frame p0) (delete_s3 f).
Proof.
  unfold delete_s3. apply keeps_gets. intros s Hs.
  destruct (config_fields _ _ (frame_config _ _ Hs))
    as (_ & Hb & _ & _ & _ & _ & Hd).
  rewrite Hb. destruct (dry_run (self s)) eqn:D; simpl; keeps_steps.
Qed.

Lemma frame_os_stat_mtime (name : string) :
  keeps (frame p0) (os_stat_mtime E name).
Proof. unfold os_stat_mtime. keeps_steps. Qed.

Lemma frame_open_read (name : string) :
  keeps (frame p0) (open_read E name).
Proof. unfold open_read. keeps_steps. Qed.

Lemma frame_check_unchanged (f : S3File) :
  keeps (frame p0) (check_unchanged E f).
Proof.
  unfold check_unchanged. apply keeps_gets. intros s Hs.
  destruct (config_fields _ _ (frame_config _ _ Hs))
    as (_ & Hb & _ & _ & _ & Hf & _).
  rewrite Hb.
  destruct (do_force (self s)) eqn:F; simpl; keeps_steps.
  apply frame_os_stat_mtime.
Qed.

Lemma frame_write_step (k : S3UploadWorker) (key data : string)
    (size : Z) (ct : option string) (headers : gmap string string) :
  config k = config (self p0) ->
  keeps (frame p0) (write_step E k key data size ct headers).
Proof.
  intros Hk.
  destruct (config_fields _ _ Hk) as (_ & Hb & _ & _ & _ & _ & Hd).
  unfold write_step. rewrite Hb.
  destruct (dry_run k) eqn:D; rewrite ?andb_false_r; simpl; keeps_steps.
Qed.

Lemma frame_send_file (f : S3File) : keeps (frame p0) (send_file E f).
Proof.
  unfold send_file.
  apply keeps_gets. intros s Hs.
  apply keeps_bind; [keeps_steps|intros _].
  apply keeps_bind; [apply frame_open_read|intros data].
  apply keeps_bind; [keeps_steps|intros headers].
  apply keeps_bind;
    [apply keeps_attempt, frame_write_step, (frame_config _ _ Hs)|].
  intros [|e]; keeps_steps.
Qed.

Lemma frame_upload_s3 (f : S3File) : keeps (frame p0) (upload_s3 E f).
Proof.
  unfold upload_s3. apply keeps_bind; [apply frame_check_unchanged|].
  intros [|]; [apply keeps_ret|apply frame_send_file].
Qed.

Lemma frame_run_iteration : keeps (frame p0) (run_iteration E).
Proof.
  unfold run_iteration. apply keeps_gets. intros s Hs.
  destruct (queue (wld s)) as [|f rest]; [apply keeps_ret|].
  apply keeps_bind; [apply frame_set_queue|intros _].
  apply keeps_bind; [|intros _; apply keeps_ret].
  destruct (do_delete f); [apply frame_delete_s3 | apply frame_upload_s3].
Qed.

Lemma frame_run_loop (n : nat) : keeps (frame p0) (run_loop E n).
Proof.
  induction n as [|n IH]; simpl; [apply keeps_ret|].
  apply keeps_bind; [apply frame_run_iteration|].
  intros [|]; [exact IH | apply keeps_ret].
Qed.

Lemma frame_run_report : keeps (frame p0) run_report.
Proof.
  unfold run_report. apply keeps_gets. intros s Hs. keeps_steps.
Qed.

Lemma frame_run : keeps (frame p0) (run E).
Proof.
  unfold run. apply keeps_gets. intros s Hs.
  apply keeps_bind; [apply frame_run_loop|intros _; apply frame_run_report].
Qed.

End FrameWorker.

(** ** What the pool of workers leaves alone *)

Lemma pool_frame_refl b d w : pool_frame b d w w.
Proof.
  split; auto. exists []. rewrite app_nil_r. split; auto.
Qed.

Lemma pool_frame_step b d w0 (p p' : proc) :
  forced b d (self p) -> pool_frame b d w0 (wld p) -> frame p p' ->
  forced b d (self p') /\ pool_frame b d w0 (wld p').
Proof.
  intros (Hb & Hd & Hf & Hs) [] [].
  destruct (config_fields _ _ frame_config0) as (_ & Hb' & _ & _ & _ & Hf' & Hd').
  split.
  - repeat split; try congruence. rewrite frame_skip0; auto.
  - destruct frame_calls0 as (dl & Hc & Hall & _ & Hnil).
    split.
    + intros b' Hne. rewrite frame_buckets0 by congruence. auto.
    + intros ->. destruct (pf_dry0 eq_refl) as [Hs3 Hcl]. split.
      * rewrite frame_dry0; auto.
      * rewrite Hc, (Hnil Hd Hf), app_nil_r. auto.
    + destruct pf_calls0 as (dl0 & Hc0 & Hall0).
      exists (dl0 ++ dl). rewrite Hc, Hc0, app_assoc. split; [reflexivity|].
      apply Forall_app. split; [assumption|]. now rewrite <- Hb.
    + congruence.
Qed.

Section Pool.
Variable E : env.
Variables (b : string) (d : bool) (w0 : world).

Lemma step_process_ok p w p' w' :
  forced b d (target p) -> pool_frame b d w0 w ->
  step_process E p w = (p', w') ->
  forced b d (target p') /\ pool_frame b d w0 w'.
Proof.
  intros Hp Hw. unfold step_process.
  destruct (exitcode p); [intros [= <- <-]; auto|].
  destruct (run_iteration E _) as [[[|]|e] st] eqn:R.
  - intros [= <- <-]. simpl.
    eapply (pool_frame_step b d w0 {| self := target p; wld := w |} st); auto.
    eapply frame_run_iteration; [apply frame_refl | exact R].
  - destruct (run_report st) as [r st'] eqn:R'. intros [= <- <-]. simpl.
    eapply (pool_frame_step b d w0 {| self := target p; wld := w |} st'); auto.
    eapply frame_run_report; [|exact R'].
    eapply frame_run_iteration; [apply frame_refl | exact R].
  - intros [= <- <-]. simpl.
    eapply (pool_frame_step b d w0 {| self := target p; wld := w |} st); auto.
    eapply frame_run_iteration; [apply frame_refl | exact R].
Qed.

Lemma finish_process_ok p w p' w' :
  forced b d (target p) -> pool_frame b d w0 w ->
  finish_process E p w = (p', w') ->
  forced b d (target p') /\ pool_frame b d w0 w' /\ is_Some (exitcode p').
Proof.
  intros Hp Hw. unfold finish_process.
  destruct (exitcode p) eqn:X; [intros [= <- <-]; rewrite X; eauto|].
  destruct (run E _) as [[[]|e] st] eqn:R; intros [= <- <-]; simpl.
  all: assert (frame {| self := target p; wld := w |} st) as Fr
    by (eapply frame_run; [apply frame_refl | exact R]).
  all: destruct (pool_frame_step b d w0 {| self := target p; wld := w |}
                   st Hp Hw Fr) as [? ?]; eauto.
Qed.

Lemma kill_process_ok signal p :
  forced b d (target p) -> forced b d (target (kill_process signal p)).
Proof. unfold kill_process. destruct (exitcode p); auto. Qed.

Lemma pool_event_ok ev ps w ps' w' :
  pool_ok b d ps -> pool_frame b d w0 w ->
  pool_event E ev (ps, w) = (ps', w') ->
  pool_ok b d ps' /\ pool_frame b d w0 w' /\ length ps' = length ps.
Proof.
  unfold pool_ok. intros Hps Hw. unfold pool_event.
  destruct ev as [i | i signal].
  - destruct (ps !! i) as [p|] eqn:L; [|intros [= <- <-]; auto].
    destruct (step_process E p w) as [p1 w1] eqn:S1. intros [= <- <-].
    pose proof (Forall_lookup_1 _ _ _ _ Hps L) as Hp. simpl in Hp.
    destruct (step_process_ok _ _ _ _ Hp Hw S1) as [Hp1 Hw1].
    split; [|split]; [now apply Forall_insert | assumption |].
    apply length_insert.
  - destruct (ps !! i) as [p|] eqn:L; intros [= <- <-]; auto.
    split; [|split]; [|assumption|apply length_insert].
    apply Forall_insert; [assumption|]. apply kill_process_ok.
    apply (Forall_lookup_1 _ _ _ _ Hps L).
Qed.

Lemma join_all_ok ps w ps' w' :
  pool_ok b d ps -> pool_frame b d w0 w -> join_all E ps w = (ps', w') ->
  pool_ok b d ps' /\ pool_frame b d w0 w' /\ length ps' = length ps /\
  Forall (fun p => is_Some (exitcode p)) ps'.
Proof.
  unfold pool_ok.
  revert w ps' w'. induction ps as [|p ps IH]; intros w ps' w' Hps Hw; simpl.
  - intros [= <- <-]. auto.
  - inversion Hps as [|? ? Hp Hrest]; subst.
    destruct (finish_process E p w) as [p1 w1] eqn:F1.
    destruct (join_all E ps w1) as [ps2 w2] eqn:J. intros [= <- <-].
    destruct (finish_process_ok _ _ _ _ Hp Hw F1) as (Hp1 & Hw1 & Hx).
    destruct (IH _ _ _ Hrest Hw1 J) as (Hps2 & Hw2 & Hl & Hall).
    split; [|split; [|split]]; auto. simpl. now rewrite Hl.
Qed.

Lemma run_pool_ok schedule ps w ps' w' :
  pool_ok b d ps -> pool_frame b d w0 w ->
  run_pool E schedule ps w = (ps', w') ->
  pool_ok b d ps' /\ pool_frame b d w0 w' /\ length ps' = length ps /\
  Forall (fun p => is_Some (exitcode p)) ps'.
Proof.
  unfold run_pool. revert ps w.
  induction schedule as [|ev evs IH]; intros ps w Hps Hw; cbn [fold_left].
  - destruct (join_all E ps w) as [ps1 w1] eqn:J. intros [= <- <-].
    eapply join_all_ok; eauto.
  - destruct (pool_event E ev (ps, w)) as [ps1 w1] eqn:Ev.
    destruct (pool_event_ok _ _ _ _ _ Hps Hw Ev) as (Hps1 & Hw1 & Hl).
    intros H. destruct (IH _ _ Hps1 Hw1 H) as (? & ? & ? & ?).
    split; [|split; [|split]]; auto. congruence.
Qed.

End Pool.

(** ** The checkpoint in S3 *)

Lemma checkpoint_writes_app bkt l1 l2 :
  checkpoint_writes bkt (l1 ++ l2) =
  checkpoint_writes bkt l1 ++ checkpoint_writes bkt l2.
Proof. apply List.filter_app. Qed.

Lemma checkpoint_writes_snoc_other bkt cs c :
  is_checkpoint_write bkt c = false ->
  checkpoint_writes bkt (cs ++ [c]) = checkpoint_writes bkt cs.
Proof.
  intros H. rewrite checkpoint_writes_app. unfold checkpoint_writes at 2.
  simpl. rewrite H. apply app_nil_r.
Qed.

Lemma checkpoint_writes_snoc_write bkt cs c :
  is_checkpoint_write bkt c = true ->
  checkpoint_writes bkt (cs ++ [c]) = checkpoint_writes bkt cs ++ [c].
Proof.
  intros H. rewrite checkpoint_writes_app. unfold checkpoint_writes at 2.
  simpl. now rewrite H.
Qed.

Lemma quiet_refl dry bkt w : quiet dry bkt w w.
Proof. split; auto. exists []. rewrite app_nil_r. auto. Qed.

Lemma svn_bucket_name_neq (bkt : string) : svn_bucket_name bkt <> bkt.
Proof.
  unfold svn_bucket_name. intros H.
  apply (f_equal PyStr.chars) in H. rewrite chars_app in H.
  apply (f_equal (@length _)) in H. rewrite length_app in H.
  simpl in H. lia.
Qed.

Lemma bucket_of_insert (b : string) (bk : bucket) (s : s3_store) :
  bucket_of b (<[b := bk]> s) = bk.
Proof. unfold bucket_of. now rewrite lookup_insert_eq. Qed.

Lemma bucket_of_insert_ne (b b' : string) (bk : bucket) (s : s3_store) :
  b <> b' -> bucket_of b' (<[b := bk]> s) = bucket_of b' s.
Proof. intros H. unfold bucket_of. now rewrite lookup_insert_ne. Qed.

Section Quiet.
Variables (dry : bool) (bkt : string) (w0 : world).
Local Abbreviation svn := (svn_bucket_name bkt).

Lemma quiet_print (m : msg) : keeps (quiet dry bkt w0) (print m).
Proof. apply keeps_modify. intros s []. split; auto. Qed.

Lemma quiet_call (c : store_call) :
  checkpoint_call bkt c ->
  (dry = true -> is_checkpoint_write bkt c = false) ->
  keeps (quiet dry bkt w0) (modify (add_call c)).
Proof.
  intros Hc Hw. apply keeps_modify. intros s []. split; auto; simpl.
  - destruct quiet_calls0 as (d & -> & Hd).
    exists (d ++ [c]). rewrite app_assoc. split; [reflexivity|].
    apply Forall_app. split; [assumption|]. now constructor.
  - intros D. rewrite checkpoint_writes_snoc_other; auto.
Qed.

Lemma quiet_get_or_create_bucket :
  keeps (quiet dry bkt w0) (get_or_create_bucket svn).
Proof.
  intros s r s' [] Hrun.
  destruct quiet_calls0 as (d & Hc & Hd).
  unfold get_or_create_bucket, mbind, M_bind, modify, gets in Hrun.
  simpl in Hrun. destruct (s3 s !! svn) eqn:L.
  - inversion Hrun; subst; clear Hrun. split; auto; simpl.
    + exists (d ++ [GetBucket svn]). rewrite Hc, app_assoc.
      split; [reflexivity|].
      apply Forall_app. split; [assumption|]. now constructor.
    + intros D. rewrite checkpoint_writes_snoc_other; auto.
  - inversion Hrun; subst; clear Hrun. split; auto; simpl.
    + intros b Hb. rewrite lookup_insert_ne by congruence. auto.
    + exists (d ++ [GetBucket svn; CreateBucket svn]).
      rewrite Hc, <- !app_assoc. split; [reflexivity|].
      apply Forall_app. split; [assumption|]. now repeat constructor.
    + intros D. rewrite <- (quiet_dry0 D).
      rewrite bucket_of_insert. unfold bucket_of. now rewrite L.
    + intros D. rewrite !checkpoint_writes_snoc_other; auto.
Qed.

Lemma quiet_get_key (key : string) :
  keeps (quiet dry bkt w0) (get_key svn key).
Proof.
  unfold get_key. apply keeps_bind; [apply quiet_call; [now split|reflexivity]|intros _].
  apply keeps_gets. intros s Hs. apply keeps_ret.
Qed.

Lemma quiet_get_s3_svn_bucket (cmd : Command) :
  keeps (quiet dry bkt w0) (get_s3_svn_bucket cmd bkt).
Proof.
  unfold get_s3_svn_bucket.
  apply keeps_bind; [apply keeps_when, quiet_print|intros _].
  apply keeps_bind; [apply quiet_get_or_create_bucket|intros _].
  apply keeps_ret.
Qed.

Lemma quiet_set_contents (E : env) (doc : s3_revision)
    (headers : gmap string string) :
  dry = false ->
  keeps (quiet dry bkt w0)
    (set_contents_from_string E svn SVN_REVISION_CONF (YamlBody doc)
       headers).
Proof.
  intros D. unfold set_contents_from_string.
  apply keeps_bind;
    [apply quiet_call; [now split|intros; congruence]|intros _].
  apply keeps_modify. intros s []. split; auto; simpl.
  - intros b Hb. rewrite lookup_insert_ne by congruence. auto.
  - rewrite D. discriminate.
Qed.

Lemma get_s3_svn_bucket_yields (cmd : Command) :
  yields (fun b => b = svn) (get_s3_svn_bucket cmd bkt).
Proof.
  intros s a s' H. unfold get_s3_svn_bucket in H.
  apply bind_inv in H as [(? & s1 & _ & H) | (? & _ & [=])].
  apply bind_inv in H as [(? & s2 & _ & H) | (? & _ & [=])].
  now inversion H.
Qed.

(** [set_s3_revision] on the bucket [<bkt>.svn], as both of its callers
    have it. *)
Lemma quiet_set_s3_revision (E : env) (cmd : Command) (r : s3_revision)
    (bucket_instance : option string) :
  dryrun cmd = dry ->
  (forall b, bucket_instance = Some b -> b = svn) ->
  keeps (quiet dry bkt w0) (set_s3_revision E cmd bkt r bucket_instance).
Proof.
  intros D Hb. unfold set_s3_revision.
  apply (keeps_bind_yields _ (fun b => b = svn)).
  - destruct bucket_instance;
      [apply keeps_ret | apply quiet_get_s3_svn_bucket].
  - destruct bucket_instance as [b|]; [|apply get_s3_svn_bucket_yields].
    intros s a s' [= <- _]. now apply Hb.
  - intros b ->.
    apply keeps_bind; [apply quiet_get_key|intros key].
    apply keeps_bind.
    { destruct key; [apply keeps_ret | apply keeps_when, quiet_print]. }
    intros _. apply keeps_bind; [|intros _; apply keeps_when, quiet_print].
    destruct (dryrun cmd) eqn:Dc; simpl; [apply keeps_ret|].
    apply quiet_set_contents. congruence.
Qed.

Lemma quiet_get_s3_svn_revision (E : env) (cmd : Command) :
  dryrun cmd = dry ->
  keeps (quiet dry bkt w0) (get_s3_svn_revision E cmd bkt).
Proof.
  intros D. unfold get_s3_svn_revision.
  apply (keeps_bind_yields _ (fun b => b = svn));
    [apply quiet_get_s3_svn_bucket | apply get_s3_svn_bucket_yields |].
  intros b ->.
  apply keeps_bind; [apply quiet_get_key|intros [o|]].
  - apply keeps_bind; [apply quiet_call; [now split|reflexivity]|intros _].
    destruct (obj_body o); [apply keeps_raise | apply keeps_ret].
  - apply keeps_bind; [|intros _; apply keeps_ret].
    apply quiet_set_s3_revision; [assumption|]. now intros b [= <-].
Qed.

Lemma quiet_first_upload_revision (C : svn_client) (cmd : Command)
    (r : s3_revision) :
  keeps (quiet dry bkt w0) (first_upload_revision C cmd r).
Proof.
  unfold first_upload_revision.
  destruct (_ =? _); [|apply keeps_ret].
  apply keeps_bind; [apply keeps_when, quiet_print|intros _].
  destruct (last _); [|apply keeps_raise].
  apply keeps_bind; [apply keeps_when, quiet_print|intros _; apply keeps_ret].
Qed.

Lemma quiet_check_repository (C : svn_client) (cmd : Command)
    (r : s3_revision) :
  keeps (quiet dry bkt w0) (check_repository C cmd r).
Proof.
  unfold check_repository.
  apply keeps_bind; [|intros _; apply keeps_ret].
  destruct (_ && _); [apply keeps_raise | apply keeps_ret].
Qed.

Lemma quiet_print_outofsync (l : list (S3File * wc_status_kind)) :
  keeps (quiet dry bkt w0) (print_outofsync l).
Proof.
  induction l as [|[f st] l IH]; simpl; [apply keeps_ret|].
  apply keeps_bind; [apply quiet_print|intros _; exact IH].
Qed.

End Quiet.

Lemma quiet_resolve (E : env) (C : svn_client) (cmd : Command)
    (bkt root : string) (w0 : world) :
  keeps (quiet (dryrun cmd) bkt w0) (resolve E C cmd bkt root).
Proof.
  unfold resolve.
  apply keeps_bind; [now apply quiet_get_s3_svn_revision|intros r0].
  apply keeps_bind; [apply quiet_first_upload_revision|intros r1].
  apply keeps_bind; [apply quiet_check_repository|intros r2].
  apply keeps_bind.
  { apply keeps_when. repeat (apply keeps_bind; [|intros _]);
      apply quiet_print. }
  intros _. apply keeps_bind; [apply keeps_when, quiet_print|intros _].
  apply keeps_ret.
Qed.

Lemma quiet_check_in_sync (C : svn_client) (dry : bool) (bkt : string)
    (files : list S3File) (w0 : world) :
  keeps (quiet dry bkt w0) (check_in_sync C files).
Proof.
  unfold check_in_sync. destruct (outofsync_files_of C files) as [|x l].
  - destruct files; [apply keeps_raise | apply keeps_ret].
  - apply keeps_bind; [apply quiet_print|intros _].
    apply keeps_bind; [apply quiet_print_outofsync|intros _].
    apply keeps_raise.
Qed.

(** With the four settings in place, [handle] is [sync]. *)
Lemma handle_sync E S O C schedule bkt key_id secret root :
  settings_ok S bkt key_id secret root ->
  handle E S O C schedule = sync E O C schedule bkt key_id secret root.
Proof.
  intros (H1 & H2 & H3 & H4 & H5 & H6). unfold handle.
  now rewrite H1, H2, H3, H4, H5, H6.
Qed.

(** ** The files reported as out of sync *)

Lemma print_outofsync_run (l : list (S3File * wc_status_kind)) (w : world) :
  exists w', print_outofsync l w = (Ok tt, w') /\
             stdout w' = stdout w ++ map outofsync_msg l /\
             s3 w' = s3 w /\ queue w' = queue w /\ calls w' = calls w /\
             processes w' = processes w.
Proof.
  revert w. induction l as [|[f st] l IH]; intros w; simpl.
  - exists w. rewrite app_nil_r. repeat split; reflexivity.
  - destruct (IH (add_msg (MsgOutOfSyncFile (filename f) st) w))
      as (w' & R & Ho & Hs & Hq & Hc & Hp).
    exists w'. split; [exact R|]. rewrite Ho. simpl.
    rewrite <- app_assoc. repeat split; assumption.
Qed.

Lemma outofsync_files_elem (C : svn_client) (files : list S3File)
    (f : S3File) (st : wc_status_kind) :
  (f, st) ∈ outofsync_files_of C files <->
  f ∈ files /\
  exists rest, svn_status C (filename f) = st :: rest /\
               is_normal_status st = false.
Proof.
  unfold outofsync_files_of. rewrite list_elem_of_omap. split.
  - intros (g & Hg & Ho). unfold outofsync_file in Ho.
    destruct (svn_status C (filename g)) as [|s rest] eqn:S; [discriminate|].
    destruct (is_normal_status s) eqn:N; [discriminate|].
    inversion Ho; subst. eauto.
  - intros (Hf & rest & S & N). exists f. split; [assumption|].
    unfold outofsync_file. now rewrite S, N.
Qed.

Lemma check_in_sync_abort (C : svn_client) (files : list S3File) (w : world) :
  outofsync_files_of C files <> [] ->
  exists w', check_in_sync C files w = (Raise (SystemExit 1), w') /\
    stdout w' = stdout w ++
      MsgOutOfSync :: map outofsync_msg (outofsync_files_of C files).
Proof.
  intros Hne. unfold check_in_sync.
  destruct (outofsync_files_of C files) as [|x l]; [congruence|].
  destruct (print_outofsync_run (x :: l) (add_msg MsgOutOfSync w))
    as (w' & R & Ho & _).
  exists w'. split.
  - rewrite (bind_ok (print MsgOutOfSync) _ w tt (add_msg MsgOutOfSync w)
               eq_refl).
    cbn beta. rewrite (bind_ok _ _ _ _ _ R). reflexivity.
  - rewrite Ho. simpl. now rewrite <- app_assoc.
Qed.

(** C2, as amended.  When the change set that a run computes holds a file
    whose working-copy status is not [normal], [handle] prints the report,
    with a line for each such file, and exits with code 1; nothing was put on
    the queue, no process was started, every bucket other than the one of
    the checkpoint is as it was, and the calls made on S3 were those made
    for the checkpoint. *)
Theorem out_of_sync_aborts_before_dispatch
    (E : env) (S : settings) (O : options) (C : svn_client)
    (schedule : list sched_event) (bkt key_id secret root : string)
    (w w1 : world) (rev : s3_revision) (files : list S3File) :
  settings_ok S bkt key_id secret root ->
  resolve E C (command_of O) bkt root w = (Ok (rev, files), w1) ->
  (exists f st rest, f ∈ files /\ svn_status C (filename f) = st :: rest /\
                     is_normal_status st = false) ->
  exists w2,
    handle E S O C schedule w = (Raise (SystemExit 1), w2) /\
    stdout w2 = stdout w1 ++
      MsgOutOfSync :: map outofsync_msg (outofsync_files_of C files) /\
    (forall f st rest,
        f ∈ files -> svn_status C (filename f) = st :: rest ->
        is_normal_status st = false ->
        MsgOutOfSyncFile (filename f) st ∈ stdout w2) /\
    queue w2 = queue w /\
    processes w2 = processes w /\
    (forall b, b <> svn_bucket_name bkt -> s3 w2 !! b = s3 w !! b) /\
    exists d, calls w2 = calls w ++ d /\ Forall (checkpoint_call bkt) d.
Proof.
  intros Hset Hres (f0 & st0 & rest0 & Hin0 & Hst0 & Hn0).
  assert (outofsync_files_of C files <> []) as Hne.
  { intros Hnil.
    assert ((f0, st0) ∈ outofsync_files_of C files) as Hin
      by (apply outofsync_files_elem; eauto).
    rewrite Hnil in Hin. now apply elem_of_nil in Hin. }
  destruct (check_in_sync_abort C files w1 Hne) as (w2 & Hrun & Hout).
  exists w2.
  assert (quiet (opt_dryrun O) bkt w w2) as [].
  { eapply (quiet_check_in_sync C); [|exact Hrun].
    eapply (quiet_resolve E C (command_of O)); [apply quiet_refl|exact Hres]. }
  split; [|split; [exact Hout|split; [|auto]]].
  - rewrite (handle_sync _ _ _ _ _ _ _ _ _ Hset). unfold sync.
    erewrite bind_ok by exact Hres. cbn beta iota.
    erewrite bind_raise by exact Hrun. reflexivity.
  - intros f st rest Hin Hst Hn. rewrite Hout.
    apply elem_of_app. right. apply elem_of_cons. right.
    apply (list_elem_of_fmap_2 outofsync_msg _ (f, st)).
    apply outofsync_files_elem. eauto.
Qed.

Lemma out_of_sync_aborts_witness :
  exists rev files w1,
    resolve (Demo.E Demo.no_fault) (Demo.svn (Demo.edited "/media/b.js"))
      (command_of (Demo.opts false 2)) "media" "/media" (Demo.synced_at 37)
    = (Ok (rev, files), w1) /\
    Demo.upload "b.js" ∈ files /\
    exists w2,
      handle (Demo.E Demo.no_fault) Demo.conf (Demo.opts false 2)
        (Demo.svn (Demo.edited "/media/b.js")) [] (Demo.synced_at 37)
      = (Raise (SystemExit 1), w2) /\
      MsgOutOfSyncFile "/media/b.js" st_modified ∈ stdout w2 /\
      queue w2 = [] /\ processes w2 = [].
Proof.
  eexists _, _, _. split; [vm_compute; reflexivity|].
  split; [vm_compute; apply list_elem_of_In; simpl; tauto|].
  edestruct (out_of_sync_aborts_before_dispatch
               (Demo.E Demo.no_fault) Demo.conf (Demo.opts false 2)
               (Demo.svn (Demo.edited "/media/b.js")) [] "media" "id"
               "secret" "/media" (Demo.synced_at 37))
    as (w2 & Hrun & _ & Hmsg & Hq & Hp & _).
  - repeat split; reflexivity.
  - vm_compute; reflexivity.
  - exists (Demo.upload "b.js"), st_modified, [].
    split; [vm_compute; apply list_elem_of_In; simpl; tauto|].
    split; reflexivity.
  - exists w2. split; [exact Hrun|]. split; [|split; assumption].
    apply (Hmsg (Demo.upload "b.js") st_modified []);
      [vm_compute; apply list_elem_of_In; simpl; tauto|reflexivity..].
Defined.

(** C2, as stated, fails: the exit code of the out-of-sync abort is not
    distinct.  A run that aborts because [b.js] is modified locally and a run
    whose only worker fails with an exception on the upload of [b.js] both
    exit with code 1. *)
Lemma out_of_sync_exit_code_not_distinct :
  fst (handle (Demo.E Demo.no_fault) Demo.conf (Demo.opts false 1)
         (Demo.svn (Demo.edited "/media/b.js")) [] (Demo.synced_at 37))
  = Raise (SystemExit 1) /\
  let failed :=
    handle (Demo.E (Demo.fault_at "b.js" S3ResponseError)) Demo.conf
      (Demo.opts false 1) (Demo.svn Demo.clean) [] (Demo.synced_at 37) in
  fst failed = Raise (SystemExit 1) /\
  exitcode <$> processes (snd failed) = [Some 1].
Proof. vm_compute. repeat split; reflexivity. Qed.

(** C8, as amended.  The gzip-variant key transform is injective, and it
    maps no key to itself: two distinct primary keys have distinct gzip
    keys, and the gzip key of a primary key differs from that key. *)
Theorem gz_key_distinct (k1 k2 : string) :
  k1 <> k2 -> gz_key k1 <> gz_key k2 /\ gz_key k1 <> k1.
Proof.
  intros Hne. split.
  - intros H. apply Hne. now apply gz_key_injective.
  - apply gz_key_neq.
Qed.

Lemma gz_key_distinct_witness :
  "css/site.css" <> "js/app.js" /\
  gz_key "css/site.css" <> gz_key "js/app.js" /\
  gz_key "css/site.css" <> "css/site.css".
Proof.
  split; [discriminate|].
  apply (gz_key_distinct "css/site.css" "js/app.js"). discriminate.
Defined.

(** C8, as stated, fails: a primary key can be the gzip key of another
    primary key.  [app.gz.js] is the key under which the gzip variant of
    [app.js] is stored. *)
Lemma gz_key_meets_primary_key :
  ~ (forall k1 k2 : string, k1 <> k2 -> k1 <> gz_key k2).
Proof.
  intros H. apply (H "app.gz.js" "app.js"); [discriminate|reflexivity].
Qed.

(** ** What [upload_s3] and [delete_s3] do, step by step *)

Ltac run_monad :=
  unfold mbind, M_bind, gets, when, in_world, print, modify, delete_key,
    get_key, make_public, guarded_write, set_contents_from_string,
    os_stat_mtime, open_read, mret, M_ret, raise, attempt; simpl.

Lemma check_unchanged_forced E f p :
  do_force (self p) = true -> check_unchanged E f p = (Ok false, p).
Proof.
  intros F. unfold check_unchanged. run_monad. rewrite F. simpl. now destruct p.
Qed.

Lemma check_unchanged_absent E f p :
  do_force (self p) = false ->
  bucket_of (aws_bucket (self p)) (s3 (wld p)) !! file_key f = None ->
  check_unchanged E f p = (Ok false, asked (file_key f) p).
Proof.
  intros F L. unfold check_unchanged. run_monad. rewrite F. simpl. rewrite L.
  reflexivity.
Qed.

Lemma check_unchanged_older E f p o file :
  do_force (self p) = false ->
  bucket_of (aws_bucket (self p)) (s3 (wld p)) !! file_key f = Some o ->
  fs E !! filename f = Some file ->
  last_modified o <= st_mtime file ->
  check_unchanged E f p = (Ok false, asked (file_key f) p).
Proof.
  intros F L Hf Ht. unfold check_unchanged. run_monad. rewrite F. simpl.
  rewrite L, Hf. simpl.
  destruct (Z.ltb_spec (st_mtime file) (last_modified o)); [lia|reflexivity].
Qed.

Lemma check_unchanged_newer E f p o file :
  do_force (self p) = false ->
  bucket_of (aws_bucket (self p)) (s3 (wld p)) !! file_key f = Some o ->
  fs E !! filename f = Some file ->
  st_mtime file < last_modified o ->
  exists p', check_unchanged E f p = (Ok true, p') /\
    self p' = incr_skip_count (self p) /\
    s3 (wld p') = s3 (wld p) /\ queue (wld p') = queue (wld p) /\
    calls (wld p') = calls (wld p) ++ [GetKey (aws_bucket (self p)) (file_key f)].
Proof.
  intros F L Hf Ht. unfold check_unchanged. run_monad. rewrite F. simpl.
  rewrite L, Hf. simpl.
  destruct (Z.ltb_spec (st_mtime file) (last_modified o)); [|lia].
  destruct (1 <? verbosity (self p)); simpl; eexists; repeat split; reflexivity.
Qed.

Lemma send_file_dry E f p file :
  dry_run (self p) = true -> fs E !! filename f = Some file ->
  exists p', send_file E f p = (Ok tt, p') /\
    self p' = incr_upload_count (self p) /\
    s3 (wld p') = s3 (wld p) /\ calls (wld p') = calls (wld p) /\
    queue (wld p') = queue (wld p).
Proof.
  intros D Hf. unfold send_file, write_step. run_monad. rewrite Hf, D. simpl.
  rewrite andb_false_r.
  destruct (0 <? verbosity (self p)), (do_expires (self p)),
    (1 <? verbosity (self p)); simpl;
    eexists; repeat split; reflexivity.
Qed.

Lemma send_file_fault E f p file e :
  dry_run (self p) = false -> fs E !! filename f = Some file ->
  write_fault E (file_key f) = Some e ->
  exists p',
    send_file E f p =
      (if is_S3CreateError e then Ok tt else Raise e, p') /\
    self p' = self p /\ s3 (wld p') = s3 (wld p) /\
    queue (wld p') = queue (wld p) /\
    calls (wld p') = calls (wld p) ++
      [SetContents (aws_bucket (self p)) (file_key f)
         (FileBody (filedata file)) (send_headers E (self p) f)] /\
    (if is_S3CreateError e then MsgFailed e else MsgException e)
      ∈ stdout (wld p').
Proof.
  intros D Hf We. unfold send_file, write_step, send_headers. run_monad.
  rewrite Hf, D. simpl.
  destruct (0 <? verbosity (self p)), (do_expires (self p)),
    (1 <? verbosity (self p)); simpl; rewrite We; simpl;
    destruct (is_S3CreateError e); simpl;
    eexists; (split; [reflexivity|]); simpl;
    (repeat split; try reflexivity; try (now destruct p));
    apply elem_of_app; right; apply elem_of_cons; now left.
Qed.

Lemma send_file_written E f p file :
  dry_run (self p) = false -> fs E !! filename f = Some file ->
  write_fault E (file_key f) = None ->
  (gzip_eligible E (self p) f (filedata file) = true ->
   write_fault E (gz_key (file_key f)) = None) ->
  let b := aws_bucket (self p) in
  let hs := send_headers E (self p) f in
  let gz := gz_key (file_key f) in
  let gz_calls :=
    if gzip_eligible E (self p) f (filedata file)
    then [SetContents b gz (FileBody (compress_string E (filedata file)))
            (gzip_headers hs);
          MakePublic b gz]
    else [] in
  exists p',
    send_file E f p = (Ok tt, p') /\
    self p' = incr_upload_count (self p) /\
    queue (wld p') = queue (wld p) /\
    calls (wld p') = calls (wld p) ++
      SetContents b (file_key f) (FileBody (filedata file)) hs ::
      MakePublic b (file_key f) :: gz_calls /\
    (forall b', b' <> b -> s3 (wld p') !! b' = s3 (wld p) !! b') /\
    bucket_of b (s3 (wld p')) =
      (if gzip_eligible E (self p) f (filedata file)
       then <[gz := uploaded E (compress_string E (filedata file))
                      (gzip_headers hs)]>
       else id)
        (<[file_key f := uploaded E (filedata file) hs]>
           (bucket_of b (s3 (wld p)))).
Proof.
  intros D Hf W1 W2 b hs gz gz_calls. subst b hs gz gz_calls.
  revert W2. unfold gzip_eligible, send_headers.
  unfold send_file, write_step. run_monad.
  rewrite Hf, D. simpl. rewrite W1. simpl. rewrite andb_true_r.
  destruct (do_gzip (self p)); simpl;
    [destruct ((1024 <? Z.of_nat (String.length (filedata file)))
               && in_gzip_content_types (guess_type E (filename f))) eqn:G|];
    simpl; intros W2; rewrite ?W2 by reflexivity;
    destruct (0 <? verbosity (self p)), (do_expires (self p)),
      (1 <? verbosity (self p)); simpl;
    try (destruct (Z.of_nat (String.length (filedata file)) <? 1024); simpl).
  all: try (destruct (in_gzip_content_types (guess_type E (filename f))); simpl).
  all: eexists; (split; [reflexivity|]); simpl.
  all: rewrite <- ?app_assoc; simpl.
  all: repeat split; try reflexivity.
  all: try (intros b' Hb'; rewrite !lookup_insert_ne by congruence; reflexivity).
  all: rewrite !bucket_of_insert, ?alter_insert_eq; try reflexivity.
Qed.

Lemma send_file_calls E f p r p' :
  send_file E f p = (r, p') ->
  skip_count (self p') = skip_count (self p) /\
  exists d, calls (wld p') = calls (wld p) ++ d /\
    Forall (fun c => is_GetKey c = false) d /\
    ((forall file, fs E !! filename f = Some file ->
        gzip_eligible E (self p) f (filedata file) = false) ->
     Forall (fun c => ~ writes_key (gz_key (file_key f)) c) d /\
     bucket_of (aws_bucket (self p)) (s3 (wld p')) !! gz_key (file_key f) =
     bucket_of (aws_bucket (self p)) (s3 (wld p)) !! gz_key (file_key f)).
Proof.
  assert (forall b c h, ~ writes_key (gz_key (file_key f))
                          (SetContents b (file_key f) c h)) as Hw.
  { intros b c h (b' & c' & h' & [= _ H _ _]). symmetry in H.
    revert H. apply gz_key_neq. }
  assert (forall b k, ~ writes_key (gz_key (file_key f)) (MakePublic b k)) as Hm.
  { intros b k (b' & c' & h' & [=]). }
  assert (gz_key (file_key f) <> file_key f) as Hne by apply gz_key_neq.
  unfold gzip_eligible, send_file, write_step. run_monad.
  destruct (fs E !! filename f) as [file|] eqn:Hf; simpl.
  2:{ destruct (0 <? verbosity (self p)); intros [= <- <-]; simpl;
      (split; [reflexivity|]); exists []; rewrite app_nil_r;
      repeat split; constructor. }
  destruct (dry_run (self p)) eqn:D; simpl; rewrite ?andb_false_r.
  - destruct (0 <? verbosity (self p)), (do_expires (self p)),
      (1 <? verbosity (self p)); simpl; intros [= <- <-]; simpl;
      (split; [reflexivity|]); exists []; rewrite app_nil_r;
      repeat split; constructor.
  - rewrite andb_true_r.
    destruct (write_fault E (file_key f)) as [e|] eqn:W1; simpl.
    + destruct (0 <? verbosity (self p)), (do_expires (self p)),
        (1 <? verbosity (self p)), (is_S3CreateError e); simpl;
        intros [= <- <-]; simpl; (split; [reflexivity|]);
        eexists; (split; [reflexivity|]);
        repeat split; repeat constructor; auto.
    + destruct (do_gzip (self p)); simpl.
      * destruct ((1024 <? Z.of_nat (String.length (filedata file)))
                  && in_gzip_content_types (guess_type E (filename f))) eqn:G;
          simpl.
        -- destruct (write_fault E (gz_key (file_key f))) as [e|] eqn:W2;
             simpl;
             destruct (0 <? verbosity (self p)), (do_expires (self p)),
               (1 <? verbosity (self p)); simpl;
             try (destruct (is_S3CreateError e); simpl);
             intros [= <- <-]; simpl; (split; [reflexivity|]);
             rewrite <- ?app_assoc; simpl;
             eexists; (split; [reflexivity|]);
             (split; [repeat constructor|]);
             intros He; specialize (He file eq_refl); simpl in He;
             rewrite G in He; discriminate He.
        -- destruct (0 <? verbosity (self p)), (do_expires (self p)),
             (1 <? verbosity (self p)); simpl;
             try (destruct (Z.of_nat (String.length (filedata file)) <? 1024);
                  simpl);
             try (destruct (in_gzip_content_types
                              (guess_type E (filename f))); simpl);
             intros [= <- <-]; simpl; (split; [reflexivity|]);
             rewrite <- ?app_assoc; simpl;
             eexists; (split; [reflexivity|]);
             (split; [repeat constructor|]);
             intros _; (split; [repeat constructor; auto|]);
             rewrite !bucket_of_insert, lookup_alter_ne, lookup_insert_ne
               by auto; reflexivity.
      * destruct (0 <? verbosity (self p)), (do_expires (self p)),
          (1 <? verbosity (self p)); simpl;
          intros [= <- <-]; simpl; (split; [reflexivity|]);
          rewrite <- ?app_assoc; simpl;
          eexists; (split; [reflexivity|]);
          (split; [repeat constructor|]);
          intros _; (split; [repeat constructor; auto|]);
          rewrite !bucket_of_insert, lookup_alter_ne, lookup_insert_ne
            by auto; reflexivity.
Qed.

(** Whatever it returns, the check leaves the worker's attributes, S3 and the
    queue as they were, and has asked for the key exactly when [do_force] is
    off. *)
Lemma check_unchanged_calls E f p r p1 :
  check_unchanged E f p = (r, p1) ->
  config (self p1) = config (self p) /\
  upload_count (self p1) = upload_count (self p) /\
  s3 (wld p1) = s3 (wld p) /\ queue (wld p1) = queue (wld p) /\
  calls (wld p1) = calls (wld p) ++
    (if do_force (self p) then []
     else [GetKey (aws_bucket (self p)) (file_key f)]) /\
  (r = Ok false -> self p1 = self p /\ stdout (wld p1) = stdout (wld p)).
Proof.
  unfold check_unchanged. run_monad.
  destruct (do_force (self p)); simpl.
  - intros [= <- <-]. rewrite app_nil_r. repeat split; reflexivity.
  - destruct (bucket_of _ _ !! _) as [o|]; simpl.
    + destruct (fs E !! filename f) as [file|]; simpl.
      * destruct (st_mtime file <? last_modified o); simpl.
        -- destruct (1 <? verbosity (self p)); simpl; intros [= <- <-];
             repeat split; try reflexivity; discriminate.
        -- intros [= <- <-]. repeat split; reflexivity.
      * intros [= <- <-]. repeat split; try reflexivity; discriminate.
    + intros [= <- <-]. repeat split; reflexivity.
Qed.

(** Outside a dry run, a file that can be read is sent: the first call that
    [send_file] makes is the write of the file under its key. *)
Lemma send_file_sends E f p file :
  dry_run (self p) = false -> fs E !! filename f = Some file ->
  exists r p' rest,
    send_file E f p = (r, p') /\
    calls (wld p') = calls (wld p) ++
      SetContents (aws_bucket (self p)) (file_key f)
        (FileBody (filedata file)) (send_headers E (self p) f) :: rest.
Proof.
  intros D Hf. unfold send_file, write_step, send_headers. run_monad.
  rewrite Hf, D. simpl. rewrite andb_true_r.
  destruct (write_fault E (file_key f)) as [e|] eqn:W1; simpl.
  - destruct (0 <? verbosity (self p)), (do_expires (self p)),
      (1 <? verbosity (self p)), (is_S3CreateError e); simpl;
      do 3 eexists; split; reflexivity.
  - destruct (do_gzip (self p)); simpl;
      [destruct ((1024 <? Z.of_nat (String.length (filedata file)))
                 && in_gzip_content_types (guess_type E (filename f)));
       simpl;
       [destruct (write_fault E (gz_key (file_key f))) as [e|]; simpl|]|];
      destruct (0 <? verbosity (self p)), (do_expires (self p)),
        (1 <? verbosity (self p)); simpl;
      try (destruct (is_S3CreateError e); simpl);
      try (destruct (Z.of_nat (String.length (filedata file)) <? 1024);
           simpl);
      try (destruct (in_gzip_content_types (guess_type E (filename f)));
           simpl);
      do 3 eexists; (split; [reflexivity|]); simpl;
      rewrite <- ?app_assoc; reflexivity.
Qed.

Lemma upload_s3_sends E f p p1 :
  check_unchanged E f p = (Ok false, p1) ->
  upload_s3 E f p = send_file E f p1.
Proof. intros H. unfold upload_s3. now rewrite (bind_ok _ _ _ _ _ H). Qed.

Lemma upload_s3_skips E f p p1 :
  check_unchanged E f p = (Ok true, p1) ->
  upload_s3 E f p = (Ok tt, p1).
Proof. intros H. unfold upload_s3. now rewrite (bind_ok _ _ _ _ _ H). Qed.

(** C3.  The claim is that an upload without [force] is skipped when the
    remote object exists and its last-modified time is greater than or equal
    to the modification time of the local file.  The code skips on
    [local_datetime < s3_datetime] only: when the two times are equal the
    upload is not skipped.  The skip counter stays as it was, and after the
    [get_key] call the file is written to the store under its key. *)
Theorem upload_s3_same_timestamp_is_sent
    (E : env) (f : S3File) (p : proc) (o : s3object) (file : localfile) :
  do_force (self p) = false ->
  dry_run (self p) = false ->
  bucket_of (aws_bucket (self p)) (s3 (wld p)) !! file_key f = Some o ->
  fs E !! filename f = Some file ->
  last_modified o = st_mtime file ->
  exists r p' rest,
    upload_s3 E f p = (r, p') /\
    skip_count (self p') = skip_count (self p) /\
    calls (wld p') = calls (wld p) ++
      GetKey (aws_bucket (self p)) (file_key f) ::
      SetContents (aws_bucket (self p)) (file_key f)
        (FileBody (filedata file)) (send_headers E (self p) f) :: rest.
Proof.
  intros F D L Hf Ht.
  assert (check_unchanged E f p = (Ok false, asked (file_key f) p)) as Hc
    by (eapply check_unchanged_older; eauto; lia).
  rewrite (upload_s3_sends _ _ _ _ Hc).
  destruct (send_file_sends E f (asked (file_key f) p) file D Hf)
    as (r & p' & rest & Hs & Hcalls).
  exists r, p', rest. split; [exact Hs|]. split.
  - apply send_file_calls in Hs as [Hskip _]. exact Hskip.
  - rewrite Hcalls. simpl. now rewrite <- app_assoc.
Qed.

Lemma upload_s3_same_timestamp_witness :
  exists r p' rest,
    upload_s3 (Demo.E Demo.no_fault) (Demo.upload "b.js")
      (Demo.at_work (Demo.worker false false false)
         (Demo.world_with [("b.js", Demo.stored "old" 500)] []))
    = (r, p') /\
    skip_count (self p') = 0 /\
    calls (wld p') =
      [] ++ GetKey "media" "b.js" ::
      SetContents "media" "b.js" (FileBody (Demo.bytes 1024))
        (send_headers (Demo.E Demo.no_fault)
           (Demo.worker false false false) (Demo.upload "b.js")) :: rest.
Proof.
  apply (upload_s3_same_timestamp_is_sent (Demo.E Demo.no_fault)
           (Demo.upload "b.js")
           (Demo.at_work (Demo.worker false false false)
              (Demo.world_with [("b.js", Demo.stored "old" 500)] []))
           (Demo.stored "old" 500)
           {| filedata := Demo.bytes 1024; st_mtime := 500 |});
    reflexivity.
Defined.

(** A file whose remote object is strictly newer is skipped: one [get_key]
    call, nothing written, and the skip counter goes up by one. *)
Lemma upload_s3_newer_is_skipped
    (E : env) (f : S3File) (p : proc) (o : s3object) (file : localfile) :
  do_force (self p) = false ->
  bucket_of (aws_bucket (self p)) (s3 (wld p)) !! file_key f = Some o ->
  fs E !! filename f = Some file ->
  st_mtime file < last_modified o ->
  exists p',
    upload_s3 E f p = (Ok tt, p') /\
    skip_count (self p') = skip_count (self p) + 1 /\
    upload_count (self p') = upload_count (self p) /\
    s3 (wld p') = s3 (wld p) /\
    calls (wld p') = calls (wld p) ++
      [GetKey (aws_bucket (self p)) (file_key f)].
Proof.
  intros F L Hf Ht.
  destruct (check_unchanged_newer E f p o file F L Hf Ht)
    as (p' & Hc & Hself & Hs3 & _ & Hcalls).
  exists p'. rewrite (upload_s3_skips _ _ _ _ Hc), Hself.
  repeat split; auto.
Qed.

(** C6.  Outside a dry run, [delete_s3] deletes the object under the key of
    the job, asks the store for the gzip-variant key, the one that [gz_key]
    gives, and deletes that object too when it exists.  After the call
    neither of the two keys is in the bucket, the other keys are as they
    were, and the delete counter has gone up by one, the two other counters
    being as they were. *)
Theorem delete_s3_cleans_both_keys (f : S3File) (p : proc) :
  dry_run (self p) = false ->
  let b := aws_bucket (self p) in
  let gz := gz_key (file_key f) in
  exists p',
    delete_s3 f p = (Ok tt, p') /\
    bucket_of b (s3 (wld p')) !! file_key f = None /\
    bucket_of b (s3 (wld p')) !! gz = None /\
    (forall k, k <> file_key f -> k <> gz ->
       bucket_of b (s3 (wld p')) !! k = bucket_of b (s3 (wld p)) !! k) /\
    calls (wld p') =
      calls (wld p) ++ DeleteKey b (file_key f) :: GetKey b gz ::
        match bucket_of b (s3 (wld p)) !! gz with
        | Some _ => [DeleteKey b gz]
        | None => []
        end /\
    delete_count (self p') = delete_count (self p) + 1 /\
    upload_count (self p') = upload_count (self p) /\
    skip_count (self p') = skip_count (self p).
Proof.
  intros D b gz. subst b gz. unfold delete_s3. run_monad. rewrite D.
  assert (file_key f <> gz_key (file_key f)) as Hne
    by (intros H; symmetry in H; revert H; apply gz_key_neq).
  destruct (0 <? verbosity (self p)); simpl; rewrite bucket_of_insert;
    rewrite (lookup_delete_ne _ _ _ Hne);
    destruct (bucket_of (aws_bucket (self p)) (s3 (wld p))
                !! gz_key (file_key f)) as [o|] eqn:G;
    simpl; eexists; (split; [reflexivity|]); simpl;
    rewrite ?bucket_of_insert, <- ?app_assoc; simpl.
  all: repeat split; try reflexivity.
  all: try (rewrite lookup_delete_ne by (apply gz_key_neq)).
  all: try apply lookup_delete_eq.
  all: try (rewrite lookup_delete_ne by exact Hne; exact G).
  all: intros k H1 H2; rewrite !lookup_delete_ne by congruence; reflexivity.
Qed.

Lemma delete_s3_cleans_both_keys_witness :
  exists p',
    delete_s3 (Demo.remove "a.css")
      (Demo.at_work (Demo.worker true false true)
         (Demo.world_with [("a.css", Demo.stored "css" 10);
                           ("a.gz.css", Demo.stored "gzipped" 10);
                           ("b.js", Demo.stored "js" 10)] []))
    = (Ok tt, p') /\
    bucket_of "media" (s3 (wld p')) !! "a.css" = None /\
    bucket_of "media" (s3 (wld p')) !! "a.gz.css" = None /\
    bucket_of "media" (s3 (wld p')) !! "b.js" = Some (Demo.stored "js" 10) /\
    delete_count (self p') = 1.
Proof.
  destruct (delete_s3_cleans_both_keys (Demo.remove "a.css")
              (Demo.at_work (Demo.worker true false true)
                 (Demo.world_with [("a.css", Demo.stored "css" 10);
                                   ("a.gz.css", Demo.stored "gzipped" 10);
                                   ("b.js", Demo.stored "js" 10)] []))
              eq_refl)
    as (p' & Hrun & Hkey & Hgz & Hother & _ & Hcount & _).
  exists p'. split; [exact Hrun|]. split; [exact Hkey|].
  split; [exact Hgz|]. split; [|exact Hcount].
  rewrite Hother; [reflexivity|discriminate|discriminate].
Defined.

(** C4, as amended.  A worker takes an upload off the queue, the file is not
    skipped and can be read, and the store answers the write of the file
    with an exception.  The upload counter is not incremented.  When the
    exception is an [S3CreateError] it is caught and [Failed: ...] is
    printed: the turn of the loop ends normally and the loop goes on with the
    rest of the queue.  Any other exception is printed and raised again: it
    leaves [upload_s3] and ends [run], and the rest of the queue stays where
    it is. *)
Theorem write_errors_in_run
    (E : env) (f : S3File) (rest : list S3File) (p p1 : proc)
    (file : localfile) (e : exn) :
  queue (wld p) = f :: rest ->
  do_delete f = false ->
  dry_run (self p) = false ->
  check_unchanged E f (on_wld (set_queue rest) p) = (Ok false, p1) ->
  fs E !! filename f = Some file ->
  write_fault E (file_key f) = Some e ->
  exists p',
    queue (wld p') = rest /\
    upload_count (self p') = upload_count (self p) /\
    if is_S3CreateError e then
      run_iteration E p = (Ok true, p') /\
      MsgFailed e ∈ stdout (wld p') /\
      (forall n, run_loop E (S n) p = run_loop E n p')
    else
      run_iteration E p = (Raise e, p') /\
      MsgException e ∈ stdout (wld p') /\
      (forall n, run_loop E (S n) p = (Raise e, p')) /\
      run E p = (Raise e, p').
Proof.
  intros Hq Hd D Hc Hf We.
  destruct (check_unchanged_calls _ _ _ _ _ Hc)
    as (_ & _ & _ & Hq1 & _ & Hself).
  destruct (Hself eq_refl) as [Hs1 _].
  assert (dry_run (self p1) = false) as D1 by now rewrite Hs1.
  destruct (send_file_fault E f p1 file e D1 Hf We)
    as (p' & Hsend & Hs' & _ & Hq' & _ & Hmsg).
  exists p'.
  assert (queue (wld p') = rest) as Hrest by now rewrite Hq', Hq1.
  assert (upload_s3 E f (on_wld (set_queue rest) p) =
          (if is_S3CreateError e then Ok tt else Raise e, p')) as Hup
    by now rewrite (upload_s3_sends _ _ _ _ Hc).
  assert (run_iteration E p =
          (if is_S3CreateError e then Ok true else Raise e, p')) as Hit.
  { unfold run_iteration. unfold mbind at 1, M_bind at 1, gets at 1.
    rewrite Hq. rewrite (bind_ok (modify (on_wld (set_queue rest))) _ p tt
                           (on_wld (set_queue rest) p) eq_refl).
    cbn beta. rewrite Hd. unfold mbind, M_bind. rewrite Hup.
    now destruct (is_S3CreateError e). }
  split; [exact Hrest|]. split; [now rewrite Hs', Hs1|].
  destruct (is_S3CreateError e).
  - split; [exact Hit|]. split; [exact Hmsg|].
    intros n. simpl. now rewrite (bind_ok _ _ _ _ _ Hit).
  - split; [exact Hit|]. split; [exact Hmsg|].
    assert (forall n, run_loop E (S n) p = (Raise e, p')) as Hloop
      by (intros n; simpl; now rewrite (bind_raise _ _ _ _ _ Hit)).
    split; [exact Hloop|].
    unfold run. unfold mbind at 1, M_bind at 1, gets at 1.
    now rewrite (bind_raise _ _ _ _ _ (Hloop _)).
Qed.

Lemma write_errors_in_run_witness :
  let E := Demo.E (Demo.fault_at "b.js" S3CreateError) in
  let p := Demo.at_work (Demo.worker true false true)
             (Demo.world_with [] [Demo.upload "b.js";
                                  Demo.upload "img/c.png"]) in
  exists p',
    queue (wld p') = [Demo.upload "img/c.png"] /\
    upload_count (self p') = 0 /\
    run_iteration E p = (Ok true, p') /\
    MsgFailed S3CreateError ∈ stdout (wld p') /\
    (forall n, run_loop E (S n) p = run_loop E n p').
Proof.
  intros E p.
  exact (write_errors_in_run E (Demo.upload "b.js") [Demo.upload "img/c.png"]
           p (on_wld (set_queue [Demo.upload "img/c.png"]) p)
           {| filedata := Demo.bytes 1024; st_mtime := 500 |} S3CreateError
           eq_refl eq_refl eq_refl eq_refl eq_refl eq_refl).
Defined.

(** C4, as stated, fails: an exception other than [S3CreateError] ends the
    worker.  The store answers the write of [b.js] with an
    [S3ResponseError]: [run] raises it, [img/c.png] is still in the queue and
    nothing was written for it. *)
Lemma worker_stops_at_other_exception :
  let r := run (Demo.E (Demo.fault_at "b.js" S3ResponseError))
             (Demo.at_work (Demo.worker true false true)
                (Demo.world_with [] [Demo.upload "b.js";
                                     Demo.upload "img/c.png"])) in
  fst r = Raise S3ResponseError /\
  queue (wld (snd r)) = [Demo.upload "img/c.png"] /\
  bucket_of "media" (s3 (wld (snd r))) !! "img/c.png" = None /\
  length (calls (wld (snd r))) = 1%nat.
Proof. vm_compute. repeat split; reflexivity. Qed.

(** C5, as amended.  An upload is executed with gzip enabled, outside a dry
    run, for a file that can be read and whose content type is one of
    [GZIP_CONTENT_TYPES].  When the file has 1024 bytes or fewer, no object
    is written under the gzip-variant key, whatever else happens, and this
    is no error: a file that is not skipped and whose write the store
    accepts counts as uploaded.  When the file has more than 1024 bytes, is
    not skipped by the timestamp check, and the store accepts the two
    writes, a second object is written under [gz_key] of the key: it holds
    the compressed bytes, carries [Content-Encoding: gzip], and is made
    public. *)
Theorem gzip_variant_written_over_1024
    (E : env) (f : S3File) (p : proc) (file : localfile) :
  do_gzip (self p) = true ->
  dry_run (self p) = false ->
  in_gzip_content_types (guess_type E (filename f)) = true ->
  fs E !! filename f = Some file ->
  let b := aws_bucket (self p) in
  let gz := gz_key (file_key f) in
  let size := Z.of_nat (String.length (filedata file)) in
  let hs := send_headers E (self p) f in
  (size <= 1024 ->
   (forall r p', upload_s3 E f p = (r, p') ->
      bucket_of b (s3 (wld p')) !! gz = bucket_of b (s3 (wld p)) !! gz /\
      exists d, calls (wld p') = calls (wld p) ++ d /\
                Forall (fun c => ~ writes_key gz c) d) /\
   (forall p1, check_unchanged E f p = (Ok false, p1) ->
      write_fault E (file_key f) = None ->
      exists p', upload_s3 E f p = (Ok tt, p') /\
                 upload_count (self p') = upload_count (self p) + 1)) /\
  (1024 < size ->
   forall p1, check_unchanged E f p = (Ok false, p1) ->
     write_fault E (file_key f) = None ->
     write_fault E gz = None ->
     exists p',
       upload_s3 E f p = (Ok tt, p') /\
       upload_count (self p') = upload_count (self p) + 1 /\
       calls (wld p') = calls (wld p1) ++
         [SetContents b (file_key f) (FileBody (filedata file)) hs;
          MakePublic b (file_key f);
          SetContents b gz (FileBody (compress_string E (filedata file)))
            (gzip_headers hs);
          MakePublic b gz] /\
       bucket_of b (s3 (wld p')) !! gz =
         Some (uploaded E (compress_string E (filedata file))
                 (gzip_headers hs)) /\
       gzip_headers hs !! "Content-Encoding" = Some "gzip").
Proof.
  intros G D T Hf b gz size hs. subst b gz size hs. split.
  - intros Hsize.
    assert (forall k, config k = config (self p) ->
              gzip_eligible E k f (filedata file) = false) as Hel.
    { intros k Hk. unfold gzip_eligible.
      destruct (Z.ltb_spec 1024 (Z.of_nat (String.length (filedata file))));
        [lia|]. now rewrite andb_false_r. }
    split.
    + intros r p' Hup. unfold upload_s3 in Hup.
      apply bind_inv in Hup as [(u & p1 & Hc & Hup) | (e & Hc & _)].
      * destruct (check_unchanged_calls _ _ _ _ _ Hc)
          as (Hcfg & _ & Hs3 & _ & Hcalls & _).
        destruct (config_fields _ _ Hcfg) as (_ & Hb & _).
        destruct u.
        -- inversion Hup; subst. rewrite Hs3. split; [reflexivity|].
           eexists. split; [exact Hcalls|].
           destruct (do_force (self p)); repeat constructor.
           intros (? & ? & ? & [=]).
        -- apply send_file_calls in Hup as (_ & d & Hd & _ & Hsmall).
           destruct Hsmall as [Hw Hgz].
           { intros file' Hf'. rewrite Hf in Hf'. inversion Hf'; subst.
             now apply Hel. }
           rewrite Hb, Hs3 in Hgz. split; [exact Hgz|].
           eexists. rewrite Hd, Hcalls, <- app_assoc. split; [reflexivity|].
           apply Forall_app. split; [|exact Hw].
           destruct (do_force (self p)); repeat constructor.
           intros (? & ? & ? & [=]).
      * destruct (check_unchanged_calls _ _ _ _ _ Hc)
          as (_ & _ & Hs3 & _ & Hcalls & _).
        rewrite Hs3. split; [reflexivity|].
        eexists. split; [exact Hcalls|].
        destruct (do_force (self p)); repeat constructor.
        intros (? & ? & ? & [=]).
    + intros p1 Hc W1.
      destruct (check_unchanged_calls _ _ _ _ _ Hc)
        as (_ & _ & _ & _ & _ & Hself).
      destruct (Hself eq_refl) as [Hs1 _].
      destruct (send_file_written E f p1 file) as (p' & Hs & Hself' & _);
        auto; try congruence.
      { rewrite Hel by now rewrite Hs1. discriminate. }
      exists p'. rewrite (upload_s3_sends _ _ _ _ Hc). split; [exact Hs|].
      now rewrite Hself', Hs1.
  - intros Hsize p1 Hc W1 W2.
    destruct (check_unchanged_calls _ _ _ _ _ Hc)
      as (_ & _ & _ & _ & _ & Hself).
    destruct (Hself eq_refl) as [Hs1 _].
    assert (gzip_eligible E (self p1) f (filedata file) = true) as Hel.
    { unfold gzip_eligible. rewrite Hs1, G, T.
      destruct (Z.ltb_spec 1024 (Z.of_nat (String.length (filedata file))));
        [reflexivity|lia]. }
    destruct (send_file_written E f p1 file)
      as (p' & Hs & Hself' & _ & Hcalls & _ & Hbucket); auto; try congruence.
    exists p'. rewrite (upload_s3_sends _ _ _ _ Hc). split; [exact Hs|].
    rewrite Hel in Hcalls, Hbucket. rewrite Hs1 in *.
    split; [now rewrite Hself'|]. split; [exact Hcalls|].
    split; [rewrite Hbucket; apply lookup_insert_eq|].
    unfold gzip_headers. apply lookup_insert_eq.
Qed.

Lemma gzip_variant_written_witness :
  let E := Demo.E Demo.no_fault in
  let p := Demo.at_work (Demo.worker true false true)
             (Demo.world_with [] []) in
  exists p',
    upload_s3 E (Demo.upload "a.css") p = (Ok tt, p') /\
    upload_count (self p') = 1 /\
    bucket_of "media" (s3 (wld p')) !! "a.gz.css" =
      Some (uploaded E "gzipped"
              (gzip_headers
                 (send_headers E (self p) (Demo.upload "a.css")))).
Proof.
  intros E p.
  destruct (gzip_variant_written_over_1024 E (Demo.upload "a.css") p
              {| filedata := Demo.bytes 1025; st_mtime := 500 |}
              eq_refl eq_refl eq_refl eq_refl) as [_ Hbig].
  destruct (Hbig ltac:(vm_compute; reflexivity) p eq_refl eq_refl eq_refl)
    as (p' & Hrun & Hcount & _ & Hgz & _).
  exists p'. split; [exact Hrun|]. split; [exact Hcount|exact Hgz].
Defined.

(** C5, as stated, fails: with [force] off, an upload that the timestamp
    check skips writes no gzip variant, whatever the size of the file.
    [a.css] has 1025 bytes and its remote object is newer than the file:
    one [get_key] call is made and nothing is stored under [a.gz.css]. *)
Lemma gzip_variant_missing_when_skipped :
  let r := upload_s3 (Demo.E Demo.no_fault) (Demo.upload "a.css")
             (Demo.at_work (Demo.worker false false true)
                (Demo.world_with [("a.css", Demo.stored "old" 501)] [])) in
  fst r = Ok tt /\
  in_gzip_content_types
    (guess_type (Demo.E Demo.no_fault) (filename (Demo.upload "a.css")))
    = true /\
  bucket_of "media" (s3 (wld (snd r))) !! "a.gz.css" = None /\
  calls (wld (snd r)) = [GetKey "media" "a.css"] /\
  skip_count (self (snd r)) = 1.
Proof. vm_compute. repeat split; reflexivity. Qed.

(** ** Dispatch *)

Lemma worked_refl bkt dry w : worked bkt dry w w.
Proof. split; auto. exists []. now rewrite app_nil_r. Qed.

Lemma worked_trans bkt dry w1 w2 w3 :
  worked bkt dry w1 w2 -> worked bkt dry w2 w3 -> worked bkt dry w1 w3.
Proof.
  intros [B1 D1 (d1 & C1 & F1)] [B2 D2 (d2 & C2 & F2)]. split.
  - intros b Hb. rewrite B2, B1; auto.
  - intros Hd b. rewrite D2, D1; auto.
  - exists (d1 ++ d2). rewrite C2, C1, app_assoc. split; [reflexivity|].
    now apply Forall_app.
Qed.

Lemma worker_init_run n bkt key_id secret verb gzip expires force dry w :
  exists k w',
    worker_init n bkt key_id secret verb gzip expires force dry w
      = (Ok k, w') /\
    aws_bucket k = bkt /\ dry_run k = dry /\ do_force k = force /\
    skip_count k = 0 /\
    queue w' = queue w /\ processes w' = processes w /\
    worked bkt dry w w'.
Proof.
  unfold worker_init, get_or_create_bucket. run_monad.
  destruct (1 <? verb), (0 <? verb); simpl;
    destruct (s3 w !! bkt) eqn:L; simpl;
    do 2 eexists; (split; [reflexivity|]); simpl;
    repeat split; simpl; auto.
  all: try (rewrite <- ?app_assoc; eexists; split; [reflexivity|];
            now repeat constructor).
  all: try (intros b Hb; now rewrite lookup_insert_ne by congruence).
  all: intros _ b; destruct (decide (b = bkt)) as [->|Hne];
    [rewrite bucket_of_insert; unfold bucket_of; now rewrite L
    |now rewrite bucket_of_insert_ne by congruence].
Qed.

Lemma make_workers_run nums bkt key_id secret verb gzip expires dry w :
  exists ks w',
    make_workers nums bkt key_id secret verb gzip expires dry w
      = (Ok ks, w') /\
    Forall (forced bkt dry) ks /\ length ks = length nums /\
    queue w' = queue w /\ processes w' = processes w /\
    worked bkt dry w w'.
Proof.
  revert w. induction nums as [|n nums IH]; intros w; simpl.
  - exists [], w. split; [reflexivity|]. split; [constructor|].
    split; [reflexivity|]. split; [reflexivity|]. split; [reflexivity|].
    apply worked_refl.
  - destruct (worker_init_run n bkt key_id secret verb gzip expires true dry w)
      as (k & w1 & R1 & Hb & Hd & Hf & Hs & Hq1 & Hp1 & W1).
    destruct (IH w1) as (ks & w2 & R2 & Hall & Hlen & Hq2 & Hp2 & W2).
    exists (k :: ks), w2. rewrite (bind_ok _ _ _ _ _ R1). cbn beta.
    rewrite (bind_ok _ _ _ _ _ R2). cbn beta.
    split; [reflexivity|]. split; [constructor; [now repeat split|assumption]|].
    split; [simpl; congruence|]. split; [congruence|]. split; [congruence|].
    eapply worked_trans; eauto.
Qed.

Lemma pool_frame_worked bkt dry w1 w2 :
  pool_frame bkt dry w1 w2 -> worked bkt dry w1 w2.
Proof.
  intros [B D C _]. split; auto.
  intros Hd b. destruct (D Hd) as [-> _]. reflexivity.
Qed.

(** [dispatch] always returns: the processes it leaves are the forced
    workers of [handle], every one of them terminated, and there is at least
    one. *)
Lemma dispatch_run E O cmd schedule bkt key_id secret files w :
  exists w',
    dispatch E O cmd schedule bkt key_id secret files w = (Ok tt, w') /\
    worked bkt (dryrun cmd) w w' /\
    Forall (fun p => forced bkt (dryrun cmd) (target p)) (processes w') /\
    Forall (fun p => is_Some (exitcode p)) (processes w') /\
    processes w' <> [].
Proof.
  unfold dispatch.
  set (n := if opt_processes O <? 1 then 1 else opt_processes O).
  assert (1 <= n) as Hn.
  { subst n. destruct (Z.ltb_spec (opt_processes O) 1); lia. }
  destruct (make_workers_run (seqZ 0 n) bkt key_id secret (cmd_verbosity cmd)
              (opt_gzip O) (opt_expires O) (dryrun cmd)
              (set_queue (queue w ++ files) w))
    as (ks & w1 & R1 & Hall & Hlen & _ & _ & W1).
  destruct (run_pool E schedule (started <$> ks) w1) as [ps w2] eqn:R2.
  exists (set_processes ps w2).
  assert (pool_ok bkt (dryrun cmd) (started <$> ks)) as Hok.
  { unfold pool_ok. apply Forall_fmap. exact Hall. }
  destruct (run_pool_ok E bkt (dryrun cmd) w1 schedule _ _ _ _ Hok
              (pool_frame_refl _ _ _) R2) as (Hps & Hw & Hl & Hex).
  split.
  - rewrite (bind_ok (modify (fun w0 => set_queue (queue w0 ++ files) w0)) _
               w tt (set_queue (queue w ++ files) w) eq_refl). cbn beta.
    rewrite (bind_ok _ _ _ _ _ R1). cbn beta.
    unfold modify. now rewrite R2.
  - split; [|split; [exact Hps|split; [exact Hex|]]].
    + apply (worked_trans _ _ _ w1); [destruct W1; split; auto|].
      apply pool_frame_worked in Hw. destruct Hw. split; auto.
    + simpl. intros Hnil. rewrite Hnil in Hl. simpl in Hl.
      rewrite length_fmap, Hlen, length_seqZ in Hl. lia.
Qed.

(** ** The checkpoint through a run *)

Lemma checkpoint_writes_other bkt b d :
  b <> svn_bucket_name bkt ->
  Forall (fun c => call_bucket c = b) d -> checkpoint_writes bkt d = [].
Proof.
  intros Hb. induction 1 as [|c d Hc _ IH]; [reflexivity|].
  unfold checkpoint_writes in *. simpl. rewrite IH.
  destruct c; simpl in *; try reflexivity.
  destruct (String.eqb_spec bkt0 (svn_bucket_name bkt)); [congruence|].
  reflexivity.
Qed.

Lemma is_checkpoint_write_true bkt doc :
  is_checkpoint_write bkt
    (SetContents (svn_bucket_name bkt) SVN_REVISION_CONF (YamlBody doc) ∅)
  = true.
Proof. simpl. now rewrite !String.eqb_refl. Qed.

Ltac count_writes Hw :=
  repeat first
    [ rewrite checkpoint_writes_snoc_write by exact Hw
    | rewrite checkpoint_writes_snoc_other by reflexivity ].

(** [set_s3_revision], run on the bucket of the checkpoint. *)
Lemma set_s3_revision_run E cmd bkt doc bucket_instance w :
  (forall b, bucket_instance = Some b -> b = svn_bucket_name bkt) ->
  exists w',
    set_s3_revision E cmd bkt doc bucket_instance w = (Ok tt, w') /\
    if dryrun cmd then
      checkpoint_writes bkt (calls w') = checkpoint_writes bkt (calls w)
    else
      checkpoint_object bkt (s3 w') = Some (yaml_object E doc) /\
      checkpoint_writes bkt (calls w') =
        checkpoint_writes bkt (calls w) ++
        [SetContents (svn_bucket_name bkt) SVN_REVISION_CONF (YamlBody doc) ∅].
Proof.
  intros Hb. unfold set_s3_revision, get_s3_svn_bucket, get_or_create_bucket.
  pose proof (is_checkpoint_write_true bkt doc) as Hw.
  destruct bucket_instance as [b|]; [rewrite (Hb b eq_refl)|]; run_monad.
  - destruct (bucket_of _ _ !! _), (0 <? cmd_verbosity cmd),
      (dryrun cmd), (1 <? cmd_verbosity cmd); simpl;
      eexists; (split; [reflexivity|]); simpl;
      count_writes Hw; unfold checkpoint_object;
      rewrite ?bucket_of_insert, ?lookup_insert_eq;
      try split; reflexivity.
  - destruct (1 <? cmd_verbosity cmd); simpl;
      destruct (s3 w !! svn_bucket_name bkt) eqn:L; simpl;
      rewrite ?bucket_of_insert;
      destruct (_ !! SVN_REVISION_CONF), (0 <? cmd_verbosity cmd),
        (dryrun cmd); simpl;
      eexists; (split; [reflexivity|]); simpl;
      count_writes Hw; unfold checkpoint_object;
      rewrite ?bucket_of_insert, ?lookup_insert_eq;
      try split; reflexivity.
Qed.

Lemma get_s3_svn_bucket_run cmd bkt w :
  exists w1,
    get_s3_svn_bucket cmd bkt w = (Ok (svn_bucket_name bkt), w1) /\
    bucket_of (svn_bucket_name bkt) (s3 w1) =
      bucket_of (svn_bucket_name bkt) (s3 w) /\
    checkpoint_writes bkt (calls w1) = checkpoint_writes bkt (calls w).
Proof.
  unfold get_s3_svn_bucket, get_or_create_bucket. run_monad.
  destruct (1 <? cmd_verbosity cmd); simpl;
    destruct (s3 w !! svn_bucket_name bkt) as [bk|] eqn:L; simpl;
    eexists; (split; [reflexivity|]); simpl;
    rewrite ?bucket_of_insert;
    repeat (rewrite checkpoint_writes_snoc_other by reflexivity);
    (split; [|reflexivity]); try reflexivity;
    unfold bucket_of; now rewrite L.
Qed.

(** [get_s3_svn_revision]: what it returns and what it leaves in S3. *)
Lemma get_s3_svn_revision_run E cmd bkt w :
  exists w1,
    match checkpoint_object bkt (s3 w) with
    | None =>
        get_s3_svn_revision E cmd bkt w = (Ok default_s3_revision, w1) /\
        if dryrun cmd then
          checkpoint_object bkt (s3 w1) = None /\
          checkpoint_writes bkt (calls w1) = checkpoint_writes bkt (calls w)
        else
          checkpoint_object bkt (s3 w1) =
            Some (yaml_object E default_s3_revision) /\
          checkpoint_writes bkt (calls w1) =
            checkpoint_writes bkt (calls w) ++
            [SetContents (svn_bucket_name bkt) SVN_REVISION_CONF
               (YamlBody default_s3_revision) ∅]
    | Some o =>
        get_s3_svn_revision E cmd bkt w =
          (match obj_body o with
           | YamlBody doc => Ok doc
           | FileBody _ => Raise TypeError
           end, w1) /\
        checkpoint_object bkt (s3 w1) = Some o /\
        checkpoint_writes bkt (calls w1) = checkpoint_writes bkt (calls w)
    end.
Proof.
  destruct (get_s3_svn_bucket_run cmd bkt w) as (wa & Ra & Hba & Hca).
  unfold get_s3_svn_revision. rewrite (bind_ok _ _ _ _ _ Ra). cbn beta.
  rewrite (bind_ok _ _ wa (bucket_of (svn_bucket_name bkt) (s3 wa)
                             !! SVN_REVISION_CONF)
             (add_call (GetKey (svn_bucket_name bkt) SVN_REVISION_CONF) wa)
             eq_refl).
  cbn beta. rewrite Hba. unfold checkpoint_object at 1.
  set (wb := add_call (GetKey (svn_bucket_name bkt) SVN_REVISION_CONF) wa).
  assert (checkpoint_writes bkt (calls wb) = checkpoint_writes bkt (calls w))
    as Hcb.
  { subst wb. simpl. now rewrite checkpoint_writes_snoc_other by reflexivity. }
  assert (bucket_of (svn_bucket_name bkt) (s3 wb) =
          bucket_of (svn_bucket_name bkt) (s3 w)) as Hbb by exact Hba.
  destruct (bucket_of (svn_bucket_name bkt) (s3 w) !! SVN_REVISION_CONF)
    as [o|] eqn:Lo.
  - exists (add_call (ReadKey (svn_bucket_name bkt) SVN_REVISION_CONF) wb).
    split; [destruct (obj_body o); reflexivity|]. split.
    + unfold checkpoint_object. subst wb. simpl. now rewrite Hba.
    + simpl. now rewrite checkpoint_writes_snoc_other by reflexivity.
  - destruct (set_s3_revision_run E cmd bkt default_s3_revision
                (Some (svn_bucket_name bkt)) wb) as (wc & Rc & Hc).
    { now intros b [= <-]. }
    exists wc. rewrite (bind_ok _ _ _ _ _ Rc). split; [reflexivity|].
    destruct (dryrun cmd) eqn:D.
    + split; [|congruence].
      assert (quiet true bkt wb wc) as Q.
      { eapply (quiet_set_s3_revision true bkt wb E cmd); eauto.
        - now intros b [= <-].
        - apply quiet_refl. }
      unfold checkpoint_object.
      rewrite (quiet_dry _ _ _ _ Q eq_refl), Hbb. exact Lo.
    + destruct Hc as [Ho Hcw]. split; [exact Ho|]. now rewrite Hcw, Hcb.
Qed.

Lemma same_store_print w0 m : keeps (same_store w0) (print m).
Proof. apply keeps_modify. intros s [? ?]. split; assumption. Qed.

Lemma same_store_first_upload_revision w0 C cmd r :
  keeps (same_store w0) (first_upload_revision C cmd r).
Proof.
  unfold first_upload_revision.
  destruct (_ =? _); [|apply keeps_ret].
  apply keeps_bind; [apply keeps_when, same_store_print|intros _].
  destruct (last _); [|apply keeps_raise].
  apply keeps_bind;
    [apply keeps_when, same_store_print|intros _; apply keeps_ret].
Qed.

Lemma same_store_check_repository w0 C cmd r :
  keeps (same_store w0) (check_repository C cmd r).
Proof.
  unfold check_repository.
  apply keeps_bind; [|intros _; apply keeps_ret].
  destruct (_ && _); [apply keeps_raise | apply keeps_ret].
Qed.

(** When [resolve] returns, the checkpoint was loaded, and nothing was done
    to S3 after that. *)
Lemma resolve_loaded E C cmd bkt root w rev files w1 :
  resolve E C cmd bkt root w = (Ok (rev, files), w1) ->
  exists r0 wa,
    get_s3_svn_revision E cmd bkt w = (Ok r0, wa) /\
    s3 w1 = s3 wa /\ calls w1 = calls wa.
Proof.
  unfold resolve. intros H.
  apply bind_inv in H as [(r0 & wa & Ha & H) | (? & _ & [=])].
  exists r0, wa. split; [exact Ha|].
  assert (keeps (same_store wa)
    (s3_svn_revision ← first_upload_revision C cmd r0;
     s3_svn_revision ← check_repository C cmd s3_svn_revision;
     when (0 <? cmd_verbosity cmd)
       (print (MsgLocalRevision (info_revision C));;
        print (MsgS3Revision (revision s3_svn_revision));;
        print MsgRunningDiff);;
     when (0 <? cmd_verbosity cmd)
       (print (MsgFoundChanges (Z.of_nat (length
          (changed_files_of bkt root
             (diff_summarize C (revision s3_svn_revision)
                (info_revision C)))))));;
     mret (s3_svn_revision,
           changed_files_of bkt root
             (diff_summarize C (revision s3_svn_revision)
                (info_revision C))))) as K.
  { apply keeps_bind; [apply same_store_first_upload_revision|intros r1].
    apply keeps_bind; [apply same_store_check_repository|intros r2].
    apply keeps_bind.
    { apply keeps_when. repeat (apply keeps_bind; [|intros _]);
        apply same_store_print. }
    intros _. apply keeps_bind; [apply keeps_when, same_store_print|].
    intros _. apply keeps_ret. }
  exact (K wa _ w1 (conj eq_refl eq_refl) H).
Qed.

(** ** The end of a run *)

Lemma process_result_zero (codes : list Z) :
  process_result_of codes = 0 <-> Forall (fun c => c = 0) codes.
Proof.
  assert (forall l, 0 <= process_result_of l) as Hpos.
  { induction l as [|c l IH]; simpl; lia. }
  induction codes as [|c codes IH]; simpl.
  - split; [constructor|reflexivity].
  - pose proof (Hpos codes). split.
    + intros H0. constructor; [lia|]. apply IH. lia.
    + intros Hall. inversion Hall as [|? ? H1 H2]; subst.
      apply IH in H2. simpl. lia.
Qed.

Lemma quiet_finish E C cmd bkt rev w0 :
  keeps (quiet (dryrun cmd) bkt w0) (finish E C cmd bkt rev).
Proof.
  unfold finish. apply keeps_gets. intros s Hs.
  destruct (mapM exitcode (processes s)); [|apply keeps_raise].
  destruct (_ =? _); [|apply keeps_raise].
  apply keeps_bind; [apply keeps_when, quiet_print|intros _].
  apply keeps_bind; [|intros _; apply keeps_when, quiet_print].
  apply quiet_set_s3_revision; [reflexivity|discriminate].
Qed.

(** [finish], once every worker has an exit code. *)
Lemma finish_run E C cmd bkt rev w codes :
  mapM exitcode (processes w) = Some codes ->
  let doc := set_last_update (ctime E (now E))
               (set_revision (info_revision C) rev) in
  if process_result_of codes =? 0 then
    exists w',
      finish E C cmd bkt rev w = (Ok tt, w') /\
      if dryrun cmd then
        checkpoint_writes bkt (calls w') = checkpoint_writes bkt (calls w)
      else
        checkpoint_object bkt (s3 w') = Some (yaml_object E doc) /\
        checkpoint_writes bkt (calls w') =
          checkpoint_writes bkt (calls w) ++
          [SetContents (svn_bucket_name bkt) SVN_REVISION_CONF
             (YamlBody doc) ∅]
  else
    finish E C cmd bkt rev w =
      (Raise (SystemExit (process_result_of codes)), w).
Proof.
  intros Hcodes doc.
  assert (finish E C cmd bkt rev w =
          (if process_result_of codes =? 0 then
             when (0 <? cmd_verbosity cmd)
               (print (MsgUpdatingRevision (info_revision C)));;
             set_s3_revision E cmd bkt doc None;;
             when (0 <? cmd_verbosity cmd)
               (print (MsgFinished (process_result_of codes)))
           else raise (SystemExit (process_result_of codes))) w) as ->.
  { unfold finish. unfold mbind at 1, M_bind at 1, gets at 1.
    now rewrite Hcodes. }
  destruct (process_result_of codes =? 0); [|reflexivity].
  set (w1 := if 0 <? cmd_verbosity cmd
             then add_msg (MsgUpdatingRevision (info_revision C)) w else w).
  assert (when (0 <? cmd_verbosity cmd)
            (print (MsgUpdatingRevision (info_revision C))) w = (Ok tt, w1))
    as R1 by (subst w1; destruct (0 <? cmd_verbosity cmd); reflexivity).
  destruct (set_s3_revision_run E cmd bkt doc None w1) as (w2 & R2 & H2);
    [discriminate|].
  set (w3 := if 0 <? cmd_verbosity cmd
             then add_msg (MsgFinished (process_result_of codes)) w2 else w2).
  exists w3.
  rewrite (bind_ok _ _ _ _ _ R1). cbn beta.
  rewrite (bind_ok _ _ _ _ _ R2). cbn beta.
  assert (calls w3 = calls w2 /\ s3 w3 = s3 w2) as [Hc3 Hs3]
    by (subst w3; destruct (0 <? cmd_verbosity cmd); split; reflexivity).
  assert (calls w1 = calls w) as Hc1
    by (subst w1; destruct (0 <? cmd_verbosity cmd); reflexivity).
  split.
  - subst w3. destruct (0 <? cmd_verbosity cmd); reflexivity.
  - rewrite Hc3, Hs3, <- Hc1. exact H2.
Qed.

Lemma check_in_sync_ok C files w w' :
  check_in_sync C files w = (Ok tt, w') -> w' = w /\ files <> [].
Proof.
  unfold check_in_sync.
  destruct (outofsync_files_of C files) as [|x l] eqn:Ho.
  - destruct files; [discriminate|]. intros [= <-]. split; [reflexivity|].
    discriminate.
  - intros H.
    destruct (check_in_sync_abort C files w) as (w2 & R & _);
      [rewrite Ho; discriminate|].
    unfold check_in_sync in R. rewrite Ho in R. rewrite R in H. discriminate.
Qed.

(** A run of [sync] either ends before anything is dispatched, or goes
    through its four stages. *)
Lemma sync_cases E O C schedule bkt key_id secret root w r w' :
  sync E O C schedule bkt key_id secret root w = (r, w') ->
  quiet (opt_dryrun O) bkt w w' \/
  exists rev files w1 w3,
    resolve E C (command_of O) bkt root w = (Ok (rev, files), w1) /\
    quiet (opt_dryrun O) bkt w w1 /\
    files <> [] /\
    dispatch E O (command_of O) schedule bkt key_id secret files w1
      = (Ok tt, w3) /\
    finish E C (command_of O) bkt rev w3 = (r, w').
Proof.
  unfold sync. intros H.
  assert (forall r1 w1, resolve E C (command_of O) bkt root w = (r1, w1) ->
            quiet (opt_dryrun O) bkt w w1) as Q1.
  { intros r1 w1 R.
    eapply (quiet_resolve E C (command_of O)); [apply quiet_refl|exact R]. }
  apply bind_inv in H as [([rev files] & w1 & R1 & H) | (e & R1 & _)];
    [|left; eapply Q1; eauto].
  apply bind_inv in H as [([] & w2 & R2 & H) | (e & R2 & _)].
  - destruct (check_in_sync_ok _ _ _ _ R2) as [-> Hne].
    apply bind_inv in H as [([] & w3 & R3 & H) | (e & R3 & _)].
    + right. exists rev, files, w1, w3. eauto 10.
    + destruct (dispatch_run E O (command_of O) schedule bkt key_id secret
                  files w1) as (w3 & R3' & _).
      rewrite R3' in R3. discriminate.
  - left. eapply (quiet_check_in_sync C); [|exact R2]. eapply Q1; eauto.
Qed.

(** ** Dry runs *)

Lemma quiet_objects bkt w0 w :
  quiet true bkt w0 w -> forall b, bucket_of b (s3 w) = bucket_of b (s3 w0).
Proof.
  intros [_ _ Hb _ Hd _] b.
  destruct (decide (b = svn_bucket_name bkt)) as [->|Hne]; auto.
  unfold bucket_of. now rewrite Hb.
Qed.

Lemma delete_s3_dry f p r1 p1 :
  dry_run (self p) = true -> delete_s3 f p = (r1, p1) ->
  s3 (wld p1) = s3 (wld p) /\ calls (wld p1) = calls (wld p).
Proof.
  intros D. unfold delete_s3. run_monad. rewrite D. simpl.
  destruct (0 <? verbosity (self p)); intros [= _ <-]; split; reflexivity.
Qed.

Lemma upload_s3_dry E f p r1 p1 :
  dry_run (self p) = true -> upload_s3 E f p = (r1, p1) ->
  s3 (wld p1) = s3 (wld p) /\
  calls (wld p1) = calls (wld p) ++
    (if do_force (self p) then []
     else [GetKey (aws_bucket (self p)) (file_key f)]).
Proof.
  intros D H. unfold upload_s3 in H.
  apply bind_inv in H as [(u & pa & Hc & H) | (e & Hc & _)].
  - destruct (check_unchanged_calls _ _ _ _ _ Hc)
      as (Hcfg & _ & Hs3 & _ & Hcalls & _).
    destruct u; [inversion H; subst; auto|].
    destruct (config_fields _ _ Hcfg) as (_ & _ & _ & _ & _ & _ & Hd).
    assert (frame pa p1) as Fr
      by (eapply frame_send_file; [apply frame_refl|exact H]).
    destruct Fr as [_ _ Hdry (d & Hd1 & _ & Hget & _) _ _].
    apply send_file_calls in H as (_ & d' & Hd2 & Hnoget & _).
    rewrite Hd1 in Hd2. apply app_inv_head in Hd2. subst d'.
    assert (d = []) as ->.
    { specialize (Hget ltac:(congruence)).
      destruct d as [|c d]; [reflexivity|].
      inversion Hget; inversion Hnoget; subst. congruence. }
    rewrite app_nil_r in Hd1. split; [|congruence].
    rewrite Hdry by congruence. exact Hs3.
  - destruct (check_unchanged_calls _ _ _ _ _ Hc)
      as (_ & _ & Hs3 & _ & Hcalls & _). auto.
Qed.

(** C9, as amended.  In a dry run of [handle], however it ends, every
    bucket holds the objects it held before, the checkpoint among them, and
    no write of the checkpoint is made.  A worker in a dry run changes
    nothing in S3: [delete_s3] makes no call at all, and [upload_s3] makes
    no [put], [make_public] or [delete] call; it makes the one [get_key]
    call of the timestamp check exactly when [do_force] is off, and no call
    when it is on, which is how [handle] builds its workers. *)
Theorem dry_run_suppresses_writes
    (E : env) (S : settings) (O : options) (C : svn_client)
    (schedule : list sched_event) (bkt key_id secret root : string)
    (w w' : world) (r : res unit) :
  settings_ok S bkt key_id secret root ->
  opt_dryrun O = true ->
  handle E S O C schedule w = (r, w') ->
  (forall b, bucket_of b (s3 w') = bucket_of b (s3 w)) /\
  checkpoint_object bkt (s3 w') = checkpoint_object bkt (s3 w) /\
  checkpoint_writes bkt (calls w') = checkpoint_writes bkt (calls w) /\
  (forall f p r1 p1,
      dry_run (self p) = true ->
      (delete_s3 f p = (r1, p1) ->
       s3 (wld p1) = s3 (wld p) /\ calls (wld p1) = calls (wld p)) /\
      (upload_s3 E f p = (r1, p1) ->
       s3 (wld p1) = s3 (wld p) /\
       calls (wld p1) = calls (wld p) ++
         (if do_force (self p) then []
          else [GetKey (aws_bucket (self p)) (file_key f)]))).
Proof.
  intros Hset Hdry Hrun.
  rewrite (handle_sync _ _ _ _ _ _ _ _ _ Hset) in Hrun.
  assert ((forall b, bucket_of b (s3 w') = bucket_of b (s3 w)) /\
          checkpoint_writes bkt (calls w') = checkpoint_writes bkt (calls w))
    as [Hobj Hwr].
  { apply sync_cases in Hrun
      as [Q | (rev & files & w1 & w3 & R1 & Q1 & _ & R3 & R4)];
      rewrite Hdry in *.
    - split; [exact (quiet_objects _ _ _ Q) |
              exact (quiet_writes _ _ _ _ Q eq_refl)].
    - destruct (dispatch_run E O (command_of O) schedule bkt key_id secret
                  files w1) as (w3' & R3' & W3 & _).
      rewrite R3 in R3'. inversion R3'; subst w3'. clear R3'.
      assert (quiet true bkt w3 w') as Q4.
      { replace true with (dryrun (command_of O)) by exact Hdry.
        eapply quiet_finish; [apply quiet_refl|exact R4]. }
      destruct W3 as [_ Wd (d & Wc & Wf)].
      replace (dryrun (command_of O)) with true in Wd by (symmetry; exact Hdry).
      split.
      + intros b. rewrite (quiet_objects _ _ _ Q4), (Wd eq_refl).
        exact (quiet_objects _ _ _ Q1 b).
      + rewrite (quiet_writes _ _ _ _ Q4 eq_refl), Wc, checkpoint_writes_app.
        rewrite (checkpoint_writes_other bkt bkt d); auto.
        * rewrite app_nil_r. apply (quiet_writes _ _ _ _ Q1 eq_refl).
        * intros H. symmetry in H. revert H. apply svn_bucket_name_neq. }
  split; [exact Hobj|]. split; [unfold checkpoint_object; now rewrite Hobj|].
  split; [exact Hwr|].
  intros f p r1 p1 D. split.
  - now apply delete_s3_dry.
  - now apply upload_s3_dry.
Qed.

Lemma dry_run_suppresses_writes_witness :
  let E := Demo.E Demo.no_fault in
  let run := handle E Demo.conf (Demo.opts true 2) (Demo.svn Demo.clean)
               [Step 1; Step 0] (Demo.synced_at 37) in
  fst run = Ok tt /\
  checkpoint_object "media" (s3 (snd run)) = Some (Demo.checkpoint 37) /\
  checkpoint_writes "media" (calls (snd run)) = [].
Proof.
  intros E run. split; [vm_compute; reflexivity|].
  destruct (dry_run_suppresses_writes E Demo.conf (Demo.opts true 2)
              (Demo.svn Demo.clean) [Step 1; Step 0] "media" "id" "secret"
              "/media" (Demo.synced_at 37) (snd run) (fst run))
    as (_ & Hobj & Hwrites & _).
  - repeat split; reflexivity.
  - reflexivity.
  - apply surjective_pairing.
  - split; [rewrite Hobj; vm_compute; reflexivity|].
    rewrite Hwrites. reflexivity.
Defined.

(** C9, as stated, fails: a dry run does not suppress the metadata call of
    the timestamp check.  A worker with [dry_run] on and [do_force] off asks
    the store for the key of the file it is about to upload. *)
Lemma dry_run_asks_for_the_key :
  let r := upload_s3 (Demo.E Demo.no_fault) (Demo.upload "b.js")
             (Demo.at_work (Demo.worker false true true)
                (Demo.world_with [("b.js", Demo.stored "old" 10)] [])) in
  dry_run (self (snd r)) = true /\
  calls (wld (snd r)) = [GetKey "media" "b.js"].
Proof. vm_compute. split; reflexivity. Qed.

(** ** Forced uploads *)


(** ** The checkpoint and the outcome of the batch *)

Lemma worked_checkpoint bkt dry w w3 :
  worked bkt dry w w3 ->
  checkpoint_object bkt (s3 w3) = checkpoint_object bkt (s3 w) /\
  checkpoint_writes bkt (calls w3) = checkpoint_writes bkt (calls w).
Proof.
  intros [Hb _ (d & Hc & Hf)].
  assert (bkt <> svn_bucket_name bkt) as Hne
    by (intros H; symmetry in H; revert H; apply svn_bucket_name_neq).
  split.
  - unfold checkpoint_object, bucket_of. rewrite Hb; auto.
  - rewrite Hc, checkpoint_writes_app,
      (checkpoint_writes_other bkt bkt d Hne Hf).
    apply app_nil_r.
Qed.

(** What loading the checkpoint leaves behind, when it returns. *)
Lemma loaded_checkpoint E cmd bkt w r0 wa :
  get_s3_svn_revision E cmd bkt w = (Ok r0, wa) ->
  checkpoint_revision bkt (s3 wa) = checkpoint_revision bkt (s3 w) /\
  (dryrun cmd = true ->
   checkpoint_object bkt (s3 wa) = checkpoint_object bkt (s3 w)) /\
  checkpoint_writes bkt (calls wa) =
    checkpoint_writes bkt (calls w) ++ first_write (dryrun cmd) bkt (s3 w).
Proof.
  intros H. destruct (get_s3_svn_revision_run E cmd bkt w) as (w1 & Hrun).
  unfold checkpoint_revision, first_write.
  destruct (checkpoint_object bkt (s3 w)) as [o|] eqn:Lo.
  - destruct Hrun as (R & Ho & Hw). rewrite R in H.
    inversion H; subst wa. rewrite Ho, Hw, app_nil_r. auto.
  - destruct Hrun as (R & Hrest). rewrite R in H. inversion H; subst wa r0.
    destruct (dryrun cmd); destruct Hrest as [Ho Hw]; rewrite Ho, Hw.
    + rewrite app_nil_r. auto.
    + split; [reflexivity|]. split; [discriminate|reflexivity].
Qed.

(** C1, as amended.  [handle] has started its workers and they have all
    terminated.  If some worker has a non-zero exit code, [handle] exits
    with the sum of the absolute values of the exit codes, and the revision
    of the checkpoint in S3 is the one from before the run, a missing
    checkpoint reading as [-1]; the only write of the checkpoint such a run
    can have made is that of the default one, when none was found and the
    run is not a dry run.  If every worker has exit code zero, [handle]
    returns.  When the run is not a dry run, the checkpoint now in S3 has the
    current revision of the local repository as its revision and the current
    time as [last_update], and it was written once, by the last write of the
    run, after the write of the default one if none was found.  In a dry run
    the checkpoint is as it was and nothing was written. *)
Theorem checkpoint_advances_on_full_success
    (E : env) (S : settings) (O : options) (C : svn_client)
    (schedule : list sched_event) (bkt key_id secret root : string)
    (w w' : world) (r : res unit) :
  settings_ok S bkt key_id secret root ->
  processes w = [] ->
  handle E S O C schedule w = (r, w') ->
  processes w' <> [] ->
  exists codes,
    mapM exitcode (processes w') = Some codes /\
    (Exists (fun c => c <> 0) codes ->
     r = Raise (SystemExit (process_result_of codes)) /\
     process_result_of codes <> 0 /\
     checkpoint_revision bkt (s3 w') = checkpoint_revision bkt (s3 w) /\
     checkpoint_writes bkt (calls w') =
       checkpoint_writes bkt (calls w) ++ first_write (opt_dryrun O) bkt (s3 w))
    /\
    (Forall (fun c => c = 0) codes ->
     r = Ok tt /\
     if opt_dryrun O then
       checkpoint_object bkt (s3 w') = checkpoint_object bkt (s3 w) /\
       checkpoint_writes bkt (calls w') = checkpoint_writes bkt (calls w)
     else
       exists doc,
         revision doc = info_revision C /\
         last_update doc = Some (ctime E (now E)) /\
         checkpoint_object bkt (s3 w') = Some (yaml_object E doc) /\
         checkpoint_writes bkt (calls w') =
           checkpoint_writes bkt (calls w) ++
           first_write false bkt (s3 w) ++
           [SetContents (svn_bucket_name bkt) SVN_REVISION_CONF
              (YamlBody doc) ∅]).
Proof.
  intros Hset Hnil Hrun Hran.
  rewrite (handle_sync _ _ _ _ _ _ _ _ _ Hset) in Hrun.
  apply sync_cases in Hrun
    as [Q | (rev & files & w1 & w3 & R1 & Q1 & _ & R3 & R4)].
  { exfalso. apply Hran. now rewrite (quiet_processes _ _ _ _ Q). }
  destruct (resolve_loaded _ _ _ _ _ _ _ _ _ R1) as (r0 & wa & Ra & Hs1 & Hc1).
  destruct (loaded_checkpoint _ _ _ _ _ _ Ra) as (Hrev & Hdryobj & Hwa).
  change (dryrun (command_of O)) with (opt_dryrun O) in *.
  destruct (dispatch_run E O (command_of O) schedule bkt key_id secret
              files w1) as (w3' & R3' & W3 & _ & Hex & _).
  rewrite R3 in R3'. inversion R3'; subst w3'. clear R3'.
  destruct (worked_checkpoint _ _ _ _ W3) as [Ho3 Hw3].
  assert (quiet (opt_dryrun O) bkt w3 w') as Q4
    by (eapply (quiet_finish E C (command_of O)); [apply quiet_refl|exact R4]).
  assert (exists codes, mapM exitcode (processes w3) = Some codes)
    as [codes Hcodes].
  { apply mapM_is_Some. exact Hex. }
  exists codes. rewrite (quiet_processes _ _ _ _ Q4).
  split; [exact Hcodes|].
  pose proof (finish_run E C (command_of O) bkt rev w3 codes Hcodes) as Hfin.
  cbn zeta in Hfin.
  assert (checkpoint_object bkt (s3 w1) = checkpoint_object bkt (s3 wa))
    as Ho1 by (unfold checkpoint_object; now rewrite Hs1).
  destruct (Z.eqb_spec (process_result_of codes) 0) as [Hz|Hnz].
  - destruct Hfin as (w4 & R4' & Hfin). rewrite R4 in R4'.
    inversion R4'; subst. clear R4'. split.
    + intros Hexists. exfalso. apply process_result_zero in Hz.
      apply Exists_exists in Hexists as (c & Hin & Hc).
      rewrite Forall_forall in Hz. auto.
    + intros _. split; [reflexivity|].
      change (dryrun (command_of O)) with (opt_dryrun O) in Hfin.
      destruct (opt_dryrun O) eqn:D.
      * split.
        -- unfold checkpoint_object.
           rewrite (quiet_dry _ _ _ _ Q4 eq_refl).
           fold (checkpoint_object bkt (s3 w3)).
           rewrite Ho3, Ho1. now apply Hdryobj.
        -- rewrite Hfin, Hw3, Hc1, Hwa. unfold first_write.
           destruct (checkpoint_object bkt (s3 w)); apply app_nil_r.
      * destruct Hfin as [Ho Hw].
        eexists. split; [|split; [|split; [exact Ho|]]]; [reflexivity..|].
        rewrite Hw, Hw3, Hc1, Hwa. now rewrite <- app_assoc.
  - rewrite R4 in Hfin. inversion Hfin; subst. clear Hfin. split.
    + intros _. split; [reflexivity|]. split; [exact Hnz|]. split.
      * unfold checkpoint_revision at 1. rewrite Ho3, Ho1.
        exact Hrev.
      * now rewrite Hw3, Hc1, Hwa.
    + intros Hall. apply process_result_zero in Hall. contradiction.
Qed.

Lemma checkpoint_advances_witness :
  let E := Demo.E Demo.no_fault in
  let run := handle E Demo.conf (Demo.opts false 2) (Demo.svn Demo.clean)
               [Step 1; Step 0] (Demo.synced_at 37) in
  exists codes,
    mapM exitcode (processes (snd run)) = Some codes /\
    codes = [0; 0] /\
    fst run = Ok tt /\
    checkpoint_revision "media" (s3 (snd run)) = 40 /\
    length (checkpoint_writes "media" (calls (snd run))) = 1%nat.
Proof.
  intros E run.
  destruct (checkpoint_advances_on_full_success E Demo.conf
              (Demo.opts false 2) (Demo.svn Demo.clean) [Step 1; Step 0]
              "media" "id" "secret" "/media" (Demo.synced_at 37) (snd run)
              (fst run))
    as (codes & Hcodes & _ & Hok).
  - repeat split; reflexivity.
  - reflexivity.
  - apply surjective_pairing.
  - vm_compute. discriminate.
  - exists codes. split; [exact Hcodes|].
    assert (codes = [0; 0]) as ->.
    { assert (mapM exitcode (processes (snd run)) = Some [0; 0]) as H
        by (vm_compute; reflexivity).
      rewrite H in Hcodes. now inversion Hcodes. }
    split; [reflexivity|].
    destruct Hok as (Hr & doc & Hrev & _ & Hobj & Hwrites);
      [repeat constructor|].
    split; [exact Hr|]. split.
    + unfold checkpoint_revision. rewrite Hobj. simpl. rewrite Hrev.
      reflexivity.
    + rewrite Hwrites. reflexivity.
Defined.

(** C1, as stated, fails: a run whose workers all exit clean does not always
    write the checkpoint exactly once.  In a dry run from revision 37 the
    two workers exit with code 0, [handle] returns, and the checkpoint is
    not written: its revision is still 37.  In a first run, which finds no
    checkpoint, it is written twice: the default one when it is loaded, and
    the new one at the end. *)
Lemma checkpoint_not_written_exactly_once :
  let E := Demo.E Demo.no_fault in
  let dry := handle E Demo.conf (Demo.opts true 2) (Demo.svn Demo.clean)
               [] (Demo.synced_at 37) in
  let first := handle E Demo.conf (Demo.opts false 2) (Demo.svn Demo.clean)
                 [] Demo.fresh in
  (fst dry = Ok tt /\
   exitcode <$> processes (snd dry) = [Some 0; Some 0] /\
   checkpoint_writes "media" (calls (snd dry)) = [] /\
   checkpoint_revision "media" (s3 (snd dry)) = 37) /\
  (fst first = Ok tt /\
   exitcode <$> processes (snd first) = [Some 0; Some 0] /\
   length (checkpoint_writes "media" (calls (snd first))) = 2%nat).
Proof. vm_compute. repeat split; reflexivity. Qed.

(** ** The first upload *)

Lemma last_elem (l : list Z) (m : Z) : last l = Some m -> m ∈ l.
Proof.
  induction l as [|a l IH]; [discriminate|].
  destruct l as [|b l]; simpl in *.
  - intros [= ->]. apply elem_of_cons. now left.
  - intros H. apply elem_of_cons. right. now apply IH.
Qed.

Lemma last_newest_first (history : list Z) :
  newest_first history -> last history = earliest_revision history.
Proof.
  induction 1 as [|a l Hs IH Hall]; [reflexivity|].
  simpl. change (foldr _ None l) with (earliest_revision l). rewrite <- IH.
  destruct l as [|b l]; [reflexivity|].
  change (last (a :: b :: l)) with (last (b :: l)).
  destruct (last (b :: l)) as [m|] eqn:L.
  - apply last_elem in L. rewrite Forall_forall in Hall.
    specialize (Hall m L). f_equal. lia.
  - exfalso. revert L. clear. revert b.
    induction l as [|c l IH]; intros b; [discriminate|]. apply IH.
Qed.

Lemma first_upload_revision_run C cmd r0 n w :
  revision r0 = INITIAL_REVISION -> last (svn_log C) = Some n ->
  exists w',
    first_upload_revision C cmd r0 w =
      (Ok (set_initial_revision n (set_revision n r0)), w').
Proof.
  intros Hrev L. unfold first_upload_revision. rewrite Hrev, L.
  change (INITIAL_REVISION =? INITIAL_REVISION) with true. cbn iota.
  run_monad. destruct (0 <? cmd_verbosity cmd); eexists; reflexivity.
Qed.

Lemma check_repository_ok C cmd r w r' w' :
  check_repository C cmd r w = (Ok r', w') ->
  revision r' = revision r /\ initial_revision r' = initial_revision r.
Proof.
  unfold check_repository. destruct (_ && _); [discriminate|].
  intros [= <- _]. destruct (ignore_svn_url cmd); split; reflexivity.
Qed.

Lemma check_repository_run C cmd r w :
  PyStr.truthy (url r) && negb (String.eqb (url r) (info_url C))
    && negb (ignore_svn_url cmd) = false ->
  exists r', check_repository C cmd r w = (Ok r', w).
Proof.
  intros Hurl. unfold check_repository. rewrite Hurl.
  eexists. reflexivity.
Qed.

(** When [resolve] returns, the files it returns are the changes from the
    revision it returns. *)
Lemma resolve_files E C cmd bkt root w rev files w1 :
  resolve E C cmd bkt root w = (Ok (rev, files), w1) ->
  files = changed_files_of bkt root
            (diff_summarize C (revision rev) (info_revision C)).
Proof.
  unfold resolve. intros H.
  apply bind_inv in H as [(r0 & wa & _ & H) | (? & _ & [=])].
  apply bind_inv in H as [(r1 & wb & _ & H) | (? & _ & [=])].
  apply bind_inv in H as [(r2 & wc & _ & H) | (? & _ & [=])].
  apply bind_inv in H as [(? & wd & _ & H) | (? & _ & [=])].
  apply bind_inv in H as [(? & we & _ & H) | (? & _ & [=])].
  now inversion H.
Qed.

(** * Further properties *)

(** ** Paths *)

Section Paths.
Import PyStr.

Lemma dir_induction (P : dir -> Prop) :
  (forall r nd sub,
      Forall (fun e => match e with Subdir _ _ d => P d end) sub ->
      P (Dir r nd sub)) ->
  forall d, P d.
Proof.
  intros H. fix IH 1. intros [r nd sub]. apply H.
  induction sub as [|[n l s] sub IHs]; constructor; [apply IH|apply IHs].
Qed.

Lemma app_empty_r (s : string) : s +:+ "" = s.
Proof. apply chars_inj. rewrite chars_app. apply app_nil_r. Qed.

Lemma app_assoc_str (a b c : string) : (a +:+ b) +:+ c = a +:+ (b +:+ c).
Proof. apply chars_inj. rewrite !chars_app. now rewrite app_assoc. Qed.

Lemma app_inv_head_str (a b c : string) : a +:+ b = a +:+ c -> b = c.
Proof.
  intros H. apply chars_inj. apply (f_equal chars) in H.
  rewrite !chars_app in H. now apply app_inv_head in H.
Qed.

Lemma chars_nil (s : string) : chars s = [] -> s = "".
Proof. intros H. apply chars_inj. exact H. Qed.

(** What [name_ok] says of the characters of a name. *)
Lemma name_ok_chars (n : string) :
  name_ok n = true -> chars n <> [] /\ (slash ∉ chars n).
Proof.
  unfold name_ok. intros [H1 H2]%andb_prop.
  apply negb_true_iff in H1, H2. split.
  - intros H. apply chars_nil in H. subst. discriminate H1.
  - intros Hin. apply list_elem_of_In in Hin.
    assert (existsb (Ascii.eqb slash) (chars n) = true) as X.
    { apply existsb_exists. exists slash. split; [exact Hin|].
      apply Ascii.eqb_refl. }
    congruence.
Qed.

Lemma startswith_slash (n : string) :
  name_ok n = true -> startswith n "/" = false.
Proof.
  intros [Hne Hns]%name_ok_chars. unfold startswith.
  destruct (chars n) as [|c l]; [congruence|]. simpl.
  destruct (Ascii.eqb_spec c "/"%char) as [->|]; [|reflexivity].
  exfalso. apply Hns. apply elem_of_cons. now left.
Qed.

(** [s.endswith('/')] looks at the last character. *)
Lemma endswith_snoc (a : string) (l : list ascii) (x : ascii) :
  chars a = l ++ [x] -> endswith a "/" = Ascii.eqb x slash.
Proof.
  intros H. unfold endswith. rewrite H, rev_app_distr. simpl.
  destruct (rev l); apply andb_true_r.
Qed.

Lemma endswith_empty : endswith "" "/" = false.
Proof. reflexivity. Qed.

Lemma endswith_true (a : string) :
  endswith a "/" = true -> exists l, chars a = l ++ [slash].
Proof.
  destruct (chars a) as [|c l] eqn:Ha using rev_ind.
  - apply chars_nil in Ha. subst. discriminate.
  - clear IHl. rewrite (endswith_snoc a l c Ha).
    intros ->%Ascii.eqb_eq. eauto.
Qed.

Lemma snoc_of (l : list ascii) : l <> [] -> exists l' x, l = l' ++ [x].
Proof.
  destruct l as [|c l] using rev_ind; [congruence|]. eauto.
Qed.

(** A string that ends with a name does not end with a slash. *)
Lemma endswith_name (a n : string) :
  name_ok n = true -> endswith (a +:+ n) "/" = false.
Proof.
  intros [Hne Hns]%name_ok_chars.
  destruct (snoc_of _ Hne) as (l & x & Hn).
  rewrite (endswith_snoc (a +:+ n) (chars a ++ l) x).
  - destruct (Ascii.eqb_spec x slash) as [->|]; [|reflexivity].
    exfalso. apply Hns. rewrite Hn. apply elem_of_app. right.
    apply elem_of_cons. now left.
  - rewrite chars_app, Hn. now rewrite app_assoc.
Qed.

Lemma name_not_empty (a n : string) : name_ok n = true -> a +:+ n <> "".
Proof.
  intros [Hne _]%name_ok_chars H. apply (f_equal chars) in H.
  rewrite chars_app in H. apply app_eq_nil in H as [_ H]. congruence.
Qed.

Lemma eqb_empty (a : string) : a <> "" -> String.eqb a "" = false.
Proof. intros H. now apply String.eqb_neq. Qed.

(** [os.path.join] after a directory that ends with a slash, and after one
    that does not. *)
Lemma path_join_slash (a n : string) :
  endswith a "/" = true -> name_ok n = true -> path_join a n = a +:+ n.
Proof.
  intros Ha Hn. unfold path_join.
  rewrite (startswith_slash n Hn), Ha, orb_true_r. reflexivity.
Qed.

Lemma path_join_name (a n : string) :
  a <> "" -> endswith a "/" = false -> name_ok n = true ->
  path_join a n = a +:+ "/" +:+ n.
Proof.
  intros Ha He Hn. unfold path_join.
  rewrite (startswith_slash n Hn), He, (eqb_empty a Ha). reflexivity.
Qed.

Lemma path_join_empty (n : string) : name_ok n = true -> path_join "" n = n.
Proof.
  intros Hn. unfold path_join. rewrite (startswith_slash n Hn). reflexivity.
Qed.

Lemma rel_of_cons (n : string) (path : list string) :
  path <> [] -> rel_of (n :: path) = n +:+ "/" +:+ rel_of path.
Proof. destruct path; [congruence|reflexivity]. Qed.

Lemma rel_of_snoc (path : list string) (file : string) :
  path <> [] -> rel_of (path ++ [file]) = rel_of path +:+ "/" +:+ file.
Proof.
  induction path as [|n path IH]; [congruence|]. intros _.
  destruct path as [|m path]; [reflexivity|].
  change ((n :: m :: path) ++ [file]) with (n :: ((m :: path) ++ [file])).
  rewrite rel_of_cons by (simpl; discriminate).
  rewrite IH by discriminate.
  rewrite (rel_of_cons n (m :: path)) by discriminate.
  now rewrite !app_assoc_str.
Qed.

(** The relative path of names ends with the last of them. *)
Lemma rel_of_ends (path : list string) :
  forallb name_ok path = true -> path <> [] ->
  rel_of path <> "" /\ endswith (rel_of path) "/" = false.
Proof.
  induction path as [|n path IH]; [congruence|].
  intros [Hn Hp]%andb_prop _. destruct path as [|m path].
  - simpl. split.
    + apply name_ok_chars in Hn as [Hne _]. intros ->. now apply Hne.
    + exact (endswith_name "" n Hn).
  - rewrite (rel_of_cons n (m :: path)) by discriminate.
    destruct (IH Hp) as [Hne He]; [discriminate|]. split.
    + intros H. apply (f_equal chars) in H. rewrite !chars_app in H.
      apply app_eq_nil in H as [H _].
      apply name_ok_chars in Hn as [Hn _]. now apply Hn.
    + destruct (snoc_of (chars (rel_of (m :: path)))) as (l & x & Hl).
      { intros H. apply chars_nil in H. now apply Hne. }
      rewrite (endswith_snoc _ _ _ Hl) in He.
      rewrite (endswith_snoc _ (chars n ++ chars "/" ++ l) x); [exact He|].
      rewrite !chars_app, Hl. now rewrite !app_assoc.
Qed.

(** The directories that [os.walk] names below a directory that does not
    end with a slash. *)
Lemma root_of_name (a : string) (path : list string) :
  a <> "" -> endswith a "/" = false -> forallb name_ok path = true ->
  path <> [] -> root_of a path = a +:+ "/" +:+ rel_of path.
Proof.
  revert a. induction path as [|m path IH]; [congruence|].
  intros a Ha He [Hm Hp]%andb_prop _. unfold root_of. cbn [foldl].
  rewrite (path_join_name a m Ha He Hm).
  destruct path as [|m' path]; [reflexivity|].
  fold (root_of (a +:+ "/" +:+ m) (m' :: path)).
  rewrite IH; [| | |exact Hp|discriminate].
  - rewrite (rel_of_cons m (m' :: path)) by discriminate.
    now rewrite !app_assoc_str.
  - rewrite <- app_assoc_str. now apply name_not_empty.
  - rewrite <- app_assoc_str. now apply endswith_name.
Qed.

(** Below a directory that ends with a slash. *)
Lemma root_of_rel (top : string) (path : list string) :
  endswith top "/" = true -> forallb name_ok path = true ->
  root_of top path = top +:+ rel_of path.
Proof.
  intros Ht Hp. destruct path as [|n path].
  - simpl. now rewrite app_empty_r.
  - apply andb_prop in Hp as [Hn Hp]. unfold root_of. cbn [foldl].
    rewrite (path_join_slash top n Ht Hn).
    destruct path as [|m path]; [reflexivity|].
    fold (root_of (top +:+ n) (m :: path)).
    rewrite root_of_name; [| | |exact Hp|discriminate].
    + rewrite (rel_of_cons n (m :: path)) by discriminate.
      now rewrite !app_assoc_str.
    + now apply name_not_empty.
    + now apply endswith_name.
Qed.

Lemma slice_from_app (a b : string) : slice_from (a +:+ b) (len a) = b.
Proof.
  unfold slice_from, len. rewrite chars_app, drop_app_length.
  apply str_chars.
Qed.

End Paths.

(** ** What the push command queues *)

Section Walk.
Import PyStr.

(** A pattern without a slash is matched before the next slash, or not at
    all. *)
Lemma startswith_through_slash (t w pat : list ascii) :
  (slash ∉ pat) ->
  startswith_chars (t ++ slash :: w) pat = startswith_chars t pat.
Proof.
  revert pat. induction t as [|x t IH]; intros [|c pat] Hp; try reflexivity.
  - cbn [app startswith_chars].
    destruct (Ascii.eqb_spec slash c) as [<-|]; [|reflexivity].
    exfalso. apply Hp. apply elem_of_cons. now left.
  - cbn [app startswith_chars]. rewrite IH; [reflexivity|].
    intros H. apply Hp. apply elem_of_cons. now right.
Qed.

Lemma contains_skip (n w Q : list ascii) :
  (slash ∉ n) ->
  contains_chars (n ++ w) (slash :: Q) = contains_chars w (slash :: Q).
Proof.
  induction n as [|x n IH]; intros Hn; [reflexivity|].
  assert (x <> slash) as Hx
    by (intros ->; apply Hn; apply elem_of_cons; now left).
  cbn [app contains_chars startswith_chars].
  apply Ascii.eqb_neq in Hx. rewrite Hx. cbn [andb orb]. apply IH.
  intros H. apply Hn. apply elem_of_cons. now right.
Qed.

Lemma contains_at_slash (w Q : list ascii) :
  contains_chars (slash :: w) (slash :: Q) =
  startswith_chars w Q || contains_chars w (slash :: Q).
Proof. reflexivity. Qed.

Lemma contains_nothing (Q : list ascii) :
  Q <> [] -> contains_chars [slash] (slash :: Q) = false.
Proof. destruct Q; [congruence|reflexivity]. Qed.

Lemma contains_split (t w Q : list ascii) :
  (slash ∉ Q) -> Q <> [] ->
  contains_chars (t ++ slash :: w) (slash :: Q) =
  contains_chars (t ++ [slash]) (slash :: Q)
  || contains_chars (slash :: w) (slash :: Q).
Proof.
  intros Hq Hne. induction t as [|x t IH].
  - simpl app. now rewrite (contains_nothing Q Hne).
  - change (contains_chars ((x :: t) ++ slash :: w) (slash :: Q))
      with (Ascii.eqb x slash && startswith_chars (t ++ slash :: w) Q
            || contains_chars (t ++ slash :: w) (slash :: Q)).
    change (contains_chars ((x :: t) ++ [slash]) (slash :: Q))
      with (Ascii.eqb x slash && startswith_chars (t ++ [slash]) Q
            || contains_chars (t ++ [slash]) (slash :: Q)).
    rewrite IH, !startswith_through_slash by assumption.
    now rewrite !orb_assoc.
Qed.

Lemma chars_slash_name (n rest : string) :
  chars (n +:+ "/" +:+ rest) = chars n ++ slash :: chars rest.
Proof. now rewrite !chars_app. Qed.

(** [/] followed by [Q] occurs in a relative path exactly when one of its
    names starts with [Q]. *)
Lemma contains_rel (path : list string) (Q : list ascii) :
  forallb name_ok path = true -> (slash ∉ Q) -> Q <> [] ->
  contains_chars (slash :: chars (rel_of path)) (slash :: Q) =
  existsb (fun n => startswith_chars (chars n) Q) path.
Proof.
  intros Hp Hq Hne. induction path as [|n path IH].
  - now apply contains_nothing.
  - apply andb_prop in Hp as [Hn Hp].
    destruct (name_ok_chars n Hn) as [_ Hns].
    rewrite contains_at_slash. destruct path as [|m path].
    + cbn [rel_of existsb]. f_equal.
      rewrite <- (app_nil_r (chars n)), contains_skip by assumption.
      reflexivity.
    + rewrite (rel_of_cons n (m :: path)) by discriminate.
      rewrite chars_slash_name, startswith_through_slash by assumption.
      rewrite contains_skip by assumption. rewrite (IH Hp). reflexivity.
Qed.

(** [svn_re] finds [/.svn] in a directory below [top] exactly when it finds
    it in [top], or the name of one of the directories on the way starts
    with [.svn]. *)
Lemma svn_re_search_rel (top : string) (path : list string) :
  endswith top "/" = true -> forallb name_ok path = true ->
  Push.svn_re_search (top +:+ rel_of path) =
  Push.svn_re_search top || existsb (fun n => startswith n ".svn") path.
Proof.
  intros [l Hl]%endswith_true Hp. unfold Push.svn_re_search.
  rewrite chars_app, Hl, <- app_assoc. simpl app.
  change (chars "/.svn") with (slash :: chars ".svn").
  rewrite contains_split.
  - f_equal. apply contains_rel; [assumption| |discriminate].
    intros H. repeat (apply elem_of_cons in H as [H|H]; [discriminate H|]).
    now apply elem_of_nil in H.
  - intros H. repeat (apply elem_of_cons in H as [H|H]; [discriminate H|]).
    now apply elem_of_nil in H.
  - discriminate.
Qed.

Lemma listed_names (d : dir) (path : list string) (file : string) :
  names_ok d = true -> listed d path file ->
  forallb name_ok path = true /\ name_ok file = true.
Proof.
  intros Hd Hl. induction Hl as [nd sub file Hin|nd sub name d' path file Hin Hl IH].
  - split; [reflexivity|]. simpl in Hd. apply andb_prop in Hd as [Hd _].
    rewrite forallb_forall in Hd. apply Hd. now apply list_elem_of_In.
  - simpl in Hd. apply andb_prop in Hd as [_ Hd].
    rewrite forallb_forall in Hd.
    apply list_elem_of_In in Hin. apply Hd in Hin.
    apply andb_prop in Hin as [Hn Hd']. destruct (IH Hd') as [Hp Hf].
    split; [|assumption]. simpl. now rewrite Hn, Hp.
Qed.

(** The files queued for one directory. *)
Lemma queued_of_elem bkt prefix mr root ds files f :
  In f (Push.queued_of bkt prefix mr (root, ds, files)) <->
  exists file, In file files /\ Push.file_filter file = true /\
    Push.svn_re_search root = false /\
    f = Push.s3_file_of bkt prefix mr root file.
Proof.
  unfold Push.queued_of.
  destruct (List.filter Push.file_filter files) as [|x l] eqn:Hf.
  - split; [intros []|]. intros (file & Hin & Hk & _).
    assert (In file (List.filter Push.file_filter files)) as X
      by (apply filter_In; auto).
    rewrite Hf in X. destruct X.
  - rewrite <- Hf. destruct (Push.svn_re_search root).
    + split; [intros []|]. intros (? & _ & _ & [=] & _).
    + rewrite <- list_elem_of_In, list_elem_of_fmap. split.
      * intros (file & -> & Hin). exists file.
        apply list_elem_of_In, filter_In in Hin as [? ?]. auto.
      * intros (file & Hin & Hk & _ & ->). exists file.
        split; [reflexivity|]. apply list_elem_of_In, filter_In. auto.
Qed.

(** The files queued for a tree: those that are listed in it, that pass the
    filter, and whose directory [svn_re] does not match. *)
Lemma walk_queued bkt prefix mr (d : dir) :
  forall top f,
    In f (flat_map (Push.queued_of bkt prefix mr) (walk top d)) <->
    exists path file,
      listed d path file /\ Push.file_filter file = true /\
      Push.svn_re_search (root_of top path) = false /\
      f = Push.s3_file_of bkt prefix mr (root_of top path) file.
Proof.
  induction d as [r nd sub IH] using dir_induction. intros top f.
  destruct r.
  2:{ simpl. split; [intros []|]. intros (? & ? & H & _). inversion H. }
  cbn [walk flat_map]. rewrite in_app_iff, queued_of_elem. split.
  - intros [(file & Hin & Hk & Hs & ->) | H].
    + exists [], file. repeat split; auto.
      constructor. now apply list_elem_of_In.
    + apply in_flat_map in H as (entry & He & Hf).
      apply in_flat_map in He as ([name islink d'] & Hsub & He).
      destruct islink; [destruct He|].
      rewrite Forall_forall in IH.
      pose proof (IH _ (proj2 (list_elem_of_In _ _) Hsub)) as IHd.
      simpl in IHd.
      assert (In f (flat_map (Push.queued_of bkt prefix mr)
                      (walk (path_join top name) d'))) as X
        by (apply in_flat_map; eauto).
      apply IHd in X as (path & file & Hl & Hk & Hs & ->).
      exists (name :: path), file. repeat split; auto.
      econstructor; [|exact Hl]. now apply list_elem_of_In.
  - intros (path & file & Hl & Hk & Hs & ->).
    inversion Hl as [? ? ? Hin|? ? name d' path' ? Hin Hl']; subst.
    + left. exists file. repeat split; auto. now apply list_elem_of_In.
    + right. rewrite Forall_forall in IH.
      pose proof (IH _ Hin) as IHd. simpl in IHd.
      assert (In (Push.s3_file_of bkt prefix mr
                    (root_of top (name :: path')) file)
                (flat_map (Push.queued_of bkt prefix mr)
                   (walk (path_join top name) d'))) as X
        by (apply IHd; exists path', file; auto).
      apply in_flat_map in X as (entry & He & Hf).
      apply in_flat_map. exists entry. split; [|exact Hf].
      apply in_flat_map. exists (Subdir name false d').
      split; [now apply list_elem_of_In|exact He].
Qed.

Lemma with_slash_ends (root : string) :
  endswith (Push.with_slash root) "/" = true.
Proof.
  unfold Push.with_slash. destruct (endswith root "/") eqn:H; [exact H|].
  rewrite (endswith_snoc (root +:+ "/") (chars root) slash); [reflexivity|].
  now rewrite chars_app.
Qed.

(** The [S3File] of a file listed under [path]: its key is the prefix
    followed by the path from the media root, and its name is the media
    root followed by the same path. *)
Lemma s3_file_of_rel bkt prefix top path file :
  endswith top "/" = true -> forallb name_ok path = true ->
  name_ok file = true ->
  Push.s3_file_of bkt prefix top (top +:+ rel_of path) file =
  {| bucket_name := bkt; file_key := prefix +:+ rel_of (path ++ [file]);
     filename := top +:+ rel_of (path ++ [file]); delete_flag := false |}.
Proof.
  intros Ht Hp Hf. unfold Push.s3_file_of. rewrite slice_from_app.
  assert (path_join (rel_of path) file = rel_of (path ++ [file])
          /\ path_join (top +:+ rel_of path) file =
             top +:+ rel_of (path ++ [file])) as [-> ->].
  { destruct path as [|n path].
    - simpl. rewrite app_empty_r. split.
      + now apply path_join_empty.
      + now apply path_join_slash.
    - destruct (rel_of_ends (n :: path) Hp) as [Hne He]; [discriminate|].
      rewrite rel_of_snoc by discriminate. split.
      + now apply path_join_name.
      + rewrite path_join_name; [now rewrite !app_assoc_str| | |assumption].
        * intros H. apply (f_equal chars) in H. rewrite chars_app in H.
          apply app_eq_nil in H as [_ H]. apply chars_nil in H. now apply Hne.
        * destruct (snoc_of (chars (rel_of (n :: path)))) as (l & x & Hl).
          { intros H. apply chars_nil in H. now apply Hne. }
          rewrite (endswith_snoc _ _ _ Hl) in He.
          rewrite (endswith_snoc _ (chars top ++ l) x); [exact He|].
          rewrite chars_app, Hl. now rewrite app_assoc. }
  f_equal. unfold truthy. destruct (String.eqb_spec prefix "") as [->|];
    reflexivity.
Qed.

End Walk.

Lemma existsb_false {A} (f : A -> bool) (l : list A) :
  existsb f l = false <-> Forall (fun x => f x = false) l.
Proof.
  induction l as [|x l IH]; simpl.
  - split; [constructor|reflexivity].
  - rewrite orb_false_iff, IH. split.
    + intros [? ?]. now constructor.
    + intros H. inversion H; subst. auto.
Qed.

Lemma push_make_workers_run nums bkt key_id secret verb gzip expires force
    dry w :
  exists ks w',
    Push.make_workers nums bkt key_id secret verb gzip expires force dry w
      = (Ok ks, w') /\
    Forall (fun k => aws_bucket k = bkt /\ dry_run k = dry /\
                     do_force k = force /\ skip_count k = 0) ks /\
    length ks = length nums /\
    queue w' = queue w /\ processes w' = processes w /\
    worked bkt dry w w'.
Proof.
  revert w. induction nums as [|n nums IH]; intros w; simpl.
  - exists [], w. split; [reflexivity|]. split; [constructor|].
    do 3 (split; [reflexivity|]). apply worked_refl.
  - destruct (worker_init_run n bkt key_id secret verb gzip expires force
                dry w)
      as (k & w1 & R1 & Hb & Hd & Hf & Hs & Hq1 & Hp1 & W1).
    destruct (IH w1) as (ks & w2 & R2 & Hall & Hl & Hq2 & Hp2 & W2).
    exists (k :: ks), w2.
    rewrite (bind_ok _ _ _ _ _ R1). cbn beta.
    rewrite (bind_ok _ _ _ _ _ R2). cbn beta.
    split; [reflexivity|]. split; [constructor; auto|].
    split; [simpl; congruence|]. split; [congruence|].
    split; [congruence|]. eapply worked_trans; eauto.
Qed.

(** [handle] of the push command, once the settings are found: it returns,
    with the files of the tree at the end of the queue and the processes
    started. *)
Lemma push_handle_run S O media bkt key_id secret root w :
  settings_ok S bkt key_id secret root ->
  exists ks w',
    Push.handle S O media w = (Ok tt, w') /\
    queue w' = queue w ++
      flat_map (Push.queued_of bkt (Push.opt_prefix O) (Push.with_slash root))
        (walk (Push.with_slash root) media) /\
    processes w' = started <$> ks /\
    length ks =
      Z.to_nat (if Push.opt_processes O <? 1 then 1 else Push.opt_processes O) /\
    Forall (fun k => aws_bucket k = bkt /\ dry_run k = Push.opt_dryrun O /\
                     do_force k = Push.opt_force O /\ skip_count k = 0) ks /\
    worked bkt (Push.opt_dryrun O) w w'.
Proof.
  intros (Hk & Hs & Hb & Hr & Tb & Tr).
  unfold Push.handle. rewrite Hk, Hs, Hb, Tb, Hr, Tr. unfold Push.push.
  set (w1 := set_queue (queue w ++
               flat_map (Push.queued_of bkt (Push.opt_prefix O)
                           (Push.with_slash root))
                 (walk (Push.with_slash root) media)) w).
  destruct (push_make_workers_run
              (seqZ 0 (if Push.opt_processes O <? 1 then 1
                       else Push.opt_processes O))
              bkt key_id secret
              (if Push.opt_debug O then 2
               else if Push.opt_verbose O then 1 else 0)
              (Push.opt_gzip O) (Push.opt_expires O) (Push.opt_force O)
              (Push.opt_dryrun O) w1)
    as (ks & w2 & R & Hall & Hl & Hq & Hp & W).
  exists ks, (set_processes (started <$> ks) w2).
  split.
  { unfold mbind at 1, M_bind at 1, modify at 1. fold w1.
    rewrite (bind_ok _ _ _ _ _ R). reflexivity. }
  split; [simpl; rewrite Hq; reflexivity|].
  split; [reflexivity|]. split; [rewrite Hl; apply length_seqZ|].
  split; [exact Hall|].
  destruct W as [W1 W2 (d & W3 & W4)]. split; simpl; auto.
  exists d. split; assumption.
Qed.

(** What [handle] of the push command adds to the queue. *)
Lemma push_handle_queue
    (S : settings) (O : Push.options) (media : dir)
    (bkt key_id secret root : string) (w : world) :
  settings_ok S bkt key_id secret root ->
  names_ok media = true ->
  exists w' new,
    Push.handle S O media w = (Ok tt, w') /\
    queue w' = queue w ++ new /\
    forall f, f ∈ new <->
      exists path file,
        listed media path file /\
        Push.file_filter file = true /\
        Push.svn_re_search (Push.with_slash root) = false /\
        Forall (fun n => PyStr.startswith n ".svn" = false) path /\
        f = {| bucket_name := bkt;
               file_key := Push.opt_prefix O +:+ rel_of (path ++ [file]);
               filename := Push.with_slash root +:+ rel_of (path ++ [file]);
               delete_flag := false |}.
Proof.
  intros HS Hn.
  destruct (push_handle_run S O media bkt key_id secret root w HS)
    as (ks & w' & R & Hq & _).
  exists w'. eexists. split; [exact R|]. split; [exact Hq|].
  intros f. rewrite list_elem_of_In, walk_queued.
  pose proof (with_slash_ends root) as Ht.
  split.
  - intros (path & file & Hl & Hk & Hs & ->).
    destruct (listed_names _ _ _ Hn Hl) as [Hp Hf].
    rewrite (root_of_rel _ _ Ht Hp) in *.
    rewrite (svn_re_search_rel _ _ Ht Hp) in Hs.
    apply orb_false_iff in Hs as [Hs1 Hs2].
    exists path, file. repeat split; auto.
    + now apply existsb_false in Hs2.
    + now apply s3_file_of_rel.
  - intros (path & file & Hl & Hk & Hs1 & Hs2 & ->).
    destruct (listed_names _ _ _ Hn Hl) as [Hp Hf].
    exists path, file. rewrite (root_of_rel _ _ Ht Hp).
    rewrite (svn_re_search_rel _ _ Ht Hp), Hs1.
    apply existsb_false in Hs2. rewrite Hs2.
    repeat split; auto. symmetry. now apply s3_file_of_rel.
Qed.

(** X1.  The push command queues the tree under [MEDIA_ROOT], and nothing
    else.  With the four settings in place and a tree whose names are
    names of files, [handle] returns, and the files it has added to the
    queue are exactly these: for every file that [os.walk] lists, in a
    directory reached through readable directories that are no links, whose
    name is not in [FILTER_LIST], with no directory on the way whose name
    starts with [.svn], and provided [/.svn] does not occur in the media
    root itself, the upload, never a delete, of that file under the key
    made of the prefix and of the path of the file from the media root. *)
Theorem push_queues_the_tree
    (S : settings) (O : Push.options) (media : dir)
    (bkt key_id secret root : string) (w : world) :
  settings_ok S bkt key_id secret root ->
  names_ok media = true ->
  exists w' new,
    Push.handle S O media w = (Ok tt, w') /\
    queue w' = queue w ++ new /\
    forall f, f ∈ new <->
      exists path file,
        listed media path file /\
        Push.file_filter file = true /\
        Push.svn_re_search (Push.with_slash root) = false /\
        Forall (fun n => PyStr.startswith n ".svn" = false) path /\
        f = {| bucket_name := bkt;
               file_key := Push.opt_prefix O +:+ rel_of (path ++ [file]);
               filename := Push.with_slash root +:+ rel_of (path ++ [file]);
               delete_flag := false |}.
Proof. exact (push_handle_queue S O media bkt key_id secret root w). Qed.

Lemma push_queues_the_tree_witness :
  exists w',
    Push.handle Demo.conf (DemoPush.opts false false 2) DemoPush.media
      DemoPush.empty_store = (Ok tt, w') /\
    DemoPush.pushed "static/img/c.png" "/media/img/c.png" ∈ queue w'.
Proof.
  destruct (push_queues_the_tree Demo.conf (DemoPush.opts false false 2)
              DemoPush.media "media" "id" "secret" "/media"
              DemoPush.empty_store)
    as (w' & new & R & Hq & Hin).
  - repeat split; reflexivity.
  - reflexivity.
  - exists w'. split; [exact R|]. rewrite Hq. apply Hin.
    exists ["img"], "c.png". split.
    + eapply listed_below.
      * apply elem_of_cons. right. apply elem_of_cons. left. reflexivity.
      * apply listed_here. apply elem_of_cons. now left.
    + repeat split; try reflexivity. now repeat constructor.
Defined.

(** X2.  No two files that the push command queues share a key: when the
    queue was empty, two files of the queue that [handle] leaves have the
    same key only if they are one and the same upload of one local file. *)
Theorem push_keys_are_distinct
    (S : settings) (O : Push.options) (media : dir)
    (bkt key_id secret root : string) (w : world) :
  settings_ok S bkt key_id secret root ->
  names_ok media = true ->
  queue w = [] ->
  exists w',
    Push.handle S O media w = (Ok tt, w') /\
    forall f g, f ∈ queue w' -> g ∈ queue w' ->
                file_key f = file_key g -> f = g.
Proof.
  intros HS Hn Hq0.
  destruct (push_handle_queue S O media bkt key_id secret root w HS Hn)
    as (w' & new & R & Hq & Hin).
  exists w'. split; [exact R|]. intros f g Hf Hg Hk.
  rewrite Hq, Hq0 in Hf, Hg. simpl in Hf, Hg.
  apply Hin in Hf as (p1 & f1 & _ & _ & _ & _ & ->).
  apply Hin in Hg as (p2 & f2 & _ & _ & _ & _ & ->).
  simpl in Hk. apply app_inv_head_str in Hk. now rewrite Hk.
Qed.

Lemma push_keys_are_distinct_witness :
  exists w',
    Push.handle Demo.conf (DemoPush.opts false false 2) DemoPush.media
      DemoPush.empty_store = (Ok tt, w') /\
    forall f g, f ∈ queue w' -> g ∈ queue w' ->
                file_key f = file_key g -> f = g.
Proof.
  apply (push_keys_are_distinct Demo.conf (DemoPush.opts false false 2)
           DemoPush.media "media" "id" "secret" "/media"
           DemoPush.empty_store).
  - repeat split; reflexivity.
  - reflexivity.
  - reflexivity.
Defined.

(** X3.  [svn_re] is searched in the whole directory name, the media root
    included: when [/.svn] occurs in [MEDIA_ROOT], every directory is
    passed over and [handle] queues nothing. *)
Theorem push_media_root_under_svn
    (S : settings) (O : Push.options) (media : dir)
    (bkt key_id secret root : string) (w : world) :
  settings_ok S bkt key_id secret root ->
  names_ok media = true ->
  Push.svn_re_search (Push.with_slash root) = true ->
  exists w', Push.handle S O media w = (Ok tt, w') /\ queue w' = queue w.
Proof.
  intros HS Hn Hsvn.
  destruct (push_handle_queue S O media bkt key_id secret root w HS Hn)
    as (w' & new & R & Hq & Hin).
  exists w'. split; [exact R|]. rewrite Hq.
  destruct new as [|f new]; [apply app_nil_r|].
  destruct (proj1 (Hin f)) as (? & ? & _ & _ & Hs & _).
  - apply elem_of_cons. now left.
  - congruence.
Qed.

Lemma push_media_root_under_svn_witness :
  exists w',
    Push.handle
      {| AWS_ACCESS_KEY_ID := Some "id"; AWS_SECRET_ACCESS_KEY := Some "secret";
         AWS_BUCKET_NAME := Some "media";
         MEDIA_ROOT := Some "/home/.svn-copy/media" |}
      (DemoPush.opts false false 2) DemoPush.media DemoPush.empty_store
    = (Ok tt, w') /\
    queue w' = [].
Proof.
  apply (push_media_root_under_svn _ (DemoPush.opts false false 2)
           DemoPush.media "media" "id" "secret" "/home/.svn-copy/media"
           DemoPush.empty_store).
  - repeat split; reflexivity.
  - reflexivity.
  - reflexivity.
Defined.

(** ** Invariants of the world through a pool of workers *)

Lemma keeps_in_world {A} (J : world -> Prop) (m : M world A) :
  keeps J m -> keeps (fun p => J (wld p)) (in_world m).
Proof.
  intros Hm p r p' Hp H. unfold in_world in H.
  destruct (m (wld p)) as [r1 w1] eqn:R. inversion H; subst. simpl.
  eapply Hm; eauto.
Qed.

Lemma keeps_on_self (J : world -> Prop) (f : S3UploadWorker -> S3UploadWorker) :
  keeps (fun p => J (wld p)) (modify (on_self f)).
Proof. apply keeps_modify. auto. Qed.

Lemma keeps_gets_any {S A} (I : S -> Prop) (g : S -> A) : keeps I (gets g).
Proof. intros s r s' H [= _ <-]. exact H. Qed.

Section PoolInvariant.
Variable E : env.
Variable J : world -> Prop.
Hypothesis J_iteration : keeps (fun p => J (wld p)) (run_iteration E).
Hypothesis J_report : keeps (fun p => J (wld p)) run_report.

Lemma inv_run_loop (n : nat) : keeps (fun p => J (wld p)) (run_loop E n).
Proof.
  induction n as [|n IH]; simpl; [apply keeps_ret|].
  apply keeps_bind; [exact J_iteration|].
  intros [|]; [exact IH | apply keeps_ret].
Qed.

Lemma inv_run : keeps (fun p => J (wld p)) (run E).
Proof.
  unfold run. apply keeps_gets. intros s Hs.
  apply keeps_bind; [apply inv_run_loop|intros _; exact J_report].
Qed.

Lemma inv_step_process p w p' w' :
  J w -> step_process E p w = (p', w') -> J w'.
Proof.
  intros Hw. unfold step_process.
  destruct (exitcode p); [intros [= _ <-]; exact Hw|].
  destruct (run_iteration E _) as [[[|]|e] st] eqn:R.
  - intros [= _ <-].
    apply (J_iteration {| self := target p; wld := w |} _ _ Hw R).
  - destruct (run_report st) as [r st'] eqn:R'. intros [= _ <-].
    apply (J_report _ _ _
             (J_iteration {| self := target p; wld := w |} _ _ Hw R) R').
  - intros [= _ <-].
    apply (J_iteration {| self := target p; wld := w |} _ _ Hw R).
Qed.

Lemma inv_finish_process p w p' w' :
  J w -> finish_process E p w = (p', w') -> J w'.
Proof.
  intros Hw. unfold finish_process.
  destruct (exitcode p); [intros [= _ <-]; exact Hw|].
  destruct (run E _) as [[[]|e] st] eqn:R; intros [= _ <-];
    apply (inv_run {| self := target p; wld := w |} _ _ Hw R).
Qed.

Lemma inv_pool_event ev ps w ps' w' :
  J w -> pool_event E ev (ps, w) = (ps', w') -> J w'.
Proof.
  intros Hw. unfold pool_event. destruct ev as [i | i signal].
  - destruct (ps !! i) as [p|]; [|intros [= _ <-]; exact Hw].
    destruct (step_process E p w) as [p1 w1] eqn:S1. intros [= _ <-].
    eapply inv_step_process; eauto.
  - destruct (ps !! i); intros [= _ <-]; exact Hw.
Qed.

Lemma inv_join_all ps w ps' w' :
  J w -> join_all E ps w = (ps', w') -> J w'.
Proof.
  revert w ps' w'. induction ps as [|p ps IH]; intros w ps' w' Hw; simpl.
  - intros [= _ <-]. exact Hw.
  - destruct (finish_process E p w) as [p1 w1] eqn:F1.
    destruct (join_all E ps w1) as [ps2 w2] eqn:Jn. intros [= _ <-].
    eapply IH; [|exact Jn]. eapply inv_finish_process; eauto.
Qed.

Lemma inv_run_pool schedule ps w ps' w' :
  J w -> run_pool E schedule ps w = (ps', w') -> J w'.
Proof.
  unfold run_pool. revert ps w.
  induction schedule as [|ev evs IH]; intros ps w Hw; cbn [fold_left].
  - destruct (join_all E ps w) as [ps1 w1] eqn:Jn. intros [= _ <-].
    eapply inv_join_all; eauto.
  - destruct (pool_event E ev (ps, w)) as [ps1 w1] eqn:Ev.
    intros H. eapply (IH ps1 w1); [|exact H].
    eapply inv_pool_event; eauto.
Qed.

End PoolInvariant.

(** ** Uploads only *)

Section Grows.
Variable w0 : world.

Lemma grows_refl :
  Forall (fun f => delete_flag f = false) (queue w0) -> grows w0 w0.
Proof.
  intros H. split; auto. exists []. rewrite app_nil_r. split; auto.
Qed.

Lemma grows_print (m : msg) : keeps (grows w0) (print m).
Proof. apply keeps_modify. intros s [Hq Hc Hk]. split; auto. Qed.

Lemma grows_call (c : store_call) :
  is_DeleteKey c = false -> keeps (grows w0) (modify (add_call c)).
Proof.
  intros Hc. apply keeps_modify. intros s [Hq (d & Hd & Hall) Hk].
  split; auto. simpl. exists (d ++ [c]).
  rewrite Hd, app_assoc. split; [reflexivity|].
  apply Forall_app. split; [assumption|]. now constructor.
Qed.

(** A change of one bucket that loses no key. *)
Lemma grows_change (b : string) (f : bucket -> bucket) :
  (forall bk k, is_Some (bk !! k) -> is_Some (f bk !! k)) ->
  keeps (grows w0)
    (modify (set_s3 (fun s => <[b := f (bucket_of b s)]> s))).
Proof.
  intros Hf. apply keeps_modify. intros s [Hq Hc Hk]. split; auto. simpl.
  intros b' k Hin. destruct (decide (b = b')) as [<-|Hne].
  - rewrite bucket_of_insert. auto.
  - rewrite bucket_of_insert_ne by assumption. auto.
Qed.

Lemma grows_get_key (b key : string) : keeps (grows w0) (get_key b key).
Proof.
  unfold get_key. apply keeps_bind; [now apply grows_call|intros _].
  apply keeps_bind; [apply keeps_gets_any|intros ?; apply keeps_ret].
Qed.

Lemma grows_set_contents (E : env) (b name : string) (content : body)
    (headers : gmap string string) :
  keeps (grows w0) (set_contents_from_string E b name content headers).
Proof.
  unfold set_contents_from_string.
  apply keeps_bind; [now apply grows_call|intros _].
  apply (grows_change b (insert name _)). intros bk k Hk.
  destruct (decide (name = k)) as [<-|Hne].
  - rewrite lookup_insert_eq. eauto.
  - now rewrite lookup_insert_ne.
Qed.

Lemma grows_guarded_write (E : env) (b name : string) (content : body)
    (headers : gmap string string) :
  keeps (grows w0) (guarded_write E b name content headers).
Proof.
  unfold guarded_write. destruct (write_fault E name).
  - apply keeps_bind; [now apply grows_call|intros _; apply keeps_raise].
  - apply grows_set_contents.
Qed.

Lemma grows_make_public (b name : string) :
  keeps (grows w0) (make_public b name).
Proof.
  unfold make_public. apply keeps_bind; [now apply grows_call|intros _].
  apply (grows_change b (alter publish name)). intros bk k Hk.
  destruct (decide (name = k)) as [<-|Hne].
  - rewrite lookup_alter_eq. destruct Hk as [o ->]. simpl. eauto.
  - now rewrite lookup_alter_ne.
Qed.

Lemma grows_get_or_create_bucket (name : string) :
  keeps (grows w0) (get_or_create_bucket name).
Proof.
  intros s r s' [Hq (d & Hd & Hall) Hk] Hrun.
  unfold get_or_create_bucket, mbind, M_bind, modify, gets in Hrun.
  simpl in Hrun. destruct (s3 s !! name) eqn:L.
  - inversion Hrun; subst; clear Hrun. split; auto; simpl.
    exists (d ++ [GetBucket name]). rewrite Hd, app_assoc.
    split; [reflexivity|].
    apply Forall_app. split; [assumption|]. now constructor.
  - inversion Hrun; subst; clear Hrun. split; auto; simpl.
    + exists (d ++ [GetBucket name; CreateBucket name]).
      rewrite Hd, <- !app_assoc. split; [reflexivity|].
      apply Forall_app. split; [assumption|]. now repeat constructor.
    + intros b k Hin. destruct (decide (name = b)) as [<-|Hne].
      * apply Hk in Hin. unfold bucket_of in Hin. rewrite L in Hin.
        simpl in Hin. rewrite lookup_empty in Hin.
        destruct Hin as [? Hin]. discriminate Hin.
      * rewrite bucket_of_insert_ne by assumption. auto.
Qed.

Lemma grows_worker_init n bkt key_id secret verb gzip expires force dry :
  keeps (grows w0)
    (worker_init n bkt key_id secret verb gzip expires force dry).
Proof.
  unfold worker_init.
  apply keeps_bind; [apply keeps_when, grows_print|intros _].
  apply keeps_bind; [apply grows_get_or_create_bucket|intros _].
  apply keeps_bind; [apply keeps_when, grows_print|intros _].
  apply keeps_ret.
Qed.

Lemma grows_make_workers nums bkt key_id secret verb gzip expires force dry :
  keeps (grows w0)
    (Push.make_workers nums bkt key_id secret verb gzip expires force dry).
Proof.
  induction nums as [|n nums IH]; simpl; [apply keeps_ret|].
  apply keeps_bind; [apply grows_worker_init|intros k].
  apply keeps_bind; [exact IH|intros ks; apply keeps_ret].
Qed.

Lemma queued_of_uploads bkt prefix mr entries :
  Forall (fun f => delete_flag f = false)
    (flat_map (Push.queued_of bkt prefix mr) entries).
Proof.
  apply Forall_forall. intros f Hin.
  apply list_elem_of_In, in_flat_map in Hin as ([[root ds] files] & _ & Hin).
  apply queued_of_elem in Hin as (file & _ & _ & _ & ->). reflexivity.
Qed.

Lemma grows_push_handle S O media : keeps (grows w0) (Push.handle S O media).
Proof.
  unfold Push.handle.
  destruct (AWS_ACCESS_KEY_ID S) as [key_id|]; [|apply keeps_raise].
  destruct (AWS_SECRET_ACCESS_KEY S) as [secret|]; [|apply keeps_raise].
  destruct (AWS_BUCKET_NAME S) as [bkt|]; [|apply keeps_raise].
  destruct (PyStr.truthy bkt); [|apply keeps_raise].
  destruct (MEDIA_ROOT S) as [root|]; [|apply keeps_raise].
  destruct (PyStr.truthy root); [|apply keeps_raise].
  unfold Push.push. apply keeps_bind; [|intros _].
  { apply keeps_modify. intros w [Hq Hc Hk]. split; auto. simpl.
    apply Forall_app. split; [assumption|apply queued_of_uploads]. }
  apply keeps_bind; [apply grows_make_workers|intros ks].
  apply keeps_modify. intros w [Hq Hc Hk]. split; auto.
Qed.

End Grows.

Ltac grows_steps :=
  repeat first
    [ apply keeps_ret | apply keeps_raise
    | apply keeps_on_self
    | apply keeps_in_world
    | apply grows_print | apply grows_get_key | apply grows_make_public
    | apply grows_guarded_write
    | apply keeps_gets_any
    | apply keeps_when | apply keeps_attempt
    | match goal with
      | |- keeps _ (match ?x with _ => _ end) => destruct x eqn:?
      end
    | apply keeps_bind; [|intros ?] ].

Section GrowsWorker.
Variable w0 : world.
Variable E : env.

Lemma grows_upload_s3 (f : S3File) :
  keeps (fun p => grows w0 (wld p)) (upload_s3 E f).
Proof.
  unfold upload_s3, check_unchanged, send_file, write_step, os_stat_mtime,
    open_read.
  grows_steps.
Qed.

Lemma grows_run_report : keeps (fun p => grows w0 (wld p)) run_report.
Proof. unfold run_report. grows_steps. Qed.

Lemma grows_run_iteration :
  keeps (fun p => grows w0 (wld p)) (run_iteration E).
Proof.
  unfold run_iteration. apply keeps_gets. intros s [Hq Hc Hk].
  destruct (queue (wld s)) as [|f rest]; [apply keeps_ret|].
  inversion Hq as [|? ? Hf Hrest]; subst.
  apply keeps_bind; [|intros _].
  { apply keeps_modify. intros s' [Hq' Hc' Hk']. split; auto. }
  apply keeps_bind; [|intros _; apply keeps_ret].
  unfold do_delete. rewrite Hf. apply grows_upload_s3.
Qed.

End GrowsWorker.

Lemma grows_run_command E S O media schedule w0 :
  keeps (grows w0) (Push.run_command E S O media schedule).
Proof.
  unfold Push.run_command.
  apply keeps_bind; [apply grows_push_handle|intros _].
  intros s r s' Hs [= _ <-].
  destruct (run_pool E schedule (processes s) s) as [ps w1] eqn:R.
  assert (grows w0 w1) as [Hq Hc Hk].
  { eapply (inv_run_pool E (grows w0)); [| |exact Hs|exact R].
    - apply grows_run_iteration.
    - apply grows_run_report. }
  split; auto.
Qed.

(** X4.  The push command never deletes.  Whatever the settings, the
    options, the tree and the order in which the workers take their turns,
    and however the command ends, no [delete_key] call is among the calls
    it makes on S3, and every key that was in a bucket before the command
    is in that bucket after it; this holds from any queue that holds no
    delete. *)
Theorem push_never_deletes
    (E : env) (S : settings) (O : Push.options) (media : dir)
    (schedule : list sched_event) (w w' : world) (r : res unit) :
  Forall (fun f => delete_flag f = false) (queue w) ->
  Push.run_command E S O media schedule w = (r, w') ->
  (exists d, calls w' = calls w ++ d /\
             Forall (fun c => is_DeleteKey c = false) d) /\
  (forall b k, is_Some (bucket_of b (s3 w) !! k) ->
               is_Some (bucket_of b (s3 w') !! k)).
Proof.
  intros Hq Hrun.
  destruct (grows_run_command E S O media schedule w w r w'
              (grows_refl w Hq) Hrun) as [_ Hc Hk].
  split; assumption.
Qed.

Lemma push_never_deletes_witness :
  let w := Demo.world_with [("static/old.css", Demo.stored "css" 10)] [] in
  let run := Push.run_command (Demo.E Demo.no_fault) Demo.conf
               (DemoPush.opts false false 2) DemoPush.media
               [Step 1; Step 0] w in
  (exists d, calls (snd run) = calls w ++ d /\
             Forall (fun c => is_DeleteKey c = false) d) /\
  (forall b k, is_Some (bucket_of b (s3 w) !! k) ->
               is_Some (bucket_of b (s3 (snd run)) !! k)).
Proof.
  intros w run.
  apply (push_never_deletes (Demo.E Demo.no_fault) Demo.conf
           (DemoPush.opts false false 2) DemoPush.media [Step 1; Step 0]
           w (snd run) (fst run)).
  - constructor.
  - apply surjective_pairing.
Defined.

(** [handle] of the svn-sync command asks for the same settings. *)
Lemma handle_settings E S O C schedule w :
  AWS_ACCESS_KEY_ID S = None \/ AWS_SECRET_ACCESS_KEY S = None \/
  AWS_BUCKET_NAME S = None \/ AWS_BUCKET_NAME S = Some "" \/
  MEDIA_ROOT S = None \/ MEDIA_ROOT S = Some "" ->
  exists message,
    handle E S O C schedule w = (Raise (CommandError message), w).
Proof.
  unfold handle.
  destruct (AWS_ACCESS_KEY_ID S) as [key_id|];
    [|intros _; eexists; reflexivity].
  destruct (AWS_SECRET_ACCESS_KEY S) as [secret|];
    [|intros _; eexists; reflexivity].
  destruct (AWS_BUCKET_NAME S) as [bkt|];
    [|intros _; eexists; reflexivity].
  destruct (PyStr.truthy bkt) eqn:Tb; [|intros _; eexists; reflexivity].
  destruct (MEDIA_ROOT S) as [root|]; [|intros _; eexists; reflexivity].
  destruct (PyStr.truthy root) eqn:Tr; [|intros _; eexists; reflexivity].
  intros [H|[H|[H|[H|[H|H]]]]]; try discriminate H.
  - inversion H; subst. discriminate Tb.
  - inversion H; subst. discriminate Tr.
Qed.

Lemma push_handle_settings S O media w :
  AWS_ACCESS_KEY_ID S = None \/ AWS_SECRET_ACCESS_KEY S = None \/
  AWS_BUCKET_NAME S = None \/ AWS_BUCKET_NAME S = Some "" \/
  MEDIA_ROOT S = None \/ MEDIA_ROOT S = Some "" ->
  exists message,
    Push.handle S O media w = (Raise (CommandError message), w).
Proof.
  unfold Push.handle.
  destruct (AWS_ACCESS_KEY_ID S) as [key_id|];
    [|intros _; eexists; reflexivity].
  destruct (AWS_SECRET_ACCESS_KEY S) as [secret|];
    [|intros _; eexists; reflexivity].
  destruct (AWS_BUCKET_NAME S) as [bkt|];
    [|intros _; eexists; reflexivity].
  destruct (PyStr.truthy bkt) eqn:Tb; [|intros _; eexists; reflexivity].
  destruct (MEDIA_ROOT S) as [root|]; [|intros _; eexists; reflexivity].
  destruct (PyStr.truthy root) eqn:Tr; [|intros _; eexists; reflexivity].
  intros [H|[H|[H|[H|[H|H]]]]]; try discriminate H.
  - inversion H; subst. discriminate Tb.
  - inversion H; subst. discriminate Tr.
Qed.

(** X5.  Both commands stop before they do anything when a setting is
    missing.  If [AWS_ACCESS_KEY_ID] or [AWS_SECRET_ACCESS_KEY] is not set,
    or [AWS_BUCKET_NAME] or [MEDIA_ROOT] is not set or is the empty string,
    [handle] raises a [CommandError], in the svn-sync command and in the
    push command alike, and the world is as it was: no call was made on
    S3, nothing was printed, queued or started. *)
Theorem commands_require_settings
    (E : env) (S : settings) (O : options) (PO : Push.options)
    (C : svn_client) (media : dir) (schedule : list sched_event)
    (w : world) :
  AWS_ACCESS_KEY_ID S = None \/ AWS_SECRET_ACCESS_KEY S = None \/
  AWS_BUCKET_NAME S = None \/ AWS_BUCKET_NAME S = Some "" \/
  MEDIA_ROOT S = None \/ MEDIA_ROOT S = Some "" ->
  (exists message,
      handle E S O C schedule w = (Raise (CommandError message), w)) /\
  (exists message,
      Push.handle S PO media w = (Raise (CommandError message), w)).
Proof.
  intros H. split; [now apply handle_settings|now apply push_handle_settings].
Qed.

Lemma commands_require_settings_witness :
  let S := {| AWS_ACCESS_KEY_ID := Some "id";
              AWS_SECRET_ACCESS_KEY := Some "secret";
              AWS_BUCKET_NAME := Some ""; MEDIA_ROOT := Some "/media" |} in
  (exists message,
      handle (Demo.E Demo.no_fault) S (Demo.opts false 2)
        (Demo.svn Demo.clean) [] (Demo.synced_at 37)
      = (Raise (CommandError message), Demo.synced_at 37)) /\
  (exists message,
      Push.handle S (DemoPush.opts false false 2) DemoPush.media
        (Demo.synced_at 37)
      = (Raise (CommandError message), Demo.synced_at 37)).
Proof.
  intros S.
  apply (commands_require_settings (Demo.E Demo.no_fault) S
           (Demo.opts false 2) (DemoPush.opts false false 2)
           (Demo.svn Demo.clean) DemoPush.media [] (Demo.synced_at 37)).
  right. right. right. left. reflexivity.
Defined.

(** ** More on [upload_s3] *)

(** X6.  A file that is not there.  When the local file of an upload does
    not exist, [upload_s3] raises: [OSError], from [os.stat], when the
    timestamp check finds the key in the bucket, and [IOError], from
    [open], otherwise.  The file is opened before the [try] block, so the
    exception is not caught: no write is made, the counters are as they
    were, and the one call made is the [get_key] of the timestamp check,
    when [do_force] is off. *)
Theorem upload_s3_missing_file (E : env) (f : S3File) (p : proc) :
  fs E !! filename f = None ->
  let b := aws_bucket (self p) in
  exists p',
    upload_s3 E f p =
      (Raise (match bucket_of b (s3 (wld p)) !! file_key f with
              | Some _ => if do_force (self p) then IOError else OSError
              | None => IOError
              end), p') /\
    self p' = self p /\ s3 (wld p') = s3 (wld p) /\
    queue (wld p') = queue (wld p) /\
    calls (wld p') = calls (wld p) ++
      (if do_force (self p) then [] else [GetKey b (file_key f)]).
Proof.
  intros Hf b. subst b. unfold upload_s3, check_unchanged, send_file.
  run_monad. rewrite Hf.
  destruct (do_force (self p)); simpl.
  - destruct (0 <? verbosity (self p)); simpl; rewrite ?Hf;
      destruct (bucket_of _ _ !! _); eexists; (split; [reflexivity|]);
      simpl; rewrite ?app_nil_r; repeat split; try reflexivity;
      try (now destruct p).
  - destruct (bucket_of _ _ !! _); simpl.
    + eexists. split; [reflexivity|]. simpl.
      repeat split; try reflexivity; try (now destruct p).
    + destruct (0 <? verbosity (self p)); simpl; rewrite ?Hf;
        eexists; (split; [reflexivity|]);
        simpl; repeat split; try reflexivity; try (now destruct p).
Qed.

Lemma upload_s3_missing_file_witness :
  exists p',
    upload_s3 (Demo.E Demo.no_fault) (Demo.upload "gone.css")
      (Demo.at_work (Demo.worker false false true)
         (Demo.world_with [("gone.css", Demo.stored "css" 10)] []))
    = (Raise OSError, p') /\
    calls (wld p') = [GetKey "media" "gone.css"].
Proof.
  destruct (upload_s3_missing_file (Demo.E Demo.no_fault)
              (Demo.upload "gone.css")
              (Demo.at_work (Demo.worker false false true)
                 (Demo.world_with [("gone.css", Demo.stored "css" 10)] [])))
    as (p' & R & _ & _ & _ & Hc).
  - reflexivity.
  - exists p'. split; [exact R | exact Hc].
Defined.

(** After a skip, the same upload is skipped again. *)
Lemma skipped_again E f p o file :
  do_force (self p) = false ->
  bucket_of (aws_bucket (self p)) (s3 (wld p)) !! file_key f = Some o ->
  fs E !! filename f = Some file ->
  st_mtime file < last_modified o ->
  exists p',
    upload_s3 E f p = (Ok tt, p') /\
    self p' = incr_skip_count (self p) /\
    s3 (wld p') = s3 (wld p) /\
    calls (wld p') = calls (wld p) ++
      [GetKey (aws_bucket (self p)) (file_key f)].
Proof.
  intros F L Hf Ht.
  destruct (check_unchanged_newer E f p o file F L Hf Ht)
    as (p' & R & Hs & Hs3 & _ & Hc).
  exists p'. split; [now apply upload_s3_skips|]. auto.
Qed.

(** X7.  An upload made twice is made once, for a file that was last
    modified before the second in which it is uploaded.  A worker without
    [do_force], outside a dry run, executes the upload of a file whose
    modification time is earlier than the date, cut to the second, that the
    store gives to what it receives now, and the store accepts what is
    written.  When the same upload is executed again, it is skipped: the one
    call made is the [get_key] of the timestamp check, S3 is as the first
    upload left it, and the skip counter goes up by one. *)
Theorem second_upload_is_skipped
    (E : env) (f : S3File) (p : proc) (file : localfile) :
  do_force (self p) = false ->
  dry_run (self p) = false ->
  fs E !! filename f = Some file ->
  write_fault E (file_key f) = None ->
  write_fault E (gz_key (file_key f)) = None ->
  st_mtime file < http_date (now E) ->
  exists p1 p2,
    upload_s3 E f p = (Ok tt, p1) /\
    upload_s3 E f p1 = (Ok tt, p2) /\
    s3 (wld p2) = s3 (wld p1) /\
    calls (wld p2) = calls (wld p1) ++
      [GetKey (aws_bucket (self p)) (file_key f)] /\
    skip_count (self p2) = skip_count (self p1) + 1 /\
    upload_count (self p2) = upload_count (self p1).
Proof.
  intros F D Hf W1 W2 Ht.
  assert (exists p1 o,
             upload_s3 E f p = (Ok tt, p1) /\
             do_force (self p1) = false /\
             aws_bucket (self p1) = aws_bucket (self p) /\
             bucket_of (aws_bucket (self p)) (s3 (wld p1)) !! file_key f
               = Some o /\
             st_mtime file < last_modified o) as (p1 & o & R1 & F1 & B1 & L1 & T1).
  { destruct (bucket_of (aws_bucket (self p)) (s3 (wld p)) !! file_key f)
      as [o|] eqn:L.
    - destruct (Z.lt_ge_cases (st_mtime file) (last_modified o))
        as [Hlt|Hge].
      + destruct (skipped_again E f p o file F L Hf Hlt)
          as (p1 & R1 & Hs & Hs3 & _).
        exists p1, o. rewrite Hs, Hs3. auto.
      + pose proof (check_unchanged_older E f p o file F L Hf Hge) as Rc.
        destruct (send_file_written E f (asked (file_key f) p) file
                    D Hf W1 (fun _ => W2))
          as (p1 & R1 & Hs & _ & _ & _ & Hb).
        exists p1, (uploaded E (filedata file) (send_headers E (self p) f)).
        rewrite (upload_s3_sends _ _ _ _ Rc), Hs. simpl in Hb.
        repeat split; auto. rewrite Hb.
        destruct (gzip_eligible _ _ _ _); simpl.
        * rewrite lookup_insert_ne by apply gz_key_neq.
          apply lookup_insert_eq.
        * apply lookup_insert_eq.
    - pose proof (check_unchanged_absent E f p F L) as Rc.
      destruct (send_file_written E f (asked (file_key f) p) file
                  D Hf W1 (fun _ => W2))
        as (p1 & R1 & Hs & _ & _ & _ & Hb).
      exists p1, (uploaded E (filedata file) (send_headers E (self p) f)).
      rewrite (upload_s3_sends _ _ _ _ Rc), Hs. simpl in Hb.
      repeat split; auto. rewrite Hb.
      destruct (gzip_eligible _ _ _ _); simpl.
      * rewrite lookup_insert_ne by apply gz_key_neq.
        apply lookup_insert_eq.
      * apply lookup_insert_eq. }
  rewrite <- B1 in L1.
  destruct (skipped_again E f p1 o file F1 L1 Hf T1)
    as (p2 & R2 & Hs & Hs3 & Hc).
  exists p1, p2. rewrite Hs, <- B1. repeat split; auto.
Qed.

Lemma second_upload_is_skipped_witness :
  let E := {| guess_type := Demo.guess_type_by_ext;
              compress_string := fun _ => "gzipped";
              formatdate := fun _ => "Sat, 01 Jan 2028 00:00:00";
              ctime := fun _ => "Thu Jan  1 00:00:02 1970";
              now := 2000300; fs := Demo.files;
              write_fault := Demo.no_fault |} in
  exists p1 p2,
    upload_s3 E (Demo.upload "a.css")
      (Demo.at_work (Demo.worker false false true) (Demo.world_with [] []))
    = (Ok tt, p1) /\
    upload_s3 E (Demo.upload "a.css") p1 = (Ok tt, p2) /\
    s3 (wld p2) = s3 (wld p1) /\
    skip_count (self p2) = skip_count (self p1) + 1.
Proof.
  intros E.
  destruct (second_upload_is_skipped E (Demo.upload "a.css")
              (Demo.at_work (Demo.worker false false true)
                 (Demo.world_with [] []))
              {| filedata := Demo.bytes 1025; st_mtime := 500 |})
    as (p1 & p2 & R1 & R2 & Hs & _ & Hk & _);
    try reflexivity.
  exists p1, p2. auto.
Defined.

(** The headers that [upload_s3] sends, key by key. *)
Lemma send_headers_lookup (E : env) (k : S3UploadWorker) (f : S3File) :
  let hs := send_headers E k f in
  hs !! "Content-Encoding" = None /\
  hs !! "Expires" =
    (if do_expires k then Some (formatdate E (now E + two_years) +:+ " GMT")
     else None) /\
  hs !! "Cache-Control" =
    (if do_expires k then Some "max-age 63072000" else None) /\
  hs !! "Content-Type" =
    match guess_type E (filename f) with
    | Some ct => if PyStr.truthy ct then Some ct else None
    | None => None
    end.
Proof.
  unfold send_headers, expires_headers, content_headers, expires_value,
    cache_control_value.
  destruct (do_expires k), (guess_type E (filename f)) as [ct|];
    [destruct (PyStr.truthy ct)| |destruct (PyStr.truthy ct)|]; cbn zeta.
  all: repeat split.
  all: repeat first
         [ rewrite lookup_insert_eq
         | rewrite lookup_insert_ne by discriminate
         | rewrite lookup_singleton_eq
         | rewrite lookup_singleton_ne by discriminate
         | rewrite lookup_empty ];
       reflexivity.
Qed.

(** X8.  What is stored for a file.  A forced upload, outside a dry run, of
    a file that can be read, its writes accepted by the store, leaves under
    the key of the file an object that holds the bytes of the file as they
    are, is public, and is dated by the store.  Its headers are the
    [Content-Type] that [mimetypes] guesses, if any, and, exactly when
    [do_expires] is set, [Expires], the date two years from now followed by
    [GMT], and [Cache-Control: max-age 63072000].  It never carries
    [Content-Encoding], also when the gzip variant is written next to it:
    the variant does not replace the file. *)
Theorem upload_s3_stores_the_file
    (E : env) (f : S3File) (p : proc) (file : localfile) :
  do_force (self p) = true ->
  dry_run (self p) = false ->
  fs E !! filename f = Some file ->
  write_fault E (file_key f) = None ->
  write_fault E (gz_key (file_key f)) = None ->
  exists p' o,
    upload_s3 E f p = (Ok tt, p') /\
    bucket_of (aws_bucket (self p)) (s3 (wld p')) !! file_key f = Some o /\
    obj_body o = FileBody (filedata file) /\
    obj_public o = true /\
    last_modified o = http_date (now E) /\
    obj_headers o !! "Content-Encoding" = None /\
    obj_headers o !! "Expires" =
      (if do_expires (self p)
       then Some (formatdate E (now E + two_years) +:+ " GMT") else None) /\
    obj_headers o !! "Cache-Control" =
      (if do_expires (self p) then Some "max-age 63072000" else None) /\
    obj_headers o !! "Content-Type" =
      match guess_type E (filename f) with
      | Some ct => if PyStr.truthy ct then Some ct else None
      | None => None
      end.
Proof.
  intros F D Hf W1 W2.
  destruct (send_file_written E f p file D Hf W1 (fun _ => W2))
    as (p' & R & _ & _ & _ & _ & Hb).
  exists p', (uploaded E (filedata file) (send_headers E (self p) f)).
  split.
  { rewrite (upload_s3_sends E f p p (check_unchanged_forced E f p F)).
    exact R. }
  split.
  { simpl in Hb. rewrite Hb. destruct (gzip_eligible _ _ _ _); simpl.
    - rewrite lookup_insert_ne by apply gz_key_neq. apply lookup_insert_eq.
    - apply lookup_insert_eq. }
  do 3 (split; [reflexivity|]).
  apply (send_headers_lookup E (self p) f).
Qed.

Lemma upload_s3_stores_the_file_witness :
  exists p' o,
    upload_s3 (Demo.E Demo.no_fault) (Demo.upload "a.css")
      (Demo.at_work (Demo.worker true false true) (Demo.world_with [] []))
    = (Ok tt, p') /\
    bucket_of "media" (s3 (wld p')) !! "a.css" = Some o /\
    obj_body o = FileBody (Demo.bytes 1025) /\
    obj_headers o !! "Content-Encoding" = None /\
    obj_headers o !! "Content-Type" = Some "text/css".
Proof.
  destruct (upload_s3_stores_the_file (Demo.E Demo.no_fault)
              (Demo.upload "a.css")
              (Demo.at_work (Demo.worker true false true)
                 (Demo.world_with [] []))
              {| filedata := Demo.bytes 1025; st_mtime := 500 |})
    as (p' & o & R & L & Hb & _ & _ & He & _ & _ & Ht);
    try reflexivity.
  exists p', o. auto.
Defined.

(** X9.  The edge of the gzip threshold.  A forced upload with gzip on,
    outside a dry run, of a file of 1024 bytes or fewer whose content type
    is one of [GZIP_CONTENT_TYPES]: nothing is written under the
    gzip-variant key, and [Skipping gzip ..., less than 1k] is printed
    exactly when the verbosity is above zero and the file has fewer than
    1024 bytes.  A file of exactly 1024 bytes is neither compressed nor
    reported. *)
Theorem gzip_skip_is_reported_below_1024
    (E : env) (f : S3File) (p : proc) (file : localfile) :
  do_force (self p) = true ->
  dry_run (self p) = false ->
  do_gzip (self p) = true ->
  in_gzip_content_types (guess_type E (filename f)) = true ->
  fs E !! filename f = Some file ->
  write_fault E (file_key f) = None ->
  Z.of_nat (String.length (filedata file)) <= 1024 ->
  exists p' out,
    upload_s3 E f p = (Ok tt, p') /\
    stdout (wld p') = stdout (wld p) ++ out /\
    (MsgSkippingGzip (file_key f) ∈ out <->
     0 < verbosity (self p) /\
     Z.of_nat (String.length (filedata file)) < 1024) /\
    bucket_of (aws_bucket (self p)) (s3 (wld p')) !! gz_key (file_key f) =
    bucket_of (aws_bucket (self p)) (s3 (wld p)) !! gz_key (file_key f).
Proof.
  intros F D G T Hf W1 Hsize.
  rewrite (upload_s3_sends E f p p (check_unchanged_forced E f p F)).
  assert ((1024 <? Z.of_nat (String.length (filedata file))) = false) as Hle
    by (apply Z.ltb_ge; exact Hsize).
  unfold send_file, write_step. run_monad.
  rewrite Hf, D, G. simpl. rewrite W1. simpl. rewrite Hle, T. simpl.
  rewrite !andb_true_r.
  assert (gz_key (file_key f) <> file_key f) as Hne by apply gz_key_neq.
  destruct (Z.ltb_spec 0 (verbosity (self p))) as [V0|V0];
    destruct (do_expires (self p));
    destruct (Z.ltb_spec 1 (verbosity (self p))) as [V1|V1];
    destruct (Z.ltb_spec (Z.of_nat (String.length (filedata file))) 1024)
      as [Hlt|Hge];
    simpl; try lia.
  all: eexists; eexists; (split; [reflexivity|]); simpl.
  all: rewrite <- ?app_assoc; simpl.
  all: split;
    [first [reflexivity | symmetry; apply app_nil_r]|].
  all: rewrite ?bucket_of_insert, ?alter_insert_eq.
  all: rewrite ?(lookup_insert_ne _ _ _ _ (not_eq_sym Hne)).
  all: split; [|reflexivity].
  all: split;
    [ intros Hin;
      repeat (apply elem_of_cons in Hin as [Hin|Hin]; [try discriminate Hin|]);
      try (now apply elem_of_nil in Hin); try lia
    | intros [? ?]; try lia ].
  all: repeat first [ apply elem_of_cons; left; reflexivity
                    | apply elem_of_cons; right ].
Qed.

Lemma gzip_skip_is_reported_witness :
  exists p' out,
    upload_s3 (Demo.E Demo.no_fault) (Demo.upload "b.js")
      (Demo.at_work (Demo.worker true false true) (Demo.world_with [] []))
    = (Ok tt, p') /\
    stdout (wld p') = out /\
    ~ MsgSkippingGzip "b.js" ∈ out /\
    bucket_of "media" (s3 (wld p')) !! "b.gz.js" = None.
Proof.
  destruct (gzip_skip_is_reported_below_1024 (Demo.E Demo.no_fault)
              (Demo.upload "b.js")
              (Demo.at_work (Demo.worker true false true)
                 (Demo.world_with [] []))
              {| filedata := Demo.bytes 1024; st_mtime := 500 |})
    as (p' & out & R & Hout & Hiff & Hgz); try reflexivity.
  exists p', out. split; [exact R|]. split; [exact Hout|].
  split; [|exact Hgz].
  intros Hin. apply Hiff in Hin as [_ Hlt]. vm_compute in Hlt.
  discriminate Hlt.
Defined.

(** [send_file] when the store refuses the gzip variant. *)
Lemma send_file_gz_fault E f p file e :
  dry_run (self p) = false -> fs E !! filename f = Some file ->
  write_fault E (file_key f) = None ->
  gzip_eligible E (self p) f (filedata file) = true ->
  write_fault E (gz_key (file_key f)) = Some e ->
  let b := aws_bucket (self p) in
  let hs := send_headers E (self p) f in
  exists p',
    send_file E f p = (if is_S3CreateError e then Ok tt else Raise e, p') /\
    self p' = self p /\
    queue (wld p') = queue (wld p) /\
    bucket_of b (s3 (wld p')) =
      <[file_key f := uploaded E (filedata file) hs]>
        (bucket_of b (s3 (wld p))) /\
    calls (wld p') = calls (wld p) ++
      [SetContents b (file_key f) (FileBody (filedata file)) hs;
       MakePublic b (file_key f);
       SetContents b (gz_key (file_key f))
         (FileBody (compress_string E (filedata file))) (gzip_headers hs)] /\
    (if is_S3CreateError e then MsgFailed e else MsgException e)
      ∈ stdout (wld p').
Proof.
  intros D Hf W1 G W2 b hs. subst b hs.
  revert G. unfold gzip_eligible, send_headers.
  unfold send_file, write_step. run_monad.
  rewrite Hf, D. simpl. rewrite W1. simpl. rewrite andb_true_r.
  destruct (do_gzip (self p)); [|discriminate]. simpl. intros G.
  rewrite G. simpl. rewrite W2. simpl.
  destruct (0 <? verbosity (self p)), (do_expires (self p)),
    (1 <? verbosity (self p)); simpl;
    destruct (is_S3CreateError e); simpl;
    eexists; (split; [reflexivity|]); simpl.
  all: rewrite <- ?app_assoc; simpl.
  all: rewrite ?bucket_of_insert, ?alter_insert_eq.
  all: repeat split; try reflexivity; try (now destruct p).
  all: apply elem_of_app; right;
    repeat first [ apply elem_of_cons; left; reflexivity
                 | apply elem_of_cons; right ].
Qed.

(** X10.  An upload that is half done.  The store accepts the file and
    answers the write of its gzip variant with an [S3CreateError].  The
    exception is caught and [Failed: ...] is printed, [upload_s3] returns
    and the worker goes on; the file is in the bucket, public, but it is
    not counted as uploaded, and nothing is stored under the gzip-variant
    key that was not there. *)
Theorem upload_s3_gzip_write_refused
    (E : env) (f : S3File) (p : proc) (file : localfile) :
  do_force (self p) = true ->
  dry_run (self p) = false ->
  fs E !! filename f = Some file ->
  gzip_eligible E (self p) f (filedata file) = true ->
  write_fault E (file_key f) = None ->
  write_fault E (gz_key (file_key f)) = Some S3CreateError ->
  let b := aws_bucket (self p) in
  exists p',
    upload_s3 E f p = (Ok tt, p') /\
    upload_count (self p') = upload_count (self p) /\
    MsgFailed S3CreateError ∈ stdout (wld p') /\
    bucket_of b (s3 (wld p')) !! file_key f =
      Some (uploaded E (filedata file) (send_headers E (self p) f)) /\
    bucket_of b (s3 (wld p')) !! gz_key (file_key f) =
      bucket_of b (s3 (wld p)) !! gz_key (file_key f).
Proof.
  intros F D Hf G W1 W2 b. subst b.
  destruct (send_file_gz_fault E f p file S3CreateError D Hf W1 G W2)
    as (p' & R & Hs & _ & Hb & _ & Hm).
  exists p'. simpl in R, Hb, Hm.
  rewrite (upload_s3_sends E f p p (check_unchanged_forced E f p F)).
  split; [exact R|]. split; [now rewrite Hs|]. split; [exact Hm|].
  rewrite Hb. split; [apply lookup_insert_eq|].
  apply lookup_insert_ne. intros H. symmetry in H. revert H.
  apply gz_key_neq.
Qed.

Lemma upload_s3_gzip_write_refused_witness :
  exists p',
    upload_s3 (Demo.E (Demo.fault_at "a.gz.css" S3CreateError))
      (Demo.upload "a.css")
      (Demo.at_work (Demo.worker true false true) (Demo.world_with [] []))
    = (Ok tt, p') /\
    upload_count (self p') = 0 /\
    is_Some (bucket_of "media" (s3 (wld p')) !! "a.css") /\
    bucket_of "media" (s3 (wld p')) !! "a.gz.css" = None.
Proof.
  destruct (upload_s3_gzip_write_refused
              (Demo.E (Demo.fault_at "a.gz.css" S3CreateError))
              (Demo.upload "a.css")
              (Demo.at_work (Demo.worker true false true)
                 (Demo.world_with [] []))
              {| filedata := Demo.bytes 1025; st_mtime := 500 |})
    as (p' & R & Hu & _ & Hk & Hgz); try reflexivity.
  exists p'. split; [exact R|]. split; [exact Hu|].
  split; [eexists; exact Hk|exact Hgz].
Defined.

(** [delete_s3], in a dry run and outside one. *)
Lemma delete_s3_run (f : S3File) (p : proc) :
  let b := aws_bucket (self p) in
  exists p',
    delete_s3 f p = (Ok tt, p') /\
    self p' = incr_delete_count (self p) /\
    queue (wld p') = queue (wld p) /\
    (forall b', b' <> b -> s3 (wld p') !! b' = s3 (wld p) !! b') /\
    bucket_of b (s3 (wld p')) =
      (if dry_run (self p) then bucket_of b (s3 (wld p))
       else delete (gz_key (file_key f))
              (delete (file_key f) (bucket_of b (s3 (wld p))))).
Proof.
  intros b. subst b. unfold delete_s3. run_monad.
  assert (file_key f <> gz_key (file_key f)) as Hne
    by (intros H; symmetry in H; revert H; apply gz_key_neq).
  destruct (dry_run (self p)); simpl.
  - destruct (0 <? verbosity (self p)); simpl;
      eexists; (split; [reflexivity|]); simpl; repeat split; reflexivity.
  - destruct (0 <? verbosity (self p)); simpl; rewrite bucket_of_insert;
      rewrite (lookup_delete_ne _ _ _ Hne);
      destruct (bucket_of (aws_bucket (self p)) (s3 (wld p))
                  !! gz_key (file_key f)) as [o|] eqn:G;
      simpl; eexists; (split; [reflexivity|]); simpl;
      rewrite ?bucket_of_insert.
    all: repeat split; try reflexivity.
    all: try (intros b' Hb'; rewrite !lookup_insert_ne by congruence;
              reflexivity).
    all: symmetry; apply delete_id;
      rewrite lookup_delete_ne by exact Hne; exact G.
Qed.

(** X11.  Upload, then delete.  A file is uploaded, with its gzip variant
    if it has one, and then a delete of the same key is executed.  When
    neither the key nor its gzip-variant key was in the bucket before, the
    bucket holds afterwards exactly what it held before: [delete_s3] undoes
    [upload_s3], the variant included. *)
Theorem delete_s3_undoes_upload_s3
    (E : env) (f g : S3File) (p : proc) (file : localfile) :
  do_force (self p) = true ->
  dry_run (self p) = false ->
  fs E !! filename f = Some file ->
  write_fault E (file_key f) = None ->
  write_fault E (gz_key (file_key f)) = None ->
  file_key g = file_key f ->
  let b := aws_bucket (self p) in
  bucket_of b (s3 (wld p)) !! file_key f = None ->
  bucket_of b (s3 (wld p)) !! gz_key (file_key f) = None ->
  exists p1 p2,
    upload_s3 E f p = (Ok tt, p1) /\
    is_Some (bucket_of b (s3 (wld p1)) !! file_key f) /\
    delete_s3 g p1 = (Ok tt, p2) /\
    bucket_of b (s3 (wld p2)) = bucket_of b (s3 (wld p)) /\
    upload_count (self p2) = upload_count (self p) + 1 /\
    delete_count (self p2) = delete_count (self p) + 1.
Proof.
  intros F D Hf W1 W2 Hk b L1 L2. subst b.
  destruct (send_file_written E f p file D Hf W1 (fun _ => W2))
    as (p1 & R1 & Hs1 & _ & _ & _ & Hb1).
  destruct (delete_s3_run g p1) as (p2 & R2 & Hs2 & _ & _ & Hb2).
  simpl in Hb1, Hb2. rewrite Hs1 in Hb2. simpl in Hb2.
  rewrite D, Hk in Hb2.
  assert (gz_key (file_key f) <> file_key f) as Hne by apply gz_key_neq.
  exists p1, p2.
  rewrite (upload_s3_sends E f p p (check_unchanged_forced E f p F)).
  split; [exact R1|]. split.
  { rewrite Hb1. destruct (gzip_eligible _ _ _ _); simpl.
    - rewrite lookup_insert_ne by exact Hne. rewrite lookup_insert_eq. eauto.
    - rewrite lookup_insert_eq. eauto. }
  split; [exact R2|]. split.
  { rewrite Hb2, Hb1. apply map_eq. intros k.
    destruct (decide (k = gz_key (file_key f))) as [->|Hk1].
    - rewrite lookup_delete_eq. now rewrite L2.
    - rewrite lookup_delete_ne by congruence.
      destruct (decide (k = file_key f)) as [->|Hk2].
      + rewrite lookup_delete_eq. now rewrite L1.
      + rewrite lookup_delete_ne by congruence.
        destruct (gzip_eligible _ _ _ _); simpl;
          rewrite ?lookup_insert_ne by congruence; reflexivity. }
  rewrite Hs2, Hs1. simpl. split; reflexivity.
Qed.

Lemma delete_s3_undoes_upload_s3_witness :
  let p := Demo.at_work (Demo.worker true false true)
             (Demo.world_with [("b.js", Demo.stored "js" 10)] []) in
  exists p1 p2,
    upload_s3 (Demo.E Demo.no_fault) (Demo.upload "a.css") p = (Ok tt, p1) /\
    is_Some (bucket_of "media" (s3 (wld p1)) !! "a.css") /\
    delete_s3 (Demo.remove "a.css") p1 = (Ok tt, p2) /\
    bucket_of "media" (s3 (wld p2)) = bucket_of "media" (s3 (wld p)).
Proof.
  intros p.
  destruct (delete_s3_undoes_upload_s3 (Demo.E Demo.no_fault)
              (Demo.upload "a.css") (Demo.remove "a.css") p
              {| filedata := Demo.bytes 1025; st_mtime := 500 |})
    as (p1 & p2 & R1 & H1 & R2 & Hb & _); try reflexivity.
  exists p1, p2. auto.
Defined.

(** ** The loop of a worker *)

Lemma run_report_run (p : proc) :
  exists p',
    run_report p = (Ok tt, p') /\ self p' = self p /\
    queue (wld p') = queue (wld p) /\ s3 (wld p') = s3 (wld p) /\
    calls (wld p') = calls (wld p).
Proof.
  unfold run_report. run_monad.
  destruct (0 <? verbosity (self p)), (1 <? verbosity (self p)),
    (upload_count (self p) =? 0), (skip_count (self p) =? 0),
    (delete_count (self p) =? 0); simpl;
    eexists; (split; [reflexivity|]); simpl; repeat split;
    try reflexivity; now destruct p.
Qed.

(** The timestamp check of a file that can be read returns. *)
Lemma check_unchanged_run E f p file :
  fs E !! filename f = Some file ->
  exists b p1,
    check_unchanged E f p = (Ok b, p1) /\
    queue (wld p1) = queue (wld p) /\
    dry_run (self p1) = dry_run (self p) /\
    self p1 = (if b then incr_skip_count (self p) else self p).
Proof.
  intros Hf. destruct (do_force (self p)) eqn:F.
  - exists false, p. rewrite (check_unchanged_forced E f p F). auto.
  - destruct (bucket_of (aws_bucket (self p)) (s3 (wld p)) !! file_key f)
      as [o|] eqn:L.
    + destruct (Z.lt_ge_cases (st_mtime file) (last_modified o))
        as [Hlt|Hge].
      * destruct (check_unchanged_newer E f p o file F L Hf Hlt)
          as (p1 & R & Hs & _ & Hq & _).
        exists true, p1. rewrite Hs. auto.
      * exists false, (asked (file_key f) p).
        rewrite (check_unchanged_older E f p o file F L Hf Hge). auto.
    + exists false, (asked (file_key f) p).
      rewrite (check_unchanged_absent E f p F L). auto.
Qed.

(** One file of the queue, executed by a worker whose store accepts every
    write. *)
Lemma job_run E f p :
  (forall key, write_fault E key = None) ->
  (do_delete f = false -> is_Some (fs E !! filename f)) ->
  exists p',
    (if do_delete f then delete_s3 f else upload_s3 E f) p = (Ok tt, p') /\
    queue (wld p') = queue (wld p) /\
    jobs_done (self p') = jobs_done (self p) + 1 /\
    delete_count (self p') =
      delete_count (self p) + (if do_delete f then 1 else 0).
Proof.
  intros W Hf. destruct (do_delete f).
  - destruct (delete_s3_run f p) as (p' & R & Hs & Hq & _).
    exists p'. rewrite Hs. unfold jobs_done. simpl.
    repeat split; auto; lia.
  - destruct (Hf eq_refl) as [file Hfile].
    destruct (check_unchanged_run E f p file Hfile)
      as (b & p1 & R1 & Hq1 & Hd1 & Hs1).
    destruct b.
    + exists p1. rewrite (upload_s3_skips E f p p1 R1), Hs1.
      unfold jobs_done. simpl. repeat split; auto; lia.
    + rewrite (upload_s3_sends E f p p1 R1).
      destruct (dry_run (self p1)) eqn:D.
      * destruct (send_file_dry E f p1 file D Hfile)
          as (p' & R & Hs & _ & _ & Hq).
        exists p'. rewrite Hs, Hs1. unfold jobs_done. simpl.
        repeat split; auto; try lia. congruence.
      * destruct (send_file_written E f p1 file D Hfile (W _) (fun _ => W _))
          as (p' & R & Hs & Hq & _).
        exists p'. rewrite Hs, Hs1. unfold jobs_done. simpl.
        repeat split; auto; try lia. congruence.
Qed.

Lemma run_iteration_empty E p :
  queue (wld p) = [] -> run_iteration E p = (Ok false, p).
Proof.
  intros Hq. unfold run_iteration.
  unfold mbind, M_bind, gets. now rewrite Hq.
Qed.

Lemma run_iteration_cons E f rest p r p1 :
  queue (wld p) = f :: rest ->
  (if do_delete f then delete_s3 f else upload_s3 E f)
    (on_wld (set_queue rest) p) = (r, p1) ->
  run_iteration E p =
    (match r with Ok _ => Ok true | Raise e => Raise e end, p1).
Proof.
  intros Hq R. unfold run_iteration.
  unfold mbind at 1, M_bind at 1, gets at 1. rewrite Hq.
  rewrite (bind_ok (modify (on_wld (set_queue rest))) _ p tt
             (on_wld (set_queue rest) p) eq_refl).
  destruct r as [[]|e].
  - now rewrite (bind_ok _ _ _ _ _ R).
  - now rewrite (bind_raise _ _ _ _ _ R).
Qed.

Lemma run_loop_drains E :
  (forall key, write_fault E key = None) ->
  forall q p n,
    queue (wld p) = q ->
    (forall f, f ∈ q -> do_delete f = false ->
               is_Some (fs E !! filename f)) ->
    (length q < n)%nat ->
    exists p',
      run_loop E n p = (Ok tt, p') /\
      queue (wld p') = [] /\
      jobs_done (self p') = jobs_done (self p) + Z.of_nat (length q) /\
      delete_count (self p') =
        delete_count (self p) + Z.of_nat (length (List.filter do_delete q)).
Proof.
  intros W. induction q as [|f rest IH]; intros p n Hq Hfs Hn.
  - destruct n as [|n]; [simpl in Hn; lia|].
    exists p. cbn [run_loop].
    rewrite (bind_ok _ _ _ _ _ (run_iteration_empty E p Hq)).
    simpl. repeat split; auto; lia.
  - destruct n as [|n]; [simpl in Hn; lia|].
    destruct (job_run E f (on_wld (set_queue rest) p) W)
      as (p1 & R1 & Hq1 & Hj1 & Hd1).
    { apply Hfs. apply elem_of_cons. now left. }
    destruct (IH p1 n) as (p' & R & Hq' & Hj & Hd).
    { rewrite Hq1. reflexivity. }
    { intros g Hg. apply Hfs. apply elem_of_cons. now right. }
    { simpl in Hn. lia. }
    exists p'. split.
    + cbn [run_loop].
      rewrite (bind_ok _ _ _ _ _ (run_iteration_cons E f rest p _ p1 Hq R1)).
      exact R.
    + split; [exact Hq'|]. simpl in Hj1, Hd1. rewrite Hj, Hj1, Hd, Hd1.
      simpl. destruct (do_delete f); simpl; split; lia.
Qed.

(** X12.  A worker alone counts every file.  The worker has the queue to
    itself, every file to upload can be read, and the store accepts every
    write.  Then [run] returns with the queue empty, and its three counters
    together have gone up by the length of the queue: every file was
    uploaded, skipped or deleted, and counted once; the delete counter has
    gone up by the number of deletes in the queue.  This holds in a dry run
    too, where the files are counted and nothing is sent. *)
Theorem run_counts_every_file (E : env) (p : proc) :
  (forall key, write_fault E key = None) ->
  (forall f, f ∈ queue (wld p) -> do_delete f = false ->
             is_Some (fs E !! filename f)) ->
  exists p',
    run E p = (Ok tt, p') /\
    queue (wld p') = [] /\
    jobs_done (self p') =
      jobs_done (self p) + Z.of_nat (length (queue (wld p))) /\
    delete_count (self p') =
      delete_count (self p)
      + Z.of_nat (length (List.filter do_delete (queue (wld p)))).
Proof.
  intros W Hfs.
  destruct (run_loop_drains E W (queue (wld p)) p
              (S (length (queue (wld p)))) eq_refl Hfs)
    as (p1 & R1 & Hq1 & Hj1 & Hd1); [lia|].
  destruct (run_report_run p1) as (p' & R & Hs & Hq & _).
  exists p'. split.
  - unfold run. unfold mbind at 1, M_bind at 1, gets at 1.
    rewrite (bind_ok _ _ _ _ _ R1). exact R.
  - rewrite Hs, Hq. auto.
Qed.

Lemma run_counts_every_file_witness :
  let p := Demo.at_work (Demo.worker true true true)
             (Demo.world_with [("old/c.png", Demo.stored "png" 10)]
                [Demo.upload "a.css"; Demo.remove "old/c.png";
                 Demo.upload "b.js"]) in
  exists p',
    run (Demo.E Demo.no_fault) p = (Ok tt, p') /\
    queue (wld p') = [] /\
    jobs_done (self p') = 3 /\
    delete_count (self p') = 1.
Proof.
  intros p.
  destruct (run_counts_every_file (Demo.E Demo.no_fault) p)
    as (p' & R & Hq & Hj & Hd).
  - reflexivity.
  - intros f Hf Hu.
    repeat (apply elem_of_cons in Hf as [->|Hf];
            [try discriminate Hu; eexists; reflexivity|]).
    now apply elem_of_nil in Hf.
  - exists p'. auto.
Defined.

(** ** The queue through a pool of workers *)

Ltac queue_steps q :=
  repeat first
    [ apply keeps_ret | apply keeps_raise
    | apply (keeps_on_self (fun w => queue w = q))
    | apply (keeps_in_world (fun w => queue w = q))
    | apply keeps_gets_any | apply keeps_when | apply keeps_attempt
    | (apply keeps_modify; intros ? ?; simpl; assumption)
    | match goal with
      | |- keeps _ (match ?x with _ => _ end) => destruct x eqn:?
      end
    | apply keeps_bind; [|intros ?] ].

(** A worker takes files off the queue and puts none on it. *)
Lemma queue_job E f q :
  keeps (fun p => queue (wld p) = q)
    (if do_delete f then delete_s3 f else upload_s3 E f).
Proof.
  unfold delete_s3, upload_s3, check_unchanged, send_file, write_step,
    os_stat_mtime, open_read, print, get_key, delete_key, guarded_write,
    set_contents_from_string, make_public.
  queue_steps q.
Qed.

Lemma queue_run_report q : keeps (fun p => queue (wld p) = q) run_report.
Proof. unfold run_report, print. queue_steps q. Qed.

(** [run_iteration] says [break] on the empty queue only. *)
Lemma run_iteration_break E p p' :
  run_iteration E p = (Ok false, p') -> queue (wld p) = [] /\ p' = p.
Proof.
  destruct (queue (wld p)) as [|f rest] eqn:Hq.
  - rewrite (run_iteration_empty E p Hq). intros [= <-]. auto.
  - destruct ((if do_delete f then delete_s3 f else upload_s3 E f)
                (on_wld (set_queue rest) p)) as [r p1] eqn:R.
    rewrite (run_iteration_cons E f rest p r p1 Hq R).
    destruct r; discriminate.
Qed.

Lemma run_iteration_queue E p r p' :
  run_iteration E p = (r, p') -> queue (wld p) = [] -> queue (wld p') = [].
Proof.
  intros R Hq. rewrite (run_iteration_empty E p Hq) in R.
  inversion R; subst. exact Hq.
Qed.

(** When the loop ends normally, the queue is empty. *)
Lemma run_loop_empties E n :
  forall p p',
    (length (queue (wld p)) < n)%nat ->
    run_loop E n p = (Ok tt, p') -> queue (wld p') = [].
Proof.
  induction n as [|n IH]; intros p p' Hn; [lia|].
  cbn [run_loop]. destruct (queue (wld p)) as [|f rest] eqn:Hq.
  - rewrite (bind_ok _ _ _ _ _ (run_iteration_empty E p Hq)).
    intros [= <-]. exact Hq.
  - destruct ((if do_delete f then delete_s3 f else upload_s3 E f)
                (on_wld (set_queue rest) p)) as [r p1] eqn:R.
    pose proof (queue_job E f rest (on_wld (set_queue rest) p) _ _
                  eq_refl R) as Hq1.
    pose proof (run_iteration_cons E f rest p r p1 Hq R) as Ri.
    destruct r as [[]|e].
    + rewrite (bind_ok _ _ _ _ _ Ri). apply IH.
      rewrite Hq1. simpl in Hn. lia.
    + rewrite (bind_raise _ _ _ _ _ Ri). discriminate.
Qed.

Lemma run_empties E p p' :
  run E p = (Ok tt, p') -> queue (wld p') = [].
Proof.
  unfold run. unfold mbind at 1, M_bind at 1, gets at 1. intros H.
  apply bind_inv in H as [([] & p1 & R1 & R2) | (e & _ & [=])].
  apply run_loop_empties in R1; [|lia].
  now apply (queue_run_report [] p1 _ _ R1 R2).
Qed.

Lemma run_on_empty E p r p' :
  queue (wld p) = [] -> run E p = (r, p') -> queue (wld p') = [].
Proof.
  intros Hq. unfold run. unfold mbind at 1, M_bind at 1, gets at 1.
  rewrite Hq. cbn [length run_loop].
  rewrite (bind_ok _ _ _ _ _
             (bind_ok _ _ _ _ _ (run_iteration_empty E p Hq))).
  intros R. now apply (queue_run_report [] p _ _ Hq R).
Qed.

Section PoolQueue.
Variable E : env.

(** [done ps]: some process of the pool has terminated with exit code 0. *)
Local Abbreviation done ps :=
  (exists q : process, q ∈ ps /\ exitcode q = Some 0).

Lemma step_process_queue p w p' w' :
  step_process E p w = (p', w') ->
  (queue w = [] -> queue w' = []) /\
  (exitcode p' = Some 0 -> exitcode p = Some 0 \/ queue w' = []).
Proof.
  unfold step_process. destruct (exitcode p) as [c|] eqn:X.
  - intros [= <- <-]. split; [auto|]. intros H. left. rewrite <- H. auto.
  - destruct (run_iteration E _) as [[[|]|e] st] eqn:R.
    + intros [= <- <-]. split.
      * apply (run_iteration_queue E {| self := target p; wld := w |} _ _ R).
      * discriminate.
    + destruct (run_report st) as [r st'] eqn:R'. intros [= <- <-].
      apply run_iteration_break in R as [Hq ->]. simpl in Hq.
      assert (queue (wld st') = []) as Hq'
        by (apply (queue_run_report [] {| self := target p; wld := w |}
                     _ _ Hq R')).
      split; auto.
    + intros [= <- <-]. split.
      * apply (run_iteration_queue E {| self := target p; wld := w |} _ _ R).
      * discriminate.
Qed.

Lemma finish_process_queue p w p' w' :
  finish_process E p w = (p', w') ->
  (queue w = [] -> queue w' = []) /\
  (exitcode p' = Some 0 -> exitcode p = Some 0 \/ queue w' = []).
Proof.
  unfold finish_process. destruct (exitcode p) as [c|] eqn:X.
  - intros [= <- <-]. split; [auto|]. intros H. left. rewrite <- H. auto.
  - destruct (run E _) as [[[]|e] st] eqn:R; intros [= <- <-]; split.
    + intros Hq.
      apply (run_on_empty E {| self := target p; wld := w |} _ _ Hq R).
    + intros _. right. apply (run_empties E _ _ R).
    + intros Hq.
      apply (run_on_empty E {| self := target p; wld := w |} _ _ Hq R).
    + discriminate.
Qed.

Lemma pool_event_queue ev ps w ps' w' :
  pool_event E ev (ps, w) = (ps', w') ->
  (queue w = [] -> queue w' = []) /\
  (done ps' -> done ps \/ queue w' = []).
Proof.
  unfold pool_event. destruct ev as [i | i signal].
  - destruct (ps !! i) as [p|] eqn:L; [|intros [= <- <-]; auto].
    destruct (step_process E p w) as [p1 w1] eqn:S1. intros [= <- <-].
    destruct (step_process_queue _ _ _ _ S1) as [H1 H2].
    split; [exact H1|]. intros (q & Hq & Hx).
    apply list_elem_of_lookup in Hq as [j Hj].
    apply list_lookup_insert_Some in Hj as [(-> & <- & _) | (Hne & Hj)].
    + destruct (H2 Hx) as [Hp|He]; [|now right].
      left. exists p. split; [|exact Hp].
      apply list_elem_of_lookup. eauto.
    + left. exists q. split; [|exact Hx].
      apply list_elem_of_lookup. eauto.
  - destruct (ps !! i) as [p|] eqn:L; intros [= <- <-]; auto.
    split; [auto|]. intros (q & Hq & Hx).
    apply list_elem_of_lookup in Hq as [j Hj].
    apply list_lookup_insert_Some in Hj as [(-> & <- & _) | (Hne & Hj)].
    + left. exists p. split; [apply list_elem_of_lookup; eauto|].
      unfold kill_process in Hx.
      destruct (exitcode p) eqn:X; [congruence|].
      simpl in Hx. discriminate Hx.
    + left. exists q. split; [|exact Hx].
      apply list_elem_of_lookup. eauto.
Qed.

Lemma join_all_queue ps w ps' w' :
  join_all E ps w = (ps', w') ->
  (queue w = [] -> queue w' = []) /\
  (done ps' -> done ps \/ queue w' = []).
Proof.
  revert w ps' w'. induction ps as [|p ps IH]; intros w ps' w'; simpl.
  - intros [= <- <-]. auto.
  - destruct (finish_process E p w) as [p1 w1] eqn:F1.
    destruct (join_all E ps w1) as [ps2 w2] eqn:Jn. intros [= <- <-].
    destruct (finish_process_queue _ _ _ _ F1) as [A1 A2].
    destruct (IH _ _ _ Jn) as [B1 B2].
    split; [auto|]. intros (q & Hq & Hx).
    apply elem_of_cons in Hq as [->|Hq].
    + destruct (A2 Hx) as [Hp|He]; [|right; auto].
      left. exists p. split; [apply elem_of_cons; now left|exact Hp].
    + destruct (B2 (ex_intro _ q (conj Hq Hx))) as [(q' & Hq' & Hx')|He];
        [|now right].
      left. exists q'. split; [apply elem_of_cons; now right|exact Hx'].
Qed.

(** When a process of the pool has terminated with exit code 0, none having
    terminated before the pool ran, the queue is empty. *)
Lemma run_pool_queue schedule ps w ps' w' :
  run_pool E schedule ps w = (ps', w') ->
  (queue w = [] -> queue w' = []) /\
  (done ps' -> done ps \/ queue w' = []).
Proof.
  unfold run_pool. revert ps w.
  induction schedule as [|ev evs IH]; intros ps w; cbn [fold_left].
  - destruct (join_all E ps w) as [ps1 w1] eqn:Jn. intros [= <- <-].
    now apply join_all_queue.
  - destruct (pool_event E ev (ps, w)) as [ps1 w1] eqn:Ev.
    destruct (pool_event_queue _ _ _ _ _ Ev) as [A1 A2].
    intros H. destruct (IH _ _ H) as [B1 B2].
    split; [auto|]. intros Hd.
    destruct (B2 Hd) as [Hd1|He]; [|now right].
    destruct (A2 Hd1) as [Hd0|He]; [now left|right; auto].
Qed.

End PoolQueue.

(** ** The svn-sync command, from the queue to the exit *)

Lemma settings_cases (S : settings) :
  (exists bkt key_id secret root, settings_ok S bkt key_id secret root) \/
  (AWS_ACCESS_KEY_ID S = None \/ AWS_SECRET_ACCESS_KEY S = None \/
   AWS_BUCKET_NAME S = None \/ AWS_BUCKET_NAME S = Some "" \/
   MEDIA_ROOT S = None \/ MEDIA_ROOT S = Some "").
Proof.
  unfold settings_ok.
  destruct (AWS_ACCESS_KEY_ID S) as [key_id|]; [|auto].
  destruct (AWS_SECRET_ACCESS_KEY S) as [secret|]; [|auto].
  destruct (AWS_BUCKET_NAME S) as [bkt|]; [|auto 6].
  destruct (MEDIA_ROOT S) as [root|]; [|auto 8].
  destruct (String.eqb_spec bkt "") as [->|Hb]; [auto 8|].
  destruct (String.eqb_spec root "") as [->|Hr]; [auto 10|].
  left. exists bkt, key_id, secret, root. unfold PyStr.truthy.
  apply String.eqb_neq in Hb, Hr. rewrite Hb, Hr. auto 10.
Qed.

(** The pool that [dispatch] runs. *)
Lemma dispatch_pool E O cmd schedule bkt key_id secret files w :
  let n := if opt_processes O <? 1 then 1 else opt_processes O in
  exists ks w1 ps w2,
    queue w1 = queue w ++ files /\
    run_pool E schedule (started <$> ks) w1 = (ps, w2) /\
    dispatch E O cmd schedule bkt key_id secret files w
      = (Ok tt, set_processes ps w2) /\
    length ps = Z.to_nat n.
Proof.
  intros n. unfold dispatch. fold n.
  destruct (make_workers_run (seqZ 0 n) bkt key_id secret (cmd_verbosity cmd)
              (opt_gzip O) (opt_expires O) (dryrun cmd)
              (set_queue (queue w ++ files) w))
    as (ks & w1 & R1 & Hall & Hlen & Hq & _ & W1).
  destruct (run_pool E schedule (started <$> ks) w1) as [ps w2] eqn:R2.
  exists ks, w1, ps, w2.
  assert (pool_ok bkt (dryrun cmd) (started <$> ks)) as Hok.
  { unfold pool_ok. apply Forall_fmap. exact Hall. }
  destruct (run_pool_ok E bkt (dryrun cmd) w1 schedule _ _ _ _ Hok
              (pool_frame_refl _ _ _) R2) as (_ & _ & Hl & _).
  split; [exact Hq|]. split; [exact R2|]. split.
  - rewrite (bind_ok (modify (fun w0 => set_queue (queue w0 ++ files) w0)) _
               w tt (set_queue (queue w ++ files) w) eq_refl). cbn beta.
    rewrite (bind_ok _ _ _ _ _ R1). cbn beta.
    unfold modify. now rewrite R2.
  - rewrite Hl, length_fmap, Hlen. apply length_seqZ.
Qed.

(** [finish] returns only when every worker has exit code 0. *)
Lemma finish_ok E C cmd bkt rev w w' :
  finish E C cmd bkt rev w = (Ok tt, w') ->
  Forall (fun p => exitcode p = Some 0) (processes w).
Proof.
  unfold finish. unfold mbind at 1, M_bind at 1, gets at 1.
  destruct (mapM exitcode (processes w)) as [codes|] eqn:Hm; [|discriminate].
  destruct (Z.eqb_spec (process_result_of codes) 0) as [Hz|]; [|discriminate].
  intros _. apply process_result_zero in Hz.
  apply mapM_Some in Hm. revert Hz.
  induction Hm as [|p c ps cs Hp _ IH]; intros Hz; [constructor|].
  inversion Hz; subst. constructor; auto.
Qed.

(** X13.  A run that returns has emptied the queue.  When [handle] of the
    svn-sync command returns normally, from an empty queue, the queue is
    empty again: every changed file was taken off it by a worker, every
    worker has terminated with exit code 0, and there are as many workers
    as the option asks for, one if it asks for less. *)
Theorem handle_returns_with_the_queue_empty
    (E : env) (S : settings) (O : options) (C : svn_client)
    (schedule : list sched_event) (w w' : world) :
  queue w = [] ->
  processes w = [] ->
  handle E S O C schedule w = (Ok tt, w') ->
  queue w' = [] /\
  Forall (fun p => exitcode p = Some 0) (processes w') /\
  length (processes w') = Z.to_nat (Z.max 1 (opt_processes O)).
Proof.
  intros Hq Hp H.
  destruct (settings_cases S) as [(bkt & key_id & secret & root & HS)|Hbad].
  2:{ destruct (handle_settings E S O C schedule w Hbad) as (m & Hm).
      rewrite Hm in H. discriminate. }
  rewrite (handle_sync E S O C schedule bkt key_id secret root HS) in H.
  unfold sync in H.
  apply bind_inv in H as [([rev files] & w1 & R1 & H) | (e & _ & [=])].
  apply bind_inv in H as [([] & w2 & R2 & H) | (e & _ & [=])].
  destruct (check_in_sync_ok _ _ _ _ R2) as [-> Hne].
  destruct (dispatch_pool E O (command_of O) schedule bkt key_id secret
              files w1) as (ks & wa & ps & wb & Hqa & Rp & Rd & Hl).
  rewrite (bind_ok _ _ _ _ _ Rd) in H.
  pose proof (finish_ok _ _ _ _ _ _ _ H) as Hz. simpl in Hz.
  assert (quiet (opt_dryrun O) bkt (set_processes ps wb) w') as Qf.
  { eapply (quiet_finish E C (command_of O)); [apply quiet_refl|exact H]. }
  destruct Qf as [Qq Qp _ _ _ _]. simpl in Qq, Qp.
  rewrite Qq, Qp. split; [|split; [exact Hz|]].
  - destruct (run_pool_queue E schedule _ _ _ _ Rp) as [_ Hdone].
    destruct ps as [|p0 ps'].
    { simpl in Hl. destruct (Z.ltb_spec (opt_processes O) 1); lia. }
    destruct Hdone as [(q & Hin & Hx)|He]; [| |exact He].
    + exists p0. split; [apply elem_of_cons; now left|].
      now inversion Hz.
    + apply list_elem_of_fmap in Hin as (k & -> & _). discriminate Hx.
  - rewrite Hl. f_equal. destruct (Z.ltb_spec (opt_processes O) 1); lia.
Qed.

Lemma handle_returns_with_the_queue_empty_witness :
  let run := handle (Demo.E Demo.no_fault) Demo.conf (Demo.opts false 0)
               (Demo.svn Demo.clean) [Step 0] (Demo.synced_at 37) in
  queue (snd run) = [] /\
  Forall (fun p => exitcode p = Some 0) (processes (snd run)) /\
  length (processes (snd run)) = 1%nat.
Proof.
  intros run.
  apply (handle_returns_with_the_queue_empty (Demo.E Demo.no_fault)
           Demo.conf (Demo.opts false 0) (Demo.svn Demo.clean) [Step 0]
           (Demo.synced_at 37) (snd run)).
  - reflexivity.
  - reflexivity.
  - assert (fst run = Ok tt) as <- by (vm_compute; reflexivity).
    apply surjective_pairing.
Defined.

(** ** Buckets are made, never removed *)

Lemma after_bind {S A B} (Q : S -> Prop) (m : M S A) (k : A -> M S B)
    (s : S) :
  (forall r1 s1, m s = (r1, s1) -> Q s1) ->
  (forall a, keeps Q (k a)) ->
  forall r s', (m ≫= k) s = (r, s') -> Q s'.
Proof.
  intros Hm Hk r s' H.
  apply bind_inv in H as [(a & s1 & R1 & R2) | (e & R1 & _)].
  - eapply Hk; [|exact R2]. eapply Hm; eauto.
  - eapply Hm; eauto.
Qed.

Section HasBucket.
Variable b : string.

Local Abbreviation has := (fun w : world => is_Some (s3 w !! b)).

Lemma has_insert (b' : string) (g : s3_store -> bucket) :
  keeps has (modify (set_s3 (fun s => <[b' := g s]> s))).
Proof.
  apply keeps_modify. intros s Hs. simpl.
  destruct (decide (b' = b)) as [->|Hne].
  - rewrite lookup_insert_eq. eauto.
  - now rewrite lookup_insert_ne.
Qed.

Lemma has_same (f : world -> world) :
  (forall w, s3 (f w) = s3 w) -> keeps has (modify f).
Proof. intros Hf. apply keeps_modify. intros s Hs. now rewrite Hf. Qed.

Lemma has_get_or_create_bucket (name : string) :
  keeps has (get_or_create_bucket name).
Proof.
  unfold get_or_create_bucket.
  apply keeps_bind; [now apply has_same|intros _].
  apply keeps_bind; [apply keeps_gets_any|intros s].
  destruct (s !! name); [apply keeps_ret|].
  apply keeps_bind; [now apply has_same|intros _].
  apply (has_insert name (fun _ => ∅)).
Qed.

(** After [get_or_create_bucket], the bucket is there. *)
Lemma get_or_create_bucket_has r w w' :
  get_or_create_bucket b w = (r, w') -> is_Some (s3 w' !! b).
Proof.
  unfold get_or_create_bucket, mbind, M_bind, modify, gets. simpl.
  destruct (s3 w !! b) eqn:L; intros [= _ <-]; simpl.
  - rewrite L. eauto.
  - rewrite lookup_insert_eq. eauto.
Qed.

End HasBucket.

Ltac has_steps b :=
  repeat first
    [ apply keeps_ret | apply keeps_raise
    | apply (keeps_on_self (fun w : world => is_Some (s3 w !! b)))
    | apply (keeps_in_world (fun w : world => is_Some (s3 w !! b)))
    | apply has_get_or_create_bucket
    | apply has_insert
    | (apply has_same; intros ?; reflexivity)
    | apply keeps_gets_any | apply keeps_when | apply keeps_attempt
    | match goal with
      | |- keeps _ (match ?x with _ => _ end) => destruct x eqn:?
      end
    | apply keeps_bind; [|intros ?] ].

Section HasBucketRun.
Variable b : string.
Variable E : env.

Local Abbreviation has := (fun w : world => is_Some (s3 w !! b)).

Lemma has_set_s3_revision cmd name doc bi :
  keeps has (set_s3_revision E cmd name doc bi).
Proof.
  unfold set_s3_revision, get_s3_svn_bucket, get_key,
    set_contents_from_string, print.
  has_steps b.
Qed.

Lemma has_print_outofsync l : keeps has (print_outofsync l).
Proof.
  induction l as [|[f st] l IH]; simpl; [apply keeps_ret|].
  apply keeps_bind; [unfold print; has_steps b|intros _; exact IH].
Qed.

Lemma has_check_in_sync C files : keeps has (check_in_sync C files).
Proof.
  unfold check_in_sync.
  destruct (outofsync_files_of C files); [destruct files|].
  - apply keeps_raise.
  - apply keeps_ret.
  - apply keeps_bind; [unfold print; has_steps b|intros _].
    apply keeps_bind; [apply has_print_outofsync|intros _].
    apply keeps_raise.
Qed.

Lemma has_make_workers nums bkt key_id secret verb gzip expires dry :
  keeps has (make_workers nums bkt key_id secret verb gzip expires dry).
Proof.
  induction nums as [|n nums IH]; simpl; [apply keeps_ret|].
  apply keeps_bind; [unfold worker_init, print; has_steps b|intros k].
  apply keeps_bind; [exact IH|intros ks; apply keeps_ret].
Qed.

Lemma has_job f :
  keeps (fun p => has (wld p))
    (if do_delete f then delete_s3 f else upload_s3 E f).
Proof.
  unfold delete_s3, upload_s3, check_unchanged, send_file, write_step,
    os_stat_mtime, open_read, print, get_key, delete_key, guarded_write,
    set_contents_from_string, make_public.
  has_steps b.
Qed.

Lemma has_run_iteration : keeps (fun p => has (wld p)) (run_iteration E).
Proof.
  unfold run_iteration.
  apply keeps_bind; [apply keeps_gets_any|intros q].
  destruct q as [|f rest]; [apply keeps_ret|].
  apply keeps_bind; [apply keeps_modify; auto|intros _].
  apply keeps_bind; [apply has_job|intros _; apply keeps_ret].
Qed.

Lemma has_run_report : keeps (fun p => has (wld p)) run_report.
Proof. unfold run_report, print. has_steps b. Qed.

Lemma has_dispatch O cmd schedule bkt key_id secret files :
  keeps has (dispatch E O cmd schedule bkt key_id secret files).
Proof.
  unfold dispatch.
  apply keeps_bind; [apply keeps_modify; auto|intros _].
  apply keeps_bind; [apply has_make_workers|intros ks].
  intros s r s' Hs [= _ <-].
  destruct (run_pool E schedule (started <$> ks) s) as [ps w1] eqn:R.
  simpl.
  apply (inv_run_pool E has has_run_iteration has_run_report _ _ _ _ _ Hs R).
Qed.

Lemma has_finish C cmd bkt rev : keeps has (finish E C cmd bkt rev).
Proof.
  unfold finish.
  apply keeps_bind; [apply keeps_gets_any|intros ps].
  destruct (mapM exitcode ps); [|apply keeps_raise].
  destruct (_ =? 0); [|apply keeps_raise].
  apply keeps_bind; [unfold print; has_steps b|intros _].
  apply keeps_bind; [apply has_set_s3_revision|intros _].
  unfold print; has_steps b.
Qed.

End HasBucketRun.

Section HasBucketSync.
Variable b : string.
Variable E : env.
Variable C : svn_client.

Local Abbreviation has := (fun w : world => is_Some (s3 w !! b)).

Lemma has_get_s3_svn_bucket cmd name : keeps has (get_s3_svn_bucket cmd name).
Proof. unfold get_s3_svn_bucket, print. has_steps b. Qed.

Lemma has_read_revision cmd name svn_bucket :
  keeps has
    (svn_key ← get_key svn_bucket SVN_REVISION_CONF;
     match svn_key with
     | None =>
         set_s3_revision E cmd name default_s3_revision (Some svn_bucket);;
         mret default_s3_revision
     | Some o =>
         modify (add_call (ReadKey svn_bucket SVN_REVISION_CONF));;
         match obj_body o with
         | YamlBody doc => mret doc
         | FileBody _ => raise TypeError
         end
     end).
Proof.
  apply keeps_bind; [unfold get_key; has_steps b|intros [o|]].
  - has_steps b.
  - apply keeps_bind; [apply has_set_s3_revision|intros _; apply keeps_ret].
Qed.

Lemma has_first_upload_revision cmd r :
  keeps has (first_upload_revision C cmd r).
Proof. unfold first_upload_revision, print. has_steps b. Qed.

Lemma has_check_repository cmd r : keeps has (check_repository C cmd r).
Proof. unfold check_repository. has_steps b. Qed.

Lemma has_resolve_rest cmd bkt root r0 :
  keeps has
    (s3_svn_revision ← first_upload_revision C cmd r0;
     s3_svn_revision ← check_repository C cmd s3_svn_revision;
     when (0 <? cmd_verbosity cmd)
       (print (MsgLocalRevision (info_revision C));;
        print (MsgS3Revision (revision s3_svn_revision));;
        print MsgRunningDiff);;
     let changes :=
       diff_summarize C (revision s3_svn_revision) (info_revision C) in
     let changed_files := changed_files_of bkt root changes in
     when (0 <? cmd_verbosity cmd)
       (print (MsgFoundChanges (Z.of_nat (length changed_files))));;
     mret (s3_svn_revision, changed_files)).
Proof.
  apply keeps_bind; [apply has_first_upload_revision|intros r1].
  apply keeps_bind; [apply has_check_repository|intros r2].
  unfold print. has_steps b.
Qed.

Lemma has_get_s3_svn_revision cmd name :
  keeps has (get_s3_svn_revision E cmd name).
Proof.
  unfold get_s3_svn_revision.
  apply keeps_bind; [apply has_get_s3_svn_bucket|intros n].
  apply has_read_revision.
Qed.

Lemma has_resolve cmd bkt root : keeps has (resolve E C cmd bkt root).
Proof.
  unfold resolve.
  apply keeps_bind; [apply has_get_s3_svn_revision|intros r0].
  apply has_resolve_rest.
Qed.

Lemma has_sync_rest O schedule bkt key_id secret
    (x : s3_revision * list S3File) :
  keeps has
    (let '(s3_svn_revision, changed_files) := x in
     check_in_sync C changed_files;;
     dispatch E O (command_of O) schedule bkt key_id secret changed_files;;
     finish E C (command_of O) bkt s3_svn_revision).
Proof.
  destruct x as [rev files].
  apply keeps_bind; [apply has_check_in_sync|intros _].
  apply keeps_bind; [apply has_dispatch|intros _].
  apply has_finish.
Qed.

Lemma has_sync O schedule bkt key_id secret root :
  keeps has (sync E O C schedule bkt key_id secret root).
Proof.
  unfold sync.
  apply keeps_bind; [apply has_resolve|intros x].
  apply has_sync_rest.
Qed.

End HasBucketSync.

(** The checkpoint bucket is there once [get_s3_svn_bucket] was called. *)
Lemma get_s3_svn_bucket_has cmd bkt w r w' :
  get_s3_svn_bucket cmd bkt w = (r, w') ->
  is_Some (s3 w' !! svn_bucket_name bkt).
Proof.
  unfold get_s3_svn_bucket. intros H.
  apply bind_inv in H as [(a & s1 & _ & H) | (e & H & _)].
  - apply bind_inv in H as [(a' & s2 & H & [= _ <-]) | (e & H & _)];
      eapply get_or_create_bucket_has; exact H.
  - exfalso. revert H. unfold when, print, modify.
    destruct (1 <? cmd_verbosity cmd); discriminate.
Qed.

(** The media bucket is there once a worker was built. *)
Lemma worker_init_has n bkt key_id secret verb gzip expires force dry w r w' :
  worker_init n bkt key_id secret verb gzip expires force dry w = (r, w') ->
  is_Some (s3 w' !! bkt).
Proof.
  unfold worker_init. intros H.
  apply bind_inv in H as [(a & s1 & _ & H) | (e & H & _)].
  - revert H.
    apply (after_bind (fun x => is_Some (s3 x !! bkt))).
    + intros r1 s2. apply get_or_create_bucket_has.
    + intros _. unfold print. has_steps bkt.
  - exfalso. revert H. unfold when, print, modify.
    destruct (1 <? verb); discriminate.
Qed.

Lemma make_workers_has n nums bkt key_id secret verb gzip expires dry w r w' :
  make_workers (n :: nums) bkt key_id secret verb gzip expires dry w
    = (r, w') ->
  is_Some (s3 w' !! bkt).
Proof.
  simpl. apply (after_bind (fun x => is_Some (s3 x !! bkt))).
  - intros r1 s1. apply worker_init_has.
  - intros k. apply keeps_bind; [apply has_make_workers|intros ks].
    apply keeps_ret.
Qed.

Lemma dispatch_has E O cmd schedule bkt key_id secret files w r w' :
  dispatch E O cmd schedule bkt key_id secret files w = (r, w') ->
  is_Some (s3 w' !! bkt).
Proof.
  unfold dispatch. intros H.
  apply bind_inv in H as [(a & s1 & _ & H) | (e & H & _)];
    [|discriminate H].
  revert H. apply (after_bind (fun x => is_Some (s3 x !! bkt))).
  - intros r1 s2.
    rewrite (seqZ_cons 0) by (destruct (opt_processes O <? 1) eqn:X; lia).
    apply make_workers_has.
  - intros ks s r2 s' Hs [= _ <-].
    destruct (run_pool E schedule (started <$> ks) s) as [ps w1] eqn:R.
    simpl.
    apply (inv_run_pool E (fun x => is_Some (s3 x !! bkt))
             (has_run_iteration bkt E) (has_run_report bkt) _ _ _ _ _ Hs R).
Qed.

(** X14. [s3-svnsync] makes the buckets it needs and removes none, whatever
    [--dry-run] says: however the command ends once the settings were found,
    the bucket of the checkpoint, [<AWS_BUCKET_NAME>.svn], is there
    afterwards; when the command returns, the media bucket is there too; and
    every bucket that was there before still is. *)
Theorem svnsync_makes_its_buckets
    (E : env) (S : settings) (O : options) (C : svn_client)
    (schedule : list sched_event) (bkt key_id secret root : string)
    (w w' : world) (r : res unit) :
  settings_ok S bkt key_id secret root ->
  handle E S O C schedule w = (r, w') ->
  is_Some (s3 w' !! svn_bucket_name bkt) /\
  (r = Ok tt -> is_Some (s3 w' !! bkt)) /\
  (forall b, is_Some (s3 w !! b) -> is_Some (s3 w' !! b)).
Proof.
  intros HS H. rewrite (handle_sync _ _ _ _ _ _ _ _ _ HS) in H.
  split; [|split].
  - revert H. unfold sync.
    apply (after_bind (fun x => is_Some (s3 x !! svn_bucket_name bkt)));
      [|intros x; apply has_sync_rest].
    intros r1 s1. unfold resolve.
    apply (after_bind (fun x => is_Some (s3 x !! svn_bucket_name bkt)));
      [|intros x; apply has_resolve_rest].
    intros r2 s2. unfold get_s3_svn_revision.
    apply (after_bind (fun x => is_Some (s3 x !! svn_bucket_name bkt)));
      [|intros x; apply has_read_revision].
    intros r3 wc. apply get_s3_svn_bucket_has.
  - intros ->. unfold sync in H.
    apply bind_inv in H as [([rev files] & s1 & _ & H) | (e & _ & [=])].
    apply bind_inv in H as [(a & s2 & _ & H) | (e & _ & [=])].
    apply bind_inv in H as [(a' & wd & H & F) | (e & _ & [=])].
    eapply has_finish; [|exact F].
    eapply dispatch_has; exact H.
  - intros b Hb. eapply has_sync; [exact Hb|exact H].
Qed.

Lemma svnsync_makes_its_buckets_witness :
  let run := handle (Demo.E Demo.no_fault) Demo.conf (Demo.opts true 2)
               (Demo.svn Demo.clean) [] Demo.fresh in
  s3 Demo.fresh = ∅ /\ fst run = Ok tt /\
  is_Some (s3 (snd run) !! "media.svn") /\
  is_Some (s3 (snd run) !! "media").
Proof.
  intros run.
  assert (Hr : fst run = Ok tt) by (vm_compute; reflexivity).
  split; [reflexivity|]. split; [exact Hr|].
  destruct (svnsync_makes_its_buckets (Demo.E Demo.no_fault) Demo.conf
              (Demo.opts true 2) (Demo.svn Demo.clean) [] "media" "id"
              "secret" "/media" Demo.fresh (snd run) (fst run))
    as (H1 & H2 & _).
  - repeat split; reflexivity.
  - apply surjective_pairing.
  - split; [exact H1|exact (H2 Hr)].
Defined.

(** ** The change set *)

(** X15. The files that [handle] queues for a list of changes: one for every
    change that is not [normal] and is that of a file, or is the deletion of
    a directory.  Its key is the path of the change, its file is that path
    under [MEDIA_ROOT], and it is a delete exactly when the change is one.  A directory that was added or modified
    is never queued, and neither is a node of another kind. *)
Theorem changed_files_of_spec
    (bkt root : string) (changes : list diff_summary) (f : S3File) :
  f ∈ changed_files_of bkt root changes <->
  exists c,
    c ∈ changes /\
    summarize_kind c <> ds_normal /\
    (change_node_kind c = nk_file \/
     change_node_kind c = nk_dir /\ summarize_kind c = ds_delete) /\
    f = {| bucket_name := bkt; file_key := path c;
           filename := PyStr.path_join root (path c);
           delete_flag := is_delete_change (summarize_kind c) |}.
Proof.
  unfold changed_files_of. rewrite list_elem_of_omap. split.
  - intros (c & Hin & Hc). exists c. split; [exact Hin|].
    unfold changed_file in Hc.
    destruct (change_node_kind c), (summarize_kind c); simpl in Hc;
      try discriminate; inversion Hc; subst f;
      (split; [discriminate|]); (split; [|reflexivity]); auto.
  - intros (c & Hin & Hn & Hk & ->). exists c. split; [exact Hin|].
    unfold changed_file.
    destruct Hk as [-> | [-> ->]]; [|reflexivity].
    destruct (summarize_kind c); [congruence|reflexivity..].
Qed.

(** ** Runs that end before anything is queued *)

Lemma truthy_ne (s : string) : s <> "" -> PyStr.truthy s = true.
Proof.
  intros H. unfold PyStr.truthy. apply negb_true_iff.
  now apply String.eqb_neq.
Qed.

Lemma checkpoint_bucket_there bkt s o :
  checkpoint_object bkt s = Some o -> is_Some (s !! svn_bucket_name bkt).
Proof.
  unfold checkpoint_object, bucket_of.
  destruct (s !! svn_bucket_name bkt); simpl; [eauto|].
  rewrite lookup_empty. discriminate.
Qed.

Lemma get_s3_svn_revision_stored E cmd bkt w o r0 :
  checkpoint_object bkt (s3 w) = Some o -> obj_body o = YamlBody r0 ->
  exists wa,
    get_s3_svn_revision E cmd bkt w = (Ok r0, wa) /\
    s3 wa = s3 w /\ queue wa = queue w /\ processes wa = processes w.
Proof.
  intros Ho Hb. destruct (checkpoint_bucket_there _ _ _ Ho) as [bk L].
  unfold checkpoint_object in Ho.
  unfold get_s3_svn_revision, get_s3_svn_bucket, get_or_create_bucket.
  run_monad.
  destruct (1 <? cmd_verbosity cmd); simpl; rewrite L; simpl; rewrite Ho;
    simpl; rewrite Hb; eexists; (split; [reflexivity|]); repeat split.
Qed.

Lemma last_nil {A} (l : list A) : last l = None -> l = [].
Proof.
  induction l as [|a l IH]; [reflexivity|].
  destruct l as [|b l]; [discriminate|]. intros H.
  assert (b :: l = []) by (apply IH; exact H). discriminate.
Qed.

Lemma first_upload_revision_ok C cmd r0 w :
  (revision r0 = INITIAL_REVISION -> svn_log C <> []) ->
  exists w1,
    first_upload_revision C cmd r0 w = (Ok (start_revision C r0), w1) /\
    s3 w1 = s3 w /\ queue w1 = queue w /\ processes w1 = processes w.
Proof.
  intros Hlog. unfold first_upload_revision, start_revision.
  destruct (revision r0 =? INITIAL_REVISION) eqn:X.
  - apply Z.eqb_eq in X. specialize (Hlog X).
    destruct (last (svn_log C)) as [n|] eqn:L;
      [|now apply last_nil in L].
    run_monad. destruct (0 <? cmd_verbosity cmd); simpl;
      eexists; (split; [reflexivity|]); repeat split.
  - exists w. repeat split.
Qed.

(** The checkpoint that [check_repository] gives. *)
Lemma resolve_stored E C cmd bkt root w o r0 :
  checkpoint_object bkt (s3 w) = Some o -> obj_body o = YamlBody r0 ->
  (revision r0 = INITIAL_REVISION -> svn_log C <> []) ->
  exists w1,
    s3 w1 = s3 w /\ queue w1 = queue w /\ processes w1 = processes w /\
    resolve E C cmd bkt root w =
      if PyStr.truthy (url r0) && negb (String.eqb (url r0) (info_url C))
         && negb (ignore_svn_url cmd)
      then (Raise (CommandError "The S3 repo does not match the local repo"),
            w1)
      else
        let r1 := start_revision C r0 in
        let r2 := set_uuid (info_uuid C)
                    (if negb (ignore_svn_url cmd)
                     then set_url (info_url C) r1 else r1) in
        (Ok (r2, changed_files_of bkt root
                   (diff_summarize C (revision r1) (info_revision C))), w1).
Proof.
  intros Ho Hb Hlog.
  destruct (get_s3_svn_revision_stored E cmd bkt w o r0 Ho Hb)
    as (wa & Ra & Sa & Qa & Pa).
  destruct (first_upload_revision_ok C cmd r0 wa Hlog)
    as (wb & Rb & Sb & Qb & Pb).
  assert (url (start_revision C r0) = url r0) as Hurl.
  { unfold start_revision. destruct (_ =? _); [|reflexivity].
    destruct (last _); reflexivity. }
  unfold resolve. rewrite (bind_ok _ _ _ _ _ Ra). cbn beta.
  rewrite (bind_ok _ _ _ _ _ Rb). cbn beta.
  unfold check_repository. rewrite Hurl.
  destruct (PyStr.truthy (url r0) && negb (String.eqb (url r0) (info_url C))
            && negb (ignore_svn_url cmd)).
  - exists wb. run_monad. repeat split; congruence.
  - run_monad.
    destruct (0 <? cmd_verbosity cmd); simpl;
      eexists; (split; [|split; [|split; [|
        destruct (ignore_svn_url cmd); reflexivity]]]); simpl; congruence.
Qed.

Lemma start_revision_url C r0 : url (start_revision C r0) = url r0.
Proof.
  unfold start_revision. destruct (_ =? _); [|reflexivity].
  destruct (last _); reflexivity.
Qed.

Lemma first_upload_revision_empty_log C cmd r0 w :
  revision r0 = INITIAL_REVISION -> svn_log C = [] ->
  exists w1,
    first_upload_revision C cmd r0 w = (Raise IndexError, w1) /\
    s3 w1 = s3 w /\ queue w1 = queue w /\ processes w1 = processes w.
Proof.
  intros Hr Hl. unfold first_upload_revision. rewrite Hr, Hl.
  change (INITIAL_REVISION =? INITIAL_REVISION) with true. cbn iota.
  run_monad. destruct (0 <? cmd_verbosity cmd); simpl;
    eexists; (split; [reflexivity|]); repeat split.
Qed.

Lemma sync_resolve_raises E O C schedule bkt key_id secret root w e w1 :
  resolve E C (command_of O) bkt root w = (Raise e, w1) ->
  sync E O C schedule bkt key_id secret root w = (Raise e, w1).
Proof. intros R. unfold sync. now rewrite (bind_raise _ _ _ _ _ R). Qed.

(** X16. The checkpoint in S3 names another repository than the local one:
    its url is not empty and is not the url of the working copy.  Without
    [--ignore-url], [s3-svnsync] stops with a [CommandError]; S3 is as it
    was, nothing was queued and no process was started. *)
Theorem url_mismatch_stops_the_run
    (E : env) (S : settings) (O : options) (C : svn_client)
    (schedule : list sched_event) (bkt key_id secret root : string)
    (w : world) (o : s3object) (r0 : s3_revision) :
  settings_ok S bkt key_id secret root ->
  checkpoint_object bkt (s3 w) = Some o -> obj_body o = YamlBody r0 ->
  (revision r0 = INITIAL_REVISION -> svn_log C <> []) ->
  url r0 <> "" -> url r0 <> info_url C ->
  opt_ignore_url O = false ->
  exists message w',
    handle E S O C schedule w = (Raise (CommandError message), w') /\
    s3 w' = s3 w /\ queue w' = queue w /\ processes w' = processes w.
Proof.
  intros HS Ho Hb Hlog Hne Hurl Hig.
  destruct (resolve_stored E C (command_of O) bkt root w o r0 Ho Hb Hlog)
    as (w1 & Hs & Hq & Hp & R).
  rewrite (truthy_ne _ Hne) in R.
  apply String.eqb_neq in Hurl. rewrite Hurl in R.
  change (ignore_svn_url (command_of O)) with (opt_ignore_url O) in R.
  rewrite Hig in R. cbn [andb negb] in R.
  eexists. exists w1. rewrite (handle_sync _ _ _ _ _ _ _ _ _ HS).
  rewrite (sync_resolve_raises _ _ _ _ _ _ _ _ _ _ _ R). auto.
Qed.

Lemma url_mismatch_stops_the_run_witness :
  let C := {| svn_log := [40; 37]; info_url := "file:///svn/other";
              info_uuid := "uuid-2"; info_revision := 40;
              diff_summarize := fun _ _ => [Demo.added "a.css"];
              svn_status := Demo.clean |} in
  exists message w',
    handle (Demo.E Demo.no_fault) Demo.conf (Demo.opts false 2) C []
      (Demo.synced_at 37) = (Raise (CommandError message), w') /\
    s3 w' = s3 (Demo.synced_at 37) /\ queue w' = queue (Demo.synced_at 37) /\
    processes w' = processes (Demo.synced_at 37).
Proof.
  intros C.
  apply (url_mismatch_stops_the_run (Demo.E Demo.no_fault) Demo.conf
           (Demo.opts false 2) C [] "media" "id" "secret" "/media"
           (Demo.synced_at 37) (Demo.checkpoint 37)
           (match obj_body (Demo.checkpoint 37) with
            | YamlBody d => d | FileBody _ => default_s3_revision end)).
  - repeat split; reflexivity.
  - vm_compute. reflexivity.
  - reflexivity.
  - discriminate.
  - discriminate.
  - discriminate.
  - reflexivity.
Defined.

(** X17. A first run in a working copy whose log is empty: no checkpoint is
    in S3 and [client.log] returns no entry.  [s3-svnsync] ends with the
    [IndexError] of [history[-1]]; nothing was queued and no process was
    started, the other buckets are as they were, and, unless the run is a
    dry run, the default checkpoint, with revision [-1], is now in S3. *)
Theorem first_run_with_an_empty_log
    (E : env) (S : settings) (O : options) (C : svn_client)
    (schedule : list sched_event) (bkt key_id secret root : string)
    (w : world) :
  settings_ok S bkt key_id secret root ->
  checkpoint_object bkt (s3 w) = None ->
  svn_log C = [] ->
  exists w',
    handle E S O C schedule w = (Raise IndexError, w') /\
    queue w' = queue w /\ processes w' = processes w /\
    (forall b, b <> svn_bucket_name bkt -> s3 w' !! b = s3 w !! b) /\
    checkpoint_object bkt (s3 w') =
      if opt_dryrun O then None
      else Some (yaml_object E default_s3_revision).
Proof.
  intros HS Ho Hl.
  destruct (get_s3_svn_revision_run E (command_of O) bkt w) as (wa & Ra).
  rewrite Ho in Ra. destruct Ra as [Ra Hwa].
  destruct (first_upload_revision_empty_log C (command_of O)
              default_s3_revision wa eq_refl Hl) as (wb & Rb & Sb & _).
  assert (resolve E C (command_of O) bkt root w = (Raise IndexError, wb))
    as R.
  { unfold resolve. rewrite (bind_ok _ _ _ _ _ Ra). cbn beta.
    now rewrite (bind_raise _ _ _ _ _ Rb). }
  assert (quiet (opt_dryrun O) bkt w wb) as Q.
  { eapply (quiet_resolve E C (command_of O)); [apply quiet_refl|exact R]. }
  exists wb. rewrite (handle_sync _ _ _ _ _ _ _ _ _ HS).
  rewrite (sync_resolve_raises _ _ _ _ _ _ _ _ _ _ _ R).
  split; [reflexivity|].
  split; [apply (quiet_queue _ _ _ _ Q)|].
  split; [apply (quiet_processes _ _ _ _ Q)|].
  split; [apply (quiet_buckets _ _ _ _ Q)|].
  unfold checkpoint_object in *. rewrite Sb.
  change (dryrun (command_of O)) with (opt_dryrun O) in Hwa.
  destruct (opt_dryrun O); destruct Hwa as [H1 _]; exact H1.
Qed.

Lemma first_run_with_an_empty_log_witness :
  let C := {| svn_log := []; info_url := "file:///svn/media";
              info_uuid := "uuid-1"; info_revision := 0;
              diff_summarize := fun _ _ => [];
              svn_status := Demo.clean |} in
  exists w',
    handle (Demo.E Demo.no_fault) Demo.conf (Demo.opts false 2) C []
      Demo.fresh = (Raise IndexError, w') /\
    checkpoint_revision "media" (s3 w') = -1 /\
    is_Some (checkpoint_object "media" (s3 w')).
Proof.
  intros C.
  destruct (first_run_with_an_empty_log (Demo.E Demo.no_fault) Demo.conf
              (Demo.opts false 2) C [] "media" "id" "secret" "/media"
              Demo.fresh) as (w' & R & _ & _ & _ & Hc).
  - repeat split; reflexivity.
  - reflexivity.
  - reflexivity.
  - exists w'. split; [exact R|]. unfold checkpoint_revision.
    rewrite Hc. simpl. split; [reflexivity|eauto].
Defined.

(** X18. A run that finds nothing to upload or delete: the checkpoint in S3
    passes the check of the url, and the changes from its revision to the
    current revision of the working copy give no file.  [s3-svnsync] exits
    with code 0 before the checkpoint is written: S3 is as it was, and so
    the checkpoint keeps its revision, also when the working copy is at a
    later one. *)
Theorem nothing_to_do_keeps_the_checkpoint
    (E : env) (S : settings) (O : options) (C : svn_client)
    (schedule : list sched_event) (bkt key_id secret root : string)
    (w : world) (o : s3object) (r0 : s3_revision) :
  settings_ok S bkt key_id secret root ->
  checkpoint_object bkt (s3 w) = Some o -> obj_body o = YamlBody r0 ->
  revision r0 <> INITIAL_REVISION ->
  (url r0 = "" \/ url r0 = info_url C \/ opt_ignore_url O = true) ->
  changed_files_of bkt root
    (diff_summarize C (revision r0) (info_revision C)) = [] ->
  exists w',
    handle E S O C schedule w = (Raise (SystemExit 0), w') /\
    s3 w' = s3 w /\ queue w' = queue w /\ processes w' = processes w.
Proof.
  intros HS Ho Hb Hrev Hurl Hnil.
  destruct (resolve_stored E C (command_of O) bkt root w o r0 Ho Hb)
    as (w1 & Hs & Hq & Hp & R); [congruence|].
  change (ignore_svn_url (command_of O)) with (opt_ignore_url O) in R.
  assert (PyStr.truthy (url r0) && negb (String.eqb (url r0) (info_url C))
          && negb (opt_ignore_url O) = false) as Hc.
  { destruct Hurl as [-> | [-> | ->]].
    - reflexivity.
    - rewrite String.eqb_refl. apply andb_false_iff. left.
      apply andb_false_r.
    - apply andb_false_r. }
  rewrite Hc in R. cbn zeta in R.
  assert (start_revision C r0 = r0) as Hst.
  { unfold start_revision. now apply Z.eqb_neq in Hrev as ->. }
  rewrite Hst, Hnil in R.
  exists w1. rewrite (handle_sync _ _ _ _ _ _ _ _ _ HS).
  unfold sync. rewrite (bind_ok _ _ _ _ _ R). cbn beta iota.
  unfold check_in_sync. simpl. auto.
Qed.

Lemma nothing_to_do_keeps_the_checkpoint_witness :
  let C := {| svn_log := [40; 37]; info_url := "file:///svn/media";
              info_uuid := "uuid-1"; info_revision := 40;
              diff_summarize := fun _ _ =>
                [{| path := "img"; summarize_kind := ds_added;
                    change_node_kind := nk_dir |}];
              svn_status := Demo.clean |} in
  exists w',
    handle (Demo.E Demo.no_fault) Demo.conf (Demo.opts false 2) C []
      (Demo.synced_at 37) = (Raise (SystemExit 0), w') /\
    s3 w' = s3 (Demo.synced_at 37) /\ queue w' = queue (Demo.synced_at 37) /\
    processes w' = processes (Demo.synced_at 37).
Proof.
  intros C.
  apply (nothing_to_do_keeps_the_checkpoint (Demo.E Demo.no_fault) Demo.conf
           (Demo.opts false 2) C [] "media" "id" "secret" "/media"
           (Demo.synced_at 37) (Demo.checkpoint 37)
           (match obj_body (Demo.checkpoint 37) with
            | YamlBody d => d | FileBody _ => default_s3_revision end)).
  - repeat split; reflexivity.
  - vm_compute. reflexivity.
  - reflexivity.
  - discriminate.
  - right. left. reflexivity.
  - reflexivity.
Defined.

(** ** The checkpoint that a run writes *)

(** X19. The document that a run of [s3-svnsync] leaves as the checkpoint,
    when it found one, is not a dry run and returns: the revision and the
    uuid are those of the working copy, [last_update] is the current time,
    and the url is that of the working copy, unless [--ignore-url] was
    given: then the url that was stored is kept, so that the next run
    without the option meets the same mismatch.  [initial_revision] is the
    stored one, or the revision of the last entry of the log when the stored
    revision was [-1]. *)
Theorem written_checkpoint
    (E : env) (S : settings) (O : options) (C : svn_client)
    (schedule : list sched_event) (bkt key_id secret root : string)
    (w w' : world) (o : s3object) (r0 : s3_revision) :
  settings_ok S bkt key_id secret root ->
  checkpoint_object bkt (s3 w) = Some o -> obj_body o = YamlBody r0 ->
  opt_dryrun O = false ->
  handle E S O C schedule w = (Ok tt, w') ->
  checkpoint_object bkt (s3 w') =
    Some (yaml_object E
            {| url := if opt_ignore_url O then url r0 else info_url C;
               revision := info_revision C;
               last_update := Some (ctime E (now E));
               uuid := Some (info_uuid C);
               initial_revision :=
                 initial_revision (start_revision C r0) |}).
Proof.
  intros HS Ho Hb Hdry H.
  rewrite (handle_sync _ _ _ _ _ _ _ _ _ HS) in H.
  assert (revision r0 = INITIAL_REVISION -> svn_log C <> []) as Hlog.
  { intros Hr Hl.
    destruct (get_s3_svn_revision_stored E (command_of O) bkt w o r0 Ho Hb)
      as (wa & Ra & _).
    destruct (first_upload_revision_empty_log C (command_of O) r0 wa Hr Hl)
      as (wb & Rb & _).
    assert (resolve E C (command_of O) bkt root w = (Raise IndexError, wb))
      as R.
    { unfold resolve. rewrite (bind_ok _ _ _ _ _ Ra). cbn beta.
      now rewrite (bind_raise _ _ _ _ _ Rb). }
    rewrite (sync_resolve_raises _ _ _ _ _ _ _ _ _ _ _ R) in H.
    discriminate. }
  destruct (resolve_stored E C (command_of O) bkt root w o r0 Ho Hb Hlog)
    as (w1 & _ & _ & _ & R).
  change (ignore_svn_url (command_of O)) with (opt_ignore_url O) in R.
  unfold sync in H.
  apply bind_inv in H as [([rev files] & s1 & R1 & H) | (e & _ & [=])].
  apply bind_inv in H as [(a & s2 & _ & H) | (e & _ & [=])].
  apply bind_inv in H as [(a' & wd & _ & F) | (e & _ & [=])].
  rewrite R in R1.
  destruct (PyStr.truthy (url r0) && negb (String.eqb (url r0) (info_url C))
            && negb (opt_ignore_url O)); [discriminate|].
  cbn zeta in R1. injection R1 as <- _ _.
  destruct (mapM exitcode (processes wd)) as [codes|] eqn:Hcodes.
  - pose proof (finish_run E C (command_of O) bkt
                  (set_uuid (info_uuid C)
                     (if negb (opt_ignore_url O)
                      then set_url (info_url C) (start_revision C r0)
                      else start_revision C r0)) wd codes Hcodes) as Hfin.
    cbn zeta in Hfin.
    destruct (process_result_of codes =? 0).
    + destruct Hfin as (w4 & R4 & Hfin). rewrite R4 in F.
      injection F as <-.
      change (dryrun (command_of O)) with (opt_dryrun O) in Hfin.
      rewrite Hdry in Hfin. destruct Hfin as [Hobj _]. rewrite Hobj.
      do 2 f_equal.
      unfold set_last_update, set_revision, set_uuid, set_url.
      destruct (opt_ignore_url O); simpl;
        rewrite ?start_revision_url; reflexivity.
    + rewrite Hfin in F. discriminate.
  - unfold finish in F. revert F. unfold mbind, M_bind, gets. simpl.
    rewrite Hcodes. discriminate.
Qed.

Lemma written_checkpoint_witness :
  let C := {| svn_log := [40; 37]; info_url := "file:///svn/moved";
              info_uuid := "uuid-1"; info_revision := 40;
              diff_summarize := fun _ _ => [Demo.added "a.css"];
              svn_status := Demo.clean |} in
  let O := {| opt_processes := 1; opt_dryrun := false; opt_verbose := false;
              opt_debug := false; opt_ignore_url := true; opt_gzip := false;
              opt_expires := false |} in
  let run := handle (Demo.E Demo.no_fault) Demo.conf O C []
               (Demo.synced_at 37) in
  fst run = Ok tt /\
  checkpoint_object "media" (s3 (snd run)) =
    Some (yaml_object (Demo.E Demo.no_fault)
            {| url := "file:///svn/media"; revision := 40;
               last_update := Some "Thu Jan  1 00:00:00 2026";
               uuid := Some "uuid-1"; initial_revision := None |}).
Proof.
  intros C O run.
  assert (Hr : fst run = Ok tt) by (vm_compute; reflexivity).
  split; [exact Hr|].
  apply (written_checkpoint (Demo.E Demo.no_fault) Demo.conf O C []
           "media" "id" "secret" "/media" (Demo.synced_at 37) (snd run)
           (Demo.checkpoint 37)
           (match obj_body (Demo.checkpoint 37) with
            | YamlBody d => d | FileBody _ => default_s3_revision end)).
  - repeat split; reflexivity.
  - vm_compute. reflexivity.
  - reflexivity.
  - reflexivity.
  - rewrite <- Hr. apply surjective_pairing.
Defined.

(** ** Every job is executed *)

Lemma job_executed_mono E b f d1 d d2 :
  job_executed E b f d -> job_executed E b f (d1 ++ d ++ d2).
Proof.
  unfold job_executed. destruct (delete_flag f).
  - intros H. apply elem_of_app. right. apply elem_of_app. now left.
  - intros (file & hs & Hf & H). exists file, hs. split; [exact Hf|].
    apply elem_of_app. right. apply elem_of_app. now left.
Qed.

Lemma delete_s3_calls (f : S3File) (p : proc) r p' :
  dry_run (self p) = false ->
  delete_s3 f p = (r, p') ->
  exists rest,
    calls (wld p') =
      calls (wld p) ++ DeleteKey (aws_bucket (self p)) (file_key f) :: rest.
Proof.
  intros D. unfold delete_s3. run_monad. rewrite D. simpl.
  destruct (0 <? verbosity (self p)); simpl;
    destruct (bucket_of _ _ !! gz_key (file_key f)); simpl;
    intros [= _ <-]; simpl; eexists;
    rewrite <- ?app_assoc; simpl; reflexivity.
Qed.

Lemma send_file_unreadable E f p r p' :
  fs E !! filename f = None -> send_file E f p = (r, p') -> r = Raise IOError.
Proof.
  intros Hf. unfold send_file, open_read. run_monad. rewrite Hf.
  destruct (0 <? verbosity (self p)); simpl; now intros [= <- _].
Qed.

(** What a job that returns has done, for a worker on duty. *)
Lemma job_step E b f p p' :
  on_duty b (self p) ->
  (if do_delete f then delete_s3 f else upload_s3 E f) p = (Ok tt, p') ->
  exists d, calls (wld p') = calls (wld p) ++ d /\ job_executed E b f d.
Proof.
  intros (Hb & D & F) H. unfold job_executed, do_delete in *.
  destruct (delete_flag f).
  - destruct (delete_s3_calls f p _ _ D H) as (rest & Hc).
    rewrite Hb in Hc. eexists. split; [exact Hc|].
    apply elem_of_cons. now left.
  - rewrite (upload_s3_sends _ _ _ _ (check_unchanged_forced E f p F)) in H.
    destruct (fs E !! filename f) as [file|] eqn:Hf.
    + destruct (send_file_sends E f p file D Hf) as (r & p1 & rest & R & Hc).
      rewrite R in H. injection H as -> ->. rewrite Hb in Hc.
      eexists. split; [exact Hc|]. exists file. eexists.
      split; [reflexivity|]. apply elem_of_cons. now left.
    + apply (send_file_unreadable E f p _ _ Hf) in H. discriminate.
Qed.

Lemma on_duty_frame b p0 p :
  frame p0 p -> on_duty b (self p0) -> on_duty b (self p).
Proof.
  intros Fr (Hb & D & F).
  destruct (config_fields _ _ (frame_config _ _ Fr))
    as (_ & H1 & _ & _ & _ & H2 & H3).
  unfold on_duty. rewrite H1, H2, H3. auto.
Qed.

Section PoolJobs.
Variable E : env.
Variable b : string.
Variable files : list S3File.
Variable w0 : world.

Local Abbreviation inv := (jobs_inv E b files w0).
Local Abbreviation duty := (fun p : process => on_duty b (target p)).

Lemma jobs_run_iteration p c p' :
  on_duty b (self p) -> inv (wld p) ->
  run_iteration E p = (Ok c, p') -> inv (wld p').
Proof.
  intros Hd (d & Hc & Hall) R.
  destruct (queue (wld p)) as [|f rest] eqn:Q.
  - rewrite (run_iteration_empty E p Q) in R. injection R as _ <-.
    exists d. rewrite Q. auto.
  - destruct ((if do_delete f then delete_s3 f else upload_s3 E f)
                (on_wld (set_queue rest) p)) as [r p1] eqn:J.
    rewrite (run_iteration_cons E f rest p r p1 Q J) in R.
    destruct r as [[]|e]; [|discriminate]. injection R as _ <-.
    destruct (job_step E b f (on_wld (set_queue rest) p) p1 Hd J)
      as (d1 & Hc1 & Hdone).
    pose proof (queue_job E f rest (on_wld (set_queue rest) p) _ _
                  eq_refl J) as Hq.
    exists (d ++ d1). split.
    + rewrite Hc1. simpl. rewrite Hc. symmetry. apply app_assoc.
    + intros g Hg. destruct (Hall g Hg) as [Hin|Hg'].
      * apply elem_of_cons in Hin as [->|Hin].
        -- right. apply (job_executed_mono E b f d d1 []) in Hdone.
           now rewrite app_nil_r in Hdone.
        -- left. simpl in Hq. now rewrite Hq.
      * right. apply (job_executed_mono E b g [] d d1) in Hg'. exact Hg'.
Qed.

Lemma jobs_run_report p r p' :
  inv (wld p) -> run_report p = (r, p') -> inv (wld p').
Proof.
  intros (d & Hc & Hall) R.
  destruct (run_report_run p) as (p1 & R1 & _ & Hq & _ & Hc1).
  rewrite R1 in R. injection R as _ <-.
  exists d. rewrite Hc1, Hq. auto.
Qed.

Lemma jobs_run_loop n p p' :
  on_duty b (self p) -> inv (wld p) ->
  run_loop E n p = (Ok tt, p') -> inv (wld p').
Proof.
  revert p. induction n as [|n IH]; intros p Hd Hi; simpl.
  - now intros [= <-].
  - intros H.
    apply bind_inv in H as [(c & p1 & R & H) | (e & _ & [=])].
    pose proof (jobs_run_iteration p c p1 Hd Hi R) as Hi1.
    pose proof (on_duty_frame b p p1
                  (frame_run_iteration _ _ p _ p1 (frame_refl p) R) Hd)
      as Hd1.
    destruct c; [exact (IH p1 Hd1 Hi1 H)|].
    injection H as <-. exact Hi1.
Qed.

Lemma jobs_run p p' :
  on_duty b (self p) -> inv (wld p) ->
  run E p = (Ok tt, p') -> inv (wld p').
Proof.
  intros Hd Hi. unfold run. unfold mbind at 1, M_bind at 1, gets at 1.
  intros H.
  apply bind_inv in H as [([] & p1 & R & H) | (e & _ & [=])].
  eapply jobs_run_report; [|exact H].
  eapply jobs_run_loop; eauto.
Qed.

Lemma jobs_step_process p w p' w' :
  duty p -> step_process E p w = (p', w') ->
  duty p' /\ (inv w -> inv w' \/ bad p') /\ (bad p -> bad p').
Proof.
  intros Hd. unfold step_process. destruct (exitcode p) as [c|] eqn:X.
  - intros [= <- <-]. auto.
  - destruct (run_iteration E _) as [[[|]|e] st] eqn:R.
    + intros [= <- <-]. simpl.
      pose proof (frame_run_iteration _ _ _ _ _ (frame_refl _) R) as Fr.
      split; [exact (on_duty_frame b _ _ Fr Hd)|]. split.
      * intros Hi. left.
        exact (jobs_run_iteration {| self := target p; wld := w |} _ _
                 Hd Hi R).
      * intros (c & Hc & _). congruence.
    + destruct (run_report st) as [r st'] eqn:R'. intros [= <- <-]. simpl.
      pose proof (frame_run_iteration _ _ _ _ _ (frame_refl _) R) as Fr.
      pose proof (frame_run_report _ _ _ _ Fr R') as Fr'.
      split; [exact (on_duty_frame b _ _ Fr' Hd)|]. split.
      * intros Hi. left. eapply jobs_run_report; [|exact R'].
        exact (jobs_run_iteration {| self := target p; wld := w |} _ _
                 Hd Hi R).
      * intros (c & Hc & _). congruence.
    + intros [= <- <-]. simpl.
      pose proof (frame_run_iteration _ _ _ _ _ (frame_refl _) R) as Fr.
      split; [exact (on_duty_frame b _ _ Fr Hd)|]. split.
      * intros _. right. exists 1. split; [reflexivity|lia].
      * intros (c & Hc & _). congruence.
Qed.

Lemma jobs_finish_process p w p' w' :
  duty p -> finish_process E p w = (p', w') ->
  duty p' /\ (inv w -> inv w' \/ bad p') /\ (bad p -> bad p').
Proof.
  intros Hd. unfold finish_process. destruct (exitcode p) as [c|] eqn:X.
  - intros [= <- <-]. auto.
  - destruct (run E _) as [[[]|e] st] eqn:R; intros [= <- <-]; simpl;
      pose proof (frame_run _ _ _ _ _ (frame_refl _) R) as Fr;
      (split; [exact (on_duty_frame b _ _ Fr Hd)|]); split.
    + intros Hi. left.
      exact (jobs_run {| self := target p; wld := w |} _ Hd Hi R).
    + intros (c & Hc & _). congruence.
    + intros _. right. exists 1. split; [reflexivity|lia].
    + intros (c & Hc & _). congruence.
Qed.

Lemma jobs_kill_process signal p :
  (bad p -> bad (kill_process signal p)) /\
  (exitcode p = None -> bad (kill_process signal p)) /\
  target (kill_process signal p) = target p.
Proof.
  unfold kill_process. destruct (exitcode p) as [c|] eqn:X.
  - split; [auto|]. split; [discriminate|reflexivity].
  - split; [intros (c & Hc & _); congruence|]. split; [|reflexivity].
    intros _. exists (Z.neg signal). split; [reflexivity|lia].
Qed.

Lemma failed_insert (ps : list process) (i : nat) (p p' : process) :
  ps !! i = Some p -> (bad p -> bad p') ->
  failed ps -> failed (<[i := p']> ps).
Proof.
  intros L Hb (q & Hq & Hbad).
  apply list_elem_of_lookup in Hq as [j Hj].
  destruct (decide (j = i)) as [->|Hne].
  - exists p'. split.
    + apply list_elem_of_lookup. exists i.
      apply list_lookup_insert_eq. now apply lookup_lt_Some in L.
    + apply Hb. congruence.
  - exists q. split; [|exact Hbad].
    apply list_elem_of_lookup. exists j.
    rewrite list_lookup_insert_ne by auto. exact Hj.
Qed.

Lemma failed_here (ps : list process) (i : nat) (p p' : process) :
  ps !! i = Some p -> bad p' -> failed (<[i := p']> ps).
Proof.
  intros L Hb. exists p'. split; [|exact Hb].
  apply list_elem_of_lookup. exists i.
  apply list_lookup_insert_eq. now apply lookup_lt_Some in L.
Qed.

Lemma jobs_pool_event ev ps w ps' w' :
  Forall duty ps -> pool_event E ev (ps, w) = (ps', w') ->
  Forall duty ps' /\ (inv w -> inv w' \/ failed ps') /\
  (failed ps -> failed ps').
Proof.
  intros Hd. unfold pool_event. destruct ev as [i | i signal].
  - destruct (ps !! i) as [p|] eqn:L; [|intros [= <- <-]; auto].
    destruct (step_process E p w) as [p1 w1] eqn:S1. intros [= <- <-].
    assert (duty p) as Hp
      by (rewrite Forall_forall in Hd; apply Hd;
          apply list_elem_of_lookup; eauto).
    destruct (jobs_step_process _ _ _ _ Hp S1) as (H1 & H2 & H3).
    split; [now apply Forall_insert|]. split.
    + intros Hi. destruct (H2 Hi) as [Hi'|Hb]; [now left|right].
      exact (failed_here ps i p p1 L Hb).
    + exact (failed_insert ps i p p1 L H3).
  - destruct (ps !! i) as [p|] eqn:L; intros [= <- <-]; auto.
    assert (duty p) as Hp
      by (rewrite Forall_forall in Hd; apply Hd;
          apply list_elem_of_lookup; eauto).
    destruct (jobs_kill_process signal p) as (K1 & _ & K3).
    split; [apply Forall_insert; [exact Hd|]; simpl; now rewrite K3|].
    split; [now left|]. exact (failed_insert ps i p _ L K1).
Qed.

Lemma jobs_join_all ps w ps' w' :
  Forall duty ps -> join_all E ps w = (ps', w') ->
  Forall duty ps' /\ (inv w -> inv w' \/ failed ps') /\
  (failed ps -> failed ps').
Proof.
  revert w ps' w'. induction ps as [|p ps IH]; intros w ps' w' Hd; simpl.
  - intros [= <- <-]. auto.
  - destruct (finish_process E p w) as [p1 w1] eqn:F1.
    destruct (join_all E ps w1) as [ps2 w2] eqn:Jn. intros [= <- <-].
    inversion Hd as [|? ? Hp Hps]; subst.
    destruct (jobs_finish_process _ _ _ _ Hp F1) as (A1 & A2 & A3).
    destruct (IH _ _ _ Hps Jn) as (B1 & B2 & B3).
    split; [constructor; assumption|]. split.
    + intros Hi. destruct (A2 Hi) as [Hi1|Hb].
      * destruct (B2 Hi1) as [Hi2|(q & Hq & Hb)]; [now left|right].
        exists q. split; [apply elem_of_cons; now right|exact Hb].
      * right. exists p1. split; [apply elem_of_cons; now left|exact Hb].
    + intros (q & Hq & Hb). apply elem_of_cons in Hq as [->|Hq].
      * exists p1. split; [apply elem_of_cons; now left|auto].
      * destruct (B3 (ex_intro _ q (conj Hq Hb))) as (q' & Hq' & Hb').
        exists q'. split; [apply elem_of_cons; now right|exact Hb'].
Qed.

(** Through a pool of workers on duty, every file stays on the queue or has
    its job executed, unless a process fails. *)
Lemma jobs_run_pool schedule ps w ps' w' :
  Forall duty ps -> run_pool E schedule ps w = (ps', w') ->
  Forall duty ps' /\ (inv w -> inv w' \/ failed ps') /\
  (failed ps -> failed ps').
Proof.
  unfold run_pool. revert ps w.
  induction schedule as [|ev evs IH]; intros ps w Hd; cbn [fold_left].
  - destruct (join_all E ps w) as [ps1 w1] eqn:Jn. intros [= <- <-].
    now apply jobs_join_all.
  - destruct (pool_event E ev (ps, w)) as [ps1 w1] eqn:Ev.
    destruct (jobs_pool_event _ _ _ _ _ Hd Ev) as (A1 & A2 & A3).
    intros H. destruct (IH _ _ A1 H) as (B1 & B2 & B3).
    split; [exact B1|]. split; [|auto].
    intros Hi. destruct (A2 Hi) as [Hi1|Hf]; [auto|right; auto].
Qed.

End PoolJobs.

Lemma not_failed (ps : list process) :
  Forall (fun p => exitcode p = Some 0) ps -> ~ failed ps.
Proof.
  intros Hall (p & Hp & c & Hc & Hne).
  rewrite Forall_forall in Hall. specialize (Hall p Hp). congruence.
Qed.

(** A run of [handle] that is not a dry run and returns has executed the
    job of every file that [resolve] gave. *)
Lemma handle_does_every_job E S O C schedule bkt key_id secret root
    w w' rev files w1 :
  settings_ok S bkt key_id secret root ->
  opt_dryrun O = false ->
  resolve E C (command_of O) bkt root w = (Ok (rev, files), w1) ->
  handle E S O C schedule w = (Ok tt, w') ->
  exists d,
    calls w' = calls w ++ d /\ forall f, f ∈ files -> job_executed E bkt f d.
Proof.
  intros HS Hdry Hres H.
  rewrite (handle_sync _ _ _ _ _ _ _ _ _ HS) in H. unfold sync in H.
  rewrite (bind_ok _ _ _ _ _ Hres) in H. cbn beta iota in H.
  apply bind_inv in H as [([] & w2 & Rc & H) | (e & _ & [=])].
  apply check_in_sync_ok in Rc as [-> _].
  apply bind_inv in H as [([] & w3 & Rd & Rf) | (e & _ & [=])].
  assert (quiet (opt_dryrun O) bkt w w1) as Q1.
  { eapply (quiet_resolve E C (command_of O)); [apply quiet_refl|exact Hres]. }
  assert (quiet (opt_dryrun O) bkt w3 w') as Q4.
  { eapply (quiet_finish E C (command_of O)); [apply quiet_refl|exact Rf]. }
  apply finish_ok in Rf.
  unfold dispatch in Rd.
  set (n := if opt_processes O <? 1 then 1 else opt_processes O) in Rd.
  destruct (make_workers_run (seqZ 0 n) bkt key_id secret
              (cmd_verbosity (command_of O)) (opt_gzip O) (opt_expires O)
              (dryrun (command_of O)) (set_queue (queue w1 ++ files) w1))
    as (ks & wq & R1 & Hall & Hlen & Hq & _ & W1).
  rewrite (bind_ok (modify (fun w0 => set_queue (queue w0 ++ files) w0)) _
             w1 tt (set_queue (queue w1 ++ files) w1) eq_refl) in Rd.
  cbn beta in Rd. rewrite (bind_ok _ _ _ _ _ R1) in Rd. cbn beta in Rd.
  unfold modify in Rd.
  destruct (run_pool E schedule (started <$> ks) wq) as [ps wp] eqn:R2.
  injection Rd as <-. simpl in Rf.
  assert (Forall (fun p => on_duty bkt (target p)) (started <$> ks)) as Hd.
  { apply Forall_fmap. eapply Forall_impl; [exact Hall|].
    intros k (Hb & Hdr & Hf & _). simpl. unfold on_duty.
    change (dryrun (command_of O)) with (opt_dryrun O) in Hdr.
    rewrite Hdry in Hdr. auto. }
  destruct (jobs_run_pool E bkt files wq schedule _ wq ps wp Hd R2)
    as (_ & Hinv & _).
  destruct Hinv as [(d3 & Hc3 & Hjobs) | Hfail].
  { exists []. split; [now rewrite app_nil_r|].
    intros f Hf. left. rewrite Hq. simpl. apply elem_of_app. now right. }
  2:{ exfalso. exact (not_failed ps Rf Hfail). }
  assert (queue wp = []) as Hempty.
  { destruct (run_pool_queue E schedule _ wq ps wp R2) as [_ Hdone].
    assert (pool_ok bkt (dryrun (command_of O)) (started <$> ks)) as Hok
      by (unfold pool_ok; apply Forall_fmap; exact Hall).
    destruct (run_pool_ok E bkt (dryrun (command_of O)) wq schedule _ _ _ _
                Hok (pool_frame_refl _ _ _) R2) as (_ & _ & Hl & _).
    assert (length ps = Z.to_nat n) as Hn
      by (rewrite Hl, length_fmap, Hlen; apply length_seqZ).
    destruct ps as [|p ps];
      [simpl in Hn; subst n; destruct (opt_processes O <? 1) eqn:X; lia|].
    destruct Hdone as [(q & Hin & Hx)|He]; [| |exact He].
    - exists p. split; [apply elem_of_cons; now left|].
      now inversion Rf.
    - apply list_elem_of_fmap in Hin as (k & -> & _). discriminate Hx. }
  destruct (quiet_calls _ _ _ _ Q1) as (d1 & Hc1 & _).
  destruct (worked_calls _ _ _ _ W1) as (d2 & Hc2 & _).
  destruct (quiet_calls _ _ _ _ Q4) as (d4 & Hc4 & _).
  simpl in Hc2, Hc4.
  exists ((d1 ++ d2) ++ d3 ++ d4). split.
  - rewrite Hc4, Hc3, Hc2, Hc1. now rewrite <- !app_assoc.
  - intros f Hf. apply job_executed_mono.
    destruct (Hjobs f Hf) as [Hin|Hdone]; [|exact Hdone].
    rewrite Hempty in Hin. now apply elem_of_nil in Hin.
Qed.

Lemma changed_files_of_elem
    (bkt root : string) (changes : list diff_summary) (f : S3File) :
  f ∈ changed_files_of bkt root changes <->
  exists c, c ∈ changes /\ queued_change c /\ f = job_of bkt root c.
Proof.
  unfold changed_files_of, queued_change, job_of.
  rewrite list_elem_of_omap. split.
  - intros (c & Hin & Hc). exists c. split; [exact Hin|].
    unfold changed_file in Hc.
    destruct (change_node_kind c), (summarize_kind c); simpl in Hc;
      try discriminate; inversion Hc; subst f;
      (split; [split; [discriminate|auto]|reflexivity]).
  - intros (c & Hin & (Hn & Hk) & ->). exists c. split; [exact Hin|].
    unfold changed_file.
    destruct Hk as [-> | [-> ->]]; [|reflexivity].
    destruct (summarize_kind c); [congruence|reflexivity..].
Qed.

(** ** Forced uploads, through a run *)




(** ** The first upload, through a run *)

(** C7.  The checkpoint that a run loads has revision [-1], and the log of
    the local repository is not empty and lists its revisions as
    [client.log] returns them, from the newest to the oldest.  Then [handle]
    sets the revision to start from, and [initial_revision], to the earliest
    revision of the log.  In every run that goes on to compute a change set,
    the files it gives are those of the changes that [diff_summarize] lists
    from that revision to the current revision of the local repository, and
    not the files of the current revision: one job for every such change of
    a file, or deletion of a directory, and nothing else; and the run does
    compute it unless the url of the checkpoint differs from that of the
    local repository.  When the run is not a dry run and [handle] returns,
    every one of these jobs was executed: the file of the change was written
    under its key, or the key was deleted. *)
Theorem first_upload_starts_from_earliest_revision
    (E : env) (C : svn_client) (cmd : Command) (bkt root : string)
    (w wa : world) (r0 : s3_revision) :
  get_s3_svn_revision E cmd bkt w = (Ok r0, wa) ->
  revision r0 = INITIAL_REVISION ->
  newest_first (svn_log C) ->
  svn_log C <> [] ->
  exists n,
    earliest_revision (svn_log C) = Some n /\
    (exists wb,
        first_upload_revision C cmd r0 wa =
          (Ok (set_initial_revision n (set_revision n r0)), wb)) /\
    (forall rev files w1,
        resolve E C cmd bkt root w = (Ok (rev, files), w1) ->
        revision rev = n /\ initial_revision rev = Some n /\
        files = changed_files_of bkt root
                  (diff_summarize C n (info_revision C)) /\
        forall f, f ∈ files <->
          exists c, c ∈ diff_summarize C n (info_revision C) /\
                    queued_change c /\ f = job_of bkt root c) /\
    (PyStr.truthy (url r0) && negb (String.eqb (url r0) (info_url C))
       && negb (ignore_svn_url cmd) = false ->
     exists rev w1,
       resolve E C cmd bkt root w =
         (Ok (rev, changed_files_of bkt root
                     (diff_summarize C n (info_revision C))), w1)) /\
    (forall S O schedule key_id secret w',
        cmd = command_of O ->
        settings_ok S bkt key_id secret root ->
        opt_dryrun O = false ->
        handle E S O C schedule w = (Ok tt, w') ->
        exists d,
          calls w' = calls w ++ d /\
          forall c, c ∈ diff_summarize C n (info_revision C) ->
                    queued_change c ->
                    job_executed E bkt (job_of bkt root c) d).
Proof.
  intros Ra Hrev Hsorted Hne.
  pose proof (last_newest_first _ Hsorted) as Hlast.
  destruct (last (svn_log C)) as [n|] eqn:L.
  2:{ exfalso. destruct (svn_log C) as [|a l]; [congruence|].
      revert L. clear. revert a.
      induction l as [|c l IH]; intros a; [discriminate|]. apply IH. }
  destruct (first_upload_revision_run C cmd r0 n wa Hrev L) as (wb & Rb).
  exists n. split; [symmetry; exact Hlast|]. split; [eauto|].
  assert (forall rev files w1,
             resolve E C cmd bkt root w = (Ok (rev, files), w1) ->
             revision rev = n /\ initial_revision rev = Some n) as Hfrom.
  { intros rev files w1 H. unfold resolve in H.
    rewrite (bind_ok _ _ _ _ _ Ra) in H. cbn beta in H.
    rewrite (bind_ok _ _ _ _ _ Rb) in H. cbn beta in H.
    apply bind_inv in H as [(r2 & wc & Rc & H) | (? & _ & [=])].
    apply check_repository_ok in Rc as [Hr Hi]. simpl in Hr, Hi.
    apply bind_inv in H as [(? & wd & _ & H) | (? & _ & [=])].
    apply bind_inv in H as [(? & we & _ & H) | (? & _ & [=])].
    inversion H; subst. auto. }
  assert (forall rev files w1,
             resolve E C cmd bkt root w = (Ok (rev, files), w1) ->
             files = changed_files_of bkt root
                       (diff_summarize C n (info_revision C))) as Hfiles.
  { intros rev files w1 H. destruct (Hfrom _ _ _ H) as [Hr _].
    rewrite <- Hr. exact (resolve_files _ _ _ _ _ _ _ _ _ H). }
  split; [|split].
  - intros rev files w1 H. destruct (Hfrom _ _ _ H) as [Hr Hi].
    split; [exact Hr|]. split; [exact Hi|].
    split; [exact (Hfiles _ _ _ H)|].
    intros f. rewrite (Hfiles _ _ _ H). apply changed_files_of_elem.
  - intros Hurl.
    destruct (check_repository_run C cmd
                (set_initial_revision n (set_revision n r0)) wb Hurl)
      as (rev & Rc).
    assert (exists files w1,
               resolve E C cmd bkt root w = (Ok (rev, files), w1))
      as (files & w1 & H).
    { unfold resolve. rewrite (bind_ok _ _ _ _ _ Ra). cbn beta.
      rewrite (bind_ok _ _ _ _ _ Rb). cbn beta.
      rewrite (bind_ok _ _ _ _ _ Rc). cbn beta. run_monad.
      destruct (0 <? cmd_verbosity cmd); simpl; do 2 eexists; reflexivity. }
    exists rev, w1. rewrite H. now rewrite (Hfiles _ _ _ H).
  - intros S O schedule key_id secret w' -> HS Hdry Hrun.
    pose proof Hrun as H.
    rewrite (handle_sync _ _ _ _ _ _ _ _ _ HS) in H. unfold sync in H.
    apply bind_inv in H as [([rev files] & w1 & Hres & _) | (e & _ & [=])].
    destruct (handle_does_every_job E S O C schedule bkt key_id secret root
                w w' rev files w1 HS Hdry Hres Hrun) as (d & Hc & Hjobs).
    exists d. split; [exact Hc|]. intros c Hin Hq. apply Hjobs.
    rewrite (Hfiles _ _ _ Hres). apply changed_files_of_elem. eauto.
Qed.

Lemma first_upload_starts_from_earliest_witness :
  let E := Demo.E Demo.no_fault in
  let C := Demo.svn Demo.clean in
  let O := Demo.opts false 2 in
  let run := handle E Demo.conf O C [] Demo.fresh in
  earliest_revision (svn_log C) = Some 3 /\
  (exists rev w1,
      resolve E C (command_of O) "media" "/media" Demo.fresh
        = (Ok (rev, [Demo.upload "a.css"; Demo.upload "b.js";
                     Demo.upload "img/c.png"]), w1) /\
      revision rev = 3 /\ initial_revision rev = Some 3) /\
  fst run = Ok tt /\
  (exists hs,
      SetContents "media" "img/c.png" (FileBody (Demo.bytes 3000)) hs
        ∈ calls (snd run)).
Proof.
  intros E C O run.
  assert (Hr : fst run = Ok tt) by (vm_compute; reflexivity).
  destruct (first_upload_starts_from_earliest_revision E C (command_of O)
              "media" "/media" Demo.fresh
              (snd (get_s3_svn_revision E (command_of O) "media" Demo.fresh))
              default_s3_revision)
    as (n & Hn & _ & Hfrom & Hrun & Hjobs).
  - vm_compute. reflexivity.
  - reflexivity.
  - repeat constructor; simpl; lia.
  - discriminate.
  - assert (n = 3) as -> by (vm_compute in Hn; now inversion Hn).
    split; [reflexivity|]. split; [|split; [exact Hr|]].
    + destruct (Hrun eq_refl) as (rev & w1 & H).
      destruct (Hfrom _ _ _ H) as (Hrv & Hi & _).
      exists rev, w1. split; [exact H|]. split; assumption.
    + destruct (Hjobs Demo.conf O [] "id" "secret" (snd run) eq_refl)
        as (d & Hc & Hall).
      * repeat split; reflexivity.
      * reflexivity.
      * rewrite <- Hr. apply surjective_pairing.
      * destruct (Hall (Demo.added "img/c.png")) as (file & hs & Hf & Hin).
        -- apply elem_of_cons. right. apply elem_of_cons. right.
           apply elem_of_cons. now left.
        -- split; [discriminate|]. now left.
        -- assert (file = {| filedata := Demo.bytes 3000; st_mtime := 500 |})
             as -> by (vm_compute in Hf; now injection Hf as <-).
           exists hs. rewrite Hc. apply elem_of_app. right. exact Hin.
Defined.
